(** * Text layout core of satori: bidi runs, measurement, line flow, font fit

    Shallow embedding of [src/text/index.ts] (functions [getRuns],
    [shapeLineWithBidiRuns], [flow], [collectSubstring],
    [segStartForSegment], the measure callback and the alignment step of the
    render loop) and of [src/text/measurer.ts] ([genMeasurer]).

    Conventions of the embedding:
    - a JavaScript string is a [string]; one character stands for one UTF-16
      code unit, so [String.length] is [.length];
    - JavaScript numbers that carry widths, heights and offsets are kept
      abstract ([Number]): the development uses no law of arithmetic on them,
      so every theorem holds for IEEE doubles as well as for the integer
      instance used in the examples; counters and array indices are [nat],
      integer font sizes of the fit search are [Z];
    - an object read by property name ([graphemeImages]) is the chain of
      its property maps, own properties first, then the prototypes;
    - closure variables mutated by the code ([cache], [lineWidths],
      [baselines], [lineSegmentNumber], [placedSegments]) form an explicit
      state threaded through a state-and-exception monad; reading a property
      of [undefined] is the only way this code throws. *)

From Stdlib Require Import ZArith Lia.
From stdpp Require Import gmap strings list fin_maps pretty.
From Equations Require Import Equations.

Set Default Proof Using "Type".

(** ** JavaScript values *)

(** Operations on JavaScript numbers used by the layout code. *)
Class Number := {
  num : Type;
  nzero : num;                       (* 0 *)
  nadd : num -> num -> num;          (* a + b *)
  nsub : num -> num -> num;          (* a - b *)
  nhalf : num -> num;                (* a / 2 *)
  nlt : num -> num -> bool;          (* a < b *)
  nle : num -> num -> bool;          (* a <= b *)
  nmax : num -> num -> num;          (* Math.max(a, b) *)
  nceil : num -> num;                (* Math.ceil(a) *)
  truthy : num -> bool;              (* ToBoolean: false for 0 and NaN *)
  ofZ : Z -> num;                    (* an integer as a number *)
  show : num -> string               (* ToString, as in a template literal *)
}.

(** [a > b] is [b < a]. *)
Definition ngt `{Number} (a b : num) : bool := nlt b a.

Module Js.

(** [s.slice(from, to)] for [0 <= from] and [0 <= to]. *)
Definition slice (from to : nat) (s : string) : string :=
  String.substring from (to - from) s.

(** [s.charAt(i)]: the empty string when out of range. *)
Definition charAt (i : nat) (s : string) : string :=
  match String.get i s with
  | Some c => String c EmptyString
  | None => EmptyString
  end.

(** [words.join('')]. *)
Definition join (ws : list string) : string := String.concat EmptyString ws.

(** [hay.indexOf(needle) < 0] where [needle] is [s[0]]; when [s] is empty
    [s[0]] is [undefined], which is searched as the text "undefined". *)
Definition firstCharNotIn (hay s : string) : bool :=
  match String.get 0 s with
  | Some c =>
      match String.index 0 (String c EmptyString) hay with
      | Some _ => false
      | None => true
      end
  | None =>
      match String.index 0 "undefined"%string hay with
      | Some _ => false
      | None => true
      end
  end.

End Js.

(** A value read from a property of a JavaScript object. An image source
    is a string; of any other value (the functions a plain object inherits
    from [Object.prototype], say) the layout code uses only whether it is
    truthy. *)
Inductive JsValue :=
| VString (s : string)
| VObject        (* an object or a function: truthy *)
| VUndefined.    (* [undefined] or [null]: falsy *)

(** [!!v]: a string is truthy unless empty. *)
Definition toBoolean (v : JsValue) : bool :=
  match v with
  | VString s => negb (String.eqb s EmptyString)
  | VObject => true
  | VUndefined => false
  end.

(** An object as a property read sees it: its own properties, then the
    properties of the objects on its prototype chain, nearest first. *)
Definition JsObject : Type := list (gmap string JsValue).

(** [o[key]]: the first object of the chain that has the property decides;
    [undefined] when none has it. *)
Fixpoint getProperty (o : JsObject) (key : string) : JsValue :=
  match o with
  | [] => VUndefined
  | props :: chain =>
      match props !! key with
      | Some v => v
      | None => getProperty chain key
      end
  end.

(** The properties of [Object.prototype], which every object literal
    inherits: all of them functions, but [__proto__], an accessor that
    yields the prototype object. *)
Definition objectPrototype : gmap string JsValue :=
  list_to_map
    (map (fun name => (name, VObject))
         ["constructor"; "hasOwnProperty"; "isPrototypeOf";
          "propertyIsEnumerable"; "toLocaleString"; "toString"; "valueOf";
          "__proto__"; "__defineGetter__"; "__defineSetter__";
          "__lookupGetter__"; "__lookupSetter__"]%string).

(** The object literal [{ ... }] with the given own properties. *)
Definition objectLiteral (props : gmap string JsValue) : JsObject :=
  [props; objectPrototype].

(** ** Bidi runs ([getRuns]) *)

Record Run := mkRun { start : nat; end_ : nat; level : nat }.

(** Result of [bidi.getEmbeddingLevels]: an object with a [levels] array;
    the code also guards against a missing object and a missing array. *)
Record EmbeddingResult := mkEmbedding { levels : option (list nat) }.

Definition singleRun (text : string) : list Run :=
  [mkRun 0 (String.length text) 0].

(** Loop variables of the scan: [runs], [currentLevel], [startIndex]. *)
Definition ScanState : Type := list Run * nat * nat.

(** Body of [for (let i = 1; i < text.length; i++)]. *)
Definition scanStep (levelsArray : list nat) (st : ScanState) (i : nat)
  : ScanState :=
  let '(runs, currentLevel, startIndex) := st in
  let lvl := levelsArray !!! i in
  if decide (lvl <> currentLevel)
  then (runs ++ [mkRun startIndex i currentLevel], lvl, i)
  else (runs, currentLevel, startIndex).

Definition getRuns (text : string) (embeddingResult : option EmbeddingResult)
  : list Run :=
  match embeddingResult with
  | None => singleRun text
  | Some r =>
      match levels r with
      | None => singleRun text
      | Some levelsArray =>
          if decide (length levelsArray = 0) then singleRun text
          else if decide (String.length text <> length levelsArray)
          then singleRun text
          else
            let '(runs, currentLevel, startIndex) :=
              fold_left (scanStep levelsArray)
                        (seq 1 (String.length text - 1))
                        ([], levelsArray !!! 0, 0) in
            runs ++ [mkRun startIndex (String.length text) currentLevel]
      end
  end.

(** ** Collaborators and configuration *)

(** The font-metrics engine ([FontEngine], font.js): advance width of a
    grapheme at a font size and letter spacing, ascent and height of a text. *)
Record FontEngine `{Number} := mkFontEngine {
  measure : string -> num -> num -> num;
  baseline : string -> num;
  height : string -> num
}.
Arguments mkFontEngine {_} _ _ _.

(** Collaborators imported from other modules: [segment(text, 'grapheme')]
    (utils.js), the bidi-js analysis and [font.getEngine] at a font size. *)
Record Env `{Number} := mkEnv {
  segment : string -> list string;
  getEmbeddingLevels : string -> option EmbeddingResult;
  getReorderedIndices : string -> option EmbeddingResult -> list nat;
  getEngine : num -> FontEngine
}.
Arguments mkEnv {_} _ _ _ _.

Inductive TextAlign :=
  AlignLeft | AlignRight | AlignCenter | AlignJustify | AlignStart | AlignEnd.

Inductive TextFit := FitNormal | FitMultiline.

(** Values read from [parentStyle], [context] and [preprocess]. *)
Record Config `{Number} := mkConfig {
  words : list string;
  requiredBreaks : list bool;
  allowSoftWrap : bool;
  lineLimit : Z;
  fontSize : num;
  letterSpacing : num;
  graphemeImages : option JsObject;
  textAlign : TextAlign;
  textFit : TextFit;
  maxFontSize : option Z
}.
Arguments mkConfig {_} _ _ _ _ _ _ _ _ _ _.

(** ** State and exceptions *)

Inductive JsError := TypeError.

Inductive Result (A : Type) :=
| Ok (a : A)
| Throw (e : JsError).
Arguments Ok {A} a.
Arguments Throw {A} e.

Record PlacedSegment `{Number} := mkPlaced {
  ps_text : string;
  ps_x : num;
  ps_y : num;
  ps_width : num;
  ps_line : nat;
  ps_lineIndex : nat;
  ps_isImage : bool
}.
Arguments mkPlaced {_} _ _ _ _ _ _ _.

(** The measurer's [cache] and the accumulators shared by [flow],
    [shapeLineWithBidiRuns] and the render loop. *)
Record FlowState `{Number} := mkFlowState {
  cache : gmap string num;
  lineWidths : list num;
  baselines : list num;
  lineSegmentNumber : list nat;
  placedSegments : list PlacedSegment
}.
Arguments mkFlowState {_} _ _ _ _ _.

Definition M `{Number} (A : Type) : Type := FlowState -> Result A * FlowState.

Definition ret `{Number} {A} (a : A) : M A := fun st => (Ok a, st).

Definition throw `{Number} {A} (e : JsError) : M A := fun st => (Throw e, st).

Definition bind `{Number} {A B} (m : M A) (k : A -> M B) : M B :=
  fun st =>
    match m st with
    | (Ok a, st') => k a st'
    | (Throw e, st') => (Throw e, st')
    end.

Notation "'let*' x ':=' m 'in' k" := (bind m (fun x => k))
  (at level 10, x pattern, m at level 100, k at level 200).

Definition setCache `{Number} (c : gmap string num) (st : FlowState) : FlowState :=
  mkFlowState c (lineWidths st) (baselines st) (lineSegmentNumber st)
              (placedSegments st).

(** ** The measurer ([genMeasurer]) *)

Section Measurer.
Context `{Number}.
Variable env : Env.
Variable engine : FontEngine.
Variable isImage : string -> bool.

Definition cacheKey (grapheme : string) (fontSize letterSpacing : num) : string :=
  grapheme +:+ "-"%string +:+ show fontSize +:+ "-"%string +:+ show letterSpacing.

Definition measureGrapheme (grapheme : string) (fontSize letterSpacing : num)
  : M num :=
  fun st =>
    let cacheKey := cacheKey grapheme fontSize letterSpacing in
    match cache st !! cacheKey with
    | Some width => (Ok width, st)
    | None =>
        let width := measure engine grapheme fontSize letterSpacing in
        (Ok width, setCache (<[cacheKey := width]> (cache st)) st)
    end.

(** [for (const grapheme of graphemes)] with the running [width]. *)
Fixpoint measureGraphemeLoop (graphemes : list string)
         (fontSize letterSpacing : num) (width : num) : M num :=
  match graphemes with
  | [] => ret width
  | grapheme :: rest =>
      if isImage grapheme
      then measureGraphemeLoop rest fontSize letterSpacing (nadd width fontSize)
      else
        let* w := measureGrapheme grapheme fontSize letterSpacing in
        measureGraphemeLoop rest fontSize letterSpacing (nadd width w)
  end.

Definition measureGraphemeArray (graphemes : list string)
           (fontSize letterSpacing : num) : M num :=
  measureGraphemeLoop graphemes fontSize letterSpacing nzero.

Definition measureText (text : string) (fontSize letterSpacing : num) : M num :=
  measureGraphemeArray (segment env text) fontSize letterSpacing.

End Measurer.

(** ** Layout of one text node ([buildTextNodes]) *)

Record ShapedRunSegment `{Number} := mkShapedRun {
  srs_text : string;
  srs_width : num;
  srs_isRTL : bool;
  srs_isImage : bool
}.
Arguments mkShapedRun {_} _ _ _ _.

Record ShapedSegment `{Number} := mkShaped {
  seg_text : string;
  seg_x : num;
  seg_width : num;
  seg_isImage : bool;
  seg_isRTL : bool
}.
Arguments mkShaped {_} _ _ _ _ _.

(** Result of [shapeLineWithBidiRuns]. *)
Record LineResult `{Number} := mkLineResult {
  lr_width : num;
  lr_lineHeight : num;
  lr_baseline : num
}.
Arguments mkLineResult {_} _ _ _.

(** Result of [flow]. *)
Record FlowResult `{Number} := mkFlowResult {
  fr_width : num;
  fr_height : num
}.
Arguments mkFlowResult {_} _ _.

(** Local variables of [flow] that live across loop iterations. *)
Record LoopState `{Number} := mkLoop {
  lines : nat;
  maxWidth : num;
  totalHeight : num;
  currentLineWords : list string;
  currentLineWidth : num;
  currentLineAscent : num;
  currentLineBaseline : num
}.
Arguments mkLoop {_} _ _ _ _ _ _ _.

(** Variables of [buildTextNodes] outside [flow] that the measure callback
    assigns: [finalFontSize], [engine], [measuredTextSize]. *)
Record NodeState `{Number} := mkNode {
  flowState : FlowState;
  finalFontSize : num;
  engineVar : FontEngine;
  measuredTextSize : num * num
}.
Arguments mkNode {_} _ _ _ _.

Section Layout.
Context `{Number}.
Variable env : Env.
Variable cfg : Config.

(** [(s) => !!(graphemeImages && graphemeImages[s])]: [graphemeImages] is
    [undefined] or an object, and [graphemeImages[s]] is a property read,
    which also finds what the object inherits. *)
Definition isImage (s : string) : bool :=
  match graphemeImages cfg with
  | Some images => toBoolean (getProperty images s)
  | None => false
  end.

(** The measurer is created once, over the engine of the style's font
    size. *)
Definition measureTextN : string -> num -> num -> M num :=
  measureText env (getEngine env (fontSize cfg)) isImage.

(** *** Helpers of the run shaper *)

(** [collectSubstring]: [reorderedIndices[i]] out of range is [undefined]
    and fails both comparisons. *)
Definition collectSubstring (runText : string) (reorderedIndices : list nat)
           (start end_ offsetInLine : nat) : string :=
  fold_left
    (fun result i =>
       match reorderedIndices !! i with
       | Some idx =>
           if (offsetInLine <=? idx) && (idx <? offsetInLine + String.length runText)
           then result +:+ Js.charAt (idx - offsetInLine) runText
           else result
       | None => result
       end)
    (seq start (end_ - start)) EmptyString.

(** [segStartForSegment]: reading [.text] of a missing element throws. *)
Fixpoint segStartLoop (shapedRunSegments : list ShapedRunSegment)
         (indices : list nat) (start : nat) : Result nat :=
  match indices with
  | [] => Ok start
  | i :: rest =>
      match shapedRunSegments !! i with
      | Some seg => segStartLoop shapedRunSegments rest (start + String.length (srs_text seg))
      | None => Throw TypeError
      end
  end.

Definition segStartForSegment (shapedRunSegments : list ShapedRunSegment)
           (segIndex : nat) : Result nat :=
  segStartLoop shapedRunSegments (seq 0 segIndex) 0.

Definition liftResult {A} (r : Result A) : M A := fun st => (r, st).

(** Body of [runs.forEach] in [shapeLineWithBidiRuns]; the accumulator is
    [shapedRunSegments], [maxAscent], [maxDescent]. *)
Definition shapeRun (lineText : string) (useEngine : FontEngine)
           (acc : list ShapedRunSegment * num * num) (run : Run)
  : M (list ShapedRunSegment * num * num) :=
  let '(shapedRunSegments, maxAscent, maxDescent) := acc in
  let runSubstring := Js.slice (start run) (end_ run) lineText in
  let* (runWidth, isImg) :=
    (if isImage runSubstring then ret (fontSize cfg, true)
     else
       let* w := measureTextN runSubstring (fontSize cfg) (letterSpacing cfg) in
       ret (w, false)) in
  let shapedRunSegments' :=
    shapedRunSegments ++
      [mkShapedRun runSubstring runWidth (level run mod 2 =? 1) isImg] in
  let asc := baseline useEngine runSubstring in
  let h := height useEngine runSubstring in
  let maxAscent' := if ngt asc maxAscent then asc else maxAscent in
  let descent := nsub h asc in
  let maxDescent' := if ngt descent maxDescent then descent else maxDescent in
  ret (shapedRunSegments', maxAscent', maxDescent').

Fixpoint shapeRuns (lineText : string) (useEngine : FontEngine)
         (runs : list Run) (acc : list ShapedRunSegment * num * num)
  : M (list ShapedRunSegment * num * num) :=
  match runs with
  | [] => ret acc
  | run :: rest =>
      let* acc' := shapeRun lineText useEngine acc run in
      shapeRuns lineText useEngine rest acc'
  end.

(** [runMap]: the writes [runMap[i] = idx] start at index 0 and are
    consecutive, so each segment appends [text.length] copies of its
    index. *)
Fixpoint buildRunMap (shapedRunSegments : list ShapedRunSegment) (idx : nat)
         (runMap : list nat) : list nat :=
  match shapedRunSegments with
  | [] => runMap
  | seg :: rest =>
      buildRunMap rest (S idx) (runMap ++ replicate (String.length (srs_text seg)) idx)
  end.

(** The object pushed on [shapedSegmentsForLine] for the run
    [currentRunIndex] and the positions [runStart, i) of [reordered];
    [shapedRunSegments[currentRunIndex].text] is read first and throws when
    the element is missing. *)
Definition visualSegment (shapedRunSegments : list ShapedRunSegment)
           (reordered : list nat) (currentRunIndex : option nat)
           (runStart i : nat) : M ShapedSegment :=
  match currentRunIndex with
  | None => throw TypeError
  | Some k =>
      match shapedRunSegments !! k with
      | None => throw TypeError
      | Some seg =>
          let* offset := liftResult (segStartForSegment shapedRunSegments k) in
          let text := collectSubstring (srs_text seg) reordered runStart i offset in
          let* width := measureTextN text (fontSize cfg) (letterSpacing cfg) in
          ret (mkShaped text nzero width (srs_isImage seg) (srs_isRTL seg))
      end
  end.

(** [for (let i = 0; i < reordered.length; i++)]: [rest] is
    [reordered.slice(i)]; the loop variables are [currentRunIndex],
    [runStart] and [shapedSegmentsForLine]. *)
Fixpoint groupLoop (shapedRunSegments : list ShapedRunSegment)
         (runMap reordered rest : list nat) (i : nat)
         (currentRunIndex : option nat) (runStart : nat)
         (shapedSegmentsForLine : list ShapedSegment)
  : M (option nat * nat * list ShapedSegment) :=
  match rest with
  | [] => ret (currentRunIndex, runStart, shapedSegmentsForLine)
  | rIndex :: rest' =>
      let segIndex := runMap !! rIndex in
      if decide (segIndex <> currentRunIndex)
      then
        let* seg := visualSegment shapedRunSegments reordered currentRunIndex runStart i in
        groupLoop shapedRunSegments runMap reordered rest' (S i) segIndex i
                  (shapedSegmentsForLine ++ [seg])
      else
        groupLoop shapedRunSegments runMap reordered rest' (S i)
                  currentRunIndex runStart shapedSegmentsForLine
  end.

(** [seg.x = cursorX; cursorX += seg.width] over the line's segments. *)
Fixpoint placeSegments (segs : list ShapedSegment) (cursorX : num)
  : list ShapedSegment * num :=
  match segs with
  | [] => ([], cursorX)
  | seg :: rest =>
      let seg' := mkShaped (seg_text seg) cursorX (seg_width seg)
                           (seg_isImage seg) (seg_isRTL seg) in
      let '(rest', cursorX') := placeSegments rest (nadd cursorX (seg_width seg)) in
      (seg' :: rest', cursorX')
  end.

(** The records pushed on [placedSegments], [lineIndex] counting from the
    given value. *)
Fixpoint toPlaced (segs : list ShapedSegment) (currentLine : nat)
         (currentHeight : num) (lineIndex : nat) : list PlacedSegment :=
  match segs with
  | [] => []
  | seg :: rest =>
      mkPlaced (seg_text seg) (seg_x seg) currentHeight (seg_width seg)
               currentLine lineIndex (seg_isImage seg)
      :: toPlaced rest currentLine currentHeight (S lineIndex)
  end.

Definition pushPlaced (new : list PlacedSegment) : M unit :=
  fun st =>
    (Ok tt, mkFlowState (cache st) (lineWidths st) (baselines st)
                        (lineSegmentNumber st) (placedSegments st ++ new)).

Definition shapeLineWithBidiRuns (lineWords : list string) (xOffset : num)
           (currentLine : nat) (currentHeight containerWidth : num)
           (useEngine : FontEngine) : M LineResult :=
  let lineText := Js.join lineWords in
  let embeddingLevels := getEmbeddingLevels env lineText in
  let runs := getRuns lineText embeddingLevels in
  let cursorX := xOffset in
  let* (shapedRunSegments, maxAscent, maxDescent) :=
    shapeRuns lineText useEngine runs ([], nzero, nzero) in
  let reordered := getReorderedIndices env lineText embeddingLevels in
  let runMap := buildRunMap shapedRunSegments 0 [] in
  let currentRunIndex := reordered !! 0 ≫= (fun r => runMap !! r) in
  let* (currentRunIndex, runStart, shapedSegmentsForLine) :=
    groupLoop shapedRunSegments runMap reordered reordered 0 currentRunIndex 0 [] in
  let* last :=
    visualSegment shapedRunSegments reordered currentRunIndex runStart
                  (length reordered) in
  let '(shapedSegmentsForLine, cursorX) :=
    placeSegments (shapedSegmentsForLine ++ [last]) cursorX in
  let lineHeight := nadd maxAscent maxDescent in
  let* _ := pushPlaced (toPlaced shapedSegmentsForLine currentLine currentHeight 0) in
  ret (mkLineResult (nsub cursorX xOffset) lineHeight maxAscent).

(** *** Line flow *)

Definition resetFlow : M unit :=
  fun st => (Ok tt, mkFlowState (cache st) [] [] [] []).

(** The three pushes that record a completed line. *)
Definition pushLine (width baseline : num) (segmentNumber : nat) : M unit :=
  fun st =>
    (Ok tt, mkFlowState (cache st) (lineWidths st ++ [width])
                        (baselines st ++ [baseline])
                        (lineSegmentNumber st ++ [segmentNumber])
                        (placedSegments st)).

(** [measureWord] inside [flow]; [fontSize] and [letterSpacing] are the
    parameters of [flow]. *)
Definition measureWord (fontSize letterSpacing : num) (word : string) : M num :=
  if isImage word then ret fontSize
  else measureTextN word fontSize letterSpacing.

Definition punctuation : string := ",.!?:-@)>]}%#"%string.

Definition allowedToPutAtBeginning (word : string) : bool :=
  Js.firstCharNotIn punctuation word.

(** [i && allowedToPutAtBeginning && currentLineWidth + w > containerWidth
    && allowSoftWrap], as a truth value. *)
Definition willWrap (i : nat) (word : string) (w currentLineWidth containerWidth : num)
  : bool :=
  negb (i =? 0)%nat && allowedToPutAtBeginning word
  && ngt (nadd currentLineWidth w) containerWidth && allowSoftWrap cfg.

(** [requiredBreaks[i]], falsy when absent. *)
Definition forcedBreakAt (i : nat) : bool := default false (requiredBreaks cfg !! i).

(** Shape the accumulated line and record it; returns the new [lines],
    [maxWidth] and [totalHeight]. *)
Definition finalizeLine (containerWidth : num) (useEngine : FontEngine)
           (ls : LoopState) : M (nat * num * num) :=
  let* lineResult :=
    shapeLineWithBidiRuns (currentLineWords ls) nzero (lines ls) (totalHeight ls)
                          containerWidth useEngine in
  let* _ := pushLine (lr_width lineResult) (lr_baseline lineResult)
                     (length (currentLineWords ls)) in
  ret (S (lines ls),
       nmax (maxWidth ls) (lr_width lineResult),
       nadd (totalHeight ls) (lr_lineHeight lineResult)).

(** One iteration of the [while] loop of [flow], for [word = words[i]]. *)
Definition flowStep (containerWidth fontSize letterSpacing : num)
           (useEngine : FontEngine) (i : nat) (word : string) (ls : LoopState)
  : M LoopState :=
  let forcedBreak := forcedBreakAt i in
  let* w := measureWord fontSize letterSpacing word in
  if forcedBreak || willWrap i word w (currentLineWidth ls) containerWidth
  then
    let* (lines', maxWidth', totalHeight') := finalizeLine containerWidth useEngine ls in
    let currentLineWords' := if forcedBreak then [] else [word] in
    let currentLineWidth' := if forcedBreak then nzero else w in
    let currentLineAscent' :=
      if negb forcedBreak && ngt w nzero
      then
        let asc := baseline useEngine word in
        if ngt asc (currentLineAscent ls) then asc else currentLineAscent ls
      else currentLineAscent ls in
    let currentLineBaseline' :=
      if negb forcedBreak && ngt w nzero
      then currentLineAscent' else currentLineBaseline ls in
    ret (mkLoop lines' maxWidth' totalHeight' currentLineWords' currentLineWidth'
                currentLineAscent' currentLineBaseline')
  else
    ret (mkLoop (lines ls) (maxWidth ls) (totalHeight ls)
                (currentLineWords ls ++ [word])
                (nadd (currentLineWidth ls) w)
                (currentLineAscent ls) (currentLineBaseline ls)).

(** [while (i < words.length && lines < lineLimit)]: [rest] is
    [words.slice(i)]. *)
Fixpoint flowLoop (containerWidth fontSize letterSpacing : num)
         (useEngine : FontEngine) (rest : list string) (i : nat) (ls : LoopState)
  : M LoopState :=
  match rest with
  | [] => ret ls
  | word :: rest' =>
      if (Z.of_nat (lines ls) <? lineLimit cfg)%Z
      then
        let* ls' := flowStep containerWidth fontSize letterSpacing useEngine i word ls in
        flowLoop containerWidth fontSize letterSpacing useEngine rest' (S i) ls'
      else ret ls
  end.

Definition initialLoop : LoopState := mkLoop 0 nzero nzero [] nzero nzero nzero.

Definition flow (containerWidth fontSize letterSpacing : num)
           (useEngine : FontEngine) : M FlowResult :=
  let* _ := resetFlow in
  let* ls :=
    flowLoop containerWidth fontSize letterSpacing useEngine (words cfg) 0 initialLoop in
  if negb (length (currentLineWords ls) =? 0)%nat
     && (Z.of_nat (lines ls) <? lineLimit cfg)%Z
  then
    let* (_, maxWidth', totalHeight') := finalizeLine containerWidth useEngine ls in
    ret (mkFlowResult maxWidth' totalHeight')
  else ret (mkFlowResult (maxWidth ls) (totalHeight ls)).

(** *** The measure callback *)

(** [maxFontSize || 120]. *)
Definition initialMaxFontSize : Z :=
  match maxFontSize cfg with
  | Some n => if (n =? 0)%Z then 120%Z else n
  | None => 120%Z
  end.

(** [flow] at an integer candidate size, with the engine of that size. *)
Definition flowAt (containerWidth : num) (size : Z) : M FlowResult :=
  flow containerWidth (ofZ size) (letterSpacing cfg) (getEngine env (ofZ size)).

(** [while (testMinFontSize <= testMaxFontSize)] of the fit search. *)
Equations? fitSearch (containerWidth availableHeight : num)
           (testMinFontSize testMaxFontSize bestFitFontSize : Z) (st : FlowState)
  : Result Z * FlowState
  by wf (Z.to_nat (testMaxFontSize - testMinFontSize + 1)) lt :=
  fitSearch cw ch lo hi best st with Z_le_dec lo hi := {
    | right _ => (Ok best, st)
    | left _ with flowAt cw ((lo + hi) / 2) st := {
        | (Throw e, st') => (Throw e, st')
        | (Ok r, st') with nle (fr_height r) ch := {
            | true => fitSearch cw ch ((lo + hi) / 2 + 1) hi ((lo + hi) / 2) st'
            | false => fitSearch cw ch lo ((lo + hi) / 2 - 1) best st'
          }
      }
  }.
Proof.
  - assert (lo <= (lo + hi) / 2 <= hi)%Z
      by (split; [apply Z.div_le_lower_bound | apply Z.div_le_upper_bound]; lia).
    lia.
  - assert (lo <= (lo + hi) / 2 <= hi)%Z
      by (split; [apply Z.div_le_lower_bound | apply Z.div_le_upper_bound]; lia).
    lia.
Qed.

Definition setFlowState (fs : FlowState) (ns : NodeState) : NodeState :=
  mkNode fs (finalFontSize ns) (engineVar ns) (measuredTextSize ns).

(** The function given to [textContainer.setMeasureFunc], called with the
    available width [cw] and height [ch]. *)
Definition measureFunc (cw ch : num) (ns : NodeState)
  : Result (num * num) * NodeState :=
  match textFit cfg with
  | FitMultiline =>
      match fitSearch cw ch 10 initialMaxFontSize 10 (flowState ns) with
      | (Throw e, fs) => (Throw e, setFlowState fs ns)
      | (Ok bestFitFontSize, fs) =>
          let finalFontSize' := ofZ bestFitFontSize in
          let finalEngine := getEngine env finalFontSize' in
          match flow cw finalFontSize' (letterSpacing cfg) finalEngine fs with
          | (Throw e, fs') =>
              (Throw e, mkNode fs' finalFontSize' (engineVar ns) (measuredTextSize ns))
          | (Ok r, fs') =>
              let size := (nceil (fr_width r), fr_height r) in
              (Ok size, mkNode fs' finalFontSize' finalEngine size)
          end
      end
  | FitNormal =>
      let useEngine := getEngine env (finalFontSize ns) in
      match flow cw (finalFontSize ns) (letterSpacing cfg) useEngine (flowState ns) with
      | (Throw e, fs') => (Throw e, setFlowState fs' ns)
      | (Ok r, fs') =>
          let size := (nceil (fr_width r), fr_height r) in
          (Ok size, mkNode fs' (finalFontSize ns) useEngine size)
      end
  end.

(** *** Render phase: horizontal alignment of a placed segment *)

(** [leftOffset] after the [textAlign] adjustment of the render loop;
    [lineWidths[line]] is falsy when absent, 0 or NaN. *)
Definition alignedLeftOffset (lineWidths : list num) (containerWidth : num)
           (layout : PlacedSegment) : num :=
  let leftOffset := ps_x layout in
  match lineWidths !! ps_line layout with
  | Some lineWidth =>
      if truthy lineWidth
         && (match textAlign cfg with AlignRight | AlignEnd => true | _ => false end)
      then nadd leftOffset (nsub containerWidth lineWidth)
      else if truthy lineWidth
              && (match textAlign cfg with AlignCenter => true | _ => false end)
      then nadd leftOffset (nhalf (nsub containerWidth lineWidth))
      else leftOffset
  | None => leftOffset
  end.

End Layout.

(** ** A concrete instance: integer metrics, left-to-right text *)

Module Sample.

(** Integers as numbers; [nhalf] is exact on the even values used below. *)
#[export] Instance ZNumber : Number := {|
  num := Z;
  nzero := 0%Z;
  nadd := Z.add;
  nsub := Z.sub;
  nhalf := fun a => (a / 2)%Z;
  nlt := Z.ltb;
  nle := Z.leb;
  nmax := Z.max;
  nceil := fun a => a;
  truthy := fun a => negb (a =? 0)%Z;
  ofZ := fun z => z;
  show := fun a => pretty a
|}.

(** Every grapheme advances by [fontSize + letterSpacing]; the engine of
    font size [f] has ascent [f] and height [2 f]. *)
Definition engineOf (f : Z) : FontEngine :=
  mkFontEngine (fun _ fontSize letterSpacing => (fontSize + letterSpacing)%Z)
               (fun _ => f) (fun _ => (2 * f)%Z).

(** One grapheme per code unit. *)
Fixpoint graphemes (s : string) : list string :=
  match s with
  | EmptyString => []
  | String c rest => String c EmptyString :: graphemes rest
  end.

(** Left-to-right text only: every level is 0 and the visual order is the
    logical order. *)
Definition ltrEnv : Env :=
  mkEnv graphemes
        (fun t => Some (mkEmbedding (Some (replicate (String.length t) 0))))
        (fun t _ => seq 0 (String.length t))
        engineOf.

(** [textAlign], [textFit] and [maxFontSize] vary between examples. *)
Definition config (ws : list string) (breaks : list bool) (limit : Z)
           (align : TextAlign) (fit : TextFit) (maxSize : option Z) : Config :=
  mkConfig ws breaks true limit 1%Z 0%Z None align fit maxSize.

(** Left-aligned text at the style's own font size. *)
Definition plain (ws : list string) (breaks : list bool) (limit : Z) : Config :=
  config ws breaks limit AlignLeft FitNormal None.

(** Two forced breaks in a row. *)
Definition twoBreaks : Config := plain ["a"; "b"; "c"]%string [false; true; true] 10.

(** A forced break followed by a word wider than the container. *)
Definition wideAfterBreak : Config :=
  plain ["a"; "b"; "cc"]%string [false; true; false] 10.

(** Three words that need two lines at width 3, limited to one line. *)
Definition oneLine : Config := plain ["ab"; "cd"; "e"]%string [] 1.

(** Fit search over the default range [10, 120]. *)
Definition fitted (ws : list string) : Config :=
  config ws [] 10 AlignLeft FitMultiline None.

(** Centred text. *)
Definition centred : Config := config ["a"]%string [] 10 AlignCenter FitNormal None.

(** Centred text whose letter spacing cancels the advance of every
    grapheme: lines of width 0. *)
Definition centredZeroWidth : Config :=
  mkConfig ["a"]%string [] true 10 1%Z (-1)%Z None AlignCenter FitNormal None.

(** A segment of width 4 placed at the start of line 0. *)
Definition placedA : PlacedSegment := mkPlaced "a" 0%Z 0%Z 4%Z 0 0 false.

Definition emptyState : FlowState := mkFlowState ∅ [] [] [] [].

Definition emptyNode : NodeState :=
  mkNode emptyState 1%Z (engineOf 1) (0%Z, 0%Z).

End Sample.

(** ** Decorations in the render loop *)

(** An entry of [decorationLines]: [[startX, startY, ascender, lineWidth]]
    and the mark [deco[4]] set once the decoration is drawn. *)
Record DecorationLine `{Number} := mkDecorationLine {
  deco_startX : num;
  deco_startY : num;
  deco_ascender : num;
  deco_lineWidth : num;
  deco_drawn : bool
}.
Arguments mkDecorationLine {_} _ _ _ _ _.

(** The geometry passed to [buildDecoration]. *)
Record Decoration `{Number} := mkDecoration {
  dec_left : num;
  dec_top : num;
  dec_width : num;
  dec_ascender : num
}.
Arguments mkDecoration {_} _ _ _ _.

Section Render.
Context `{Number}.
Variable cfg : Config.
(** The number [NaN], which [undefined - x] evaluates to. *)
Variable NaN : num.
(** [engine], [left], [top], the computed [containerWidth],
    [parentStyle.textDecorationLine] as a truth value, and the arrays left
    by [flow]. *)
Variable engine : FontEngine.
Variables left top containerWidth : num.
Variable textDecorationLine : bool.
Variables lineWidths baselines : list num.

(** The entry written to [decorationLines[line]] for the segment
    [layout]. *)
Definition decorationAnchor (layout : PlacedSegment) : DecorationLine :=
  let text := ps_text layout in
  let line := ps_line layout in
  let topOffset := ps_y layout in
  let width := ps_width layout in
  let leftOffset := alignedLeftOffset cfg lineWidths containerWidth layout in
  let baselineOfWord := baseline engine text in
  let baselineDelta :=
    match baselines !! line with
    | Some baselineOfLine => nsub baselineOfLine baselineOfWord
    | None => NaN
    end in
  mkDecorationLine
    leftOffset
    (nadd (nadd top topOffset) baselineDelta)
    baselineOfWord
    (match lineWidths !! line with
     | Some lineWidth => if truthy lineWidth then lineWidth else width
     | None => width
     end)
    false.

(** The call [buildDecoration({left: left + deco[0], top: deco[1],
    width: deco[3], ascender: deco[2], ...})]. *)
Definition decorationOf (deco : DecorationLine) : Decoration :=
  mkDecoration (nadd left (deco_startX deco)) (deco_startY deco)
               (deco_lineWidth deco) (deco_ascender deco).

(** What one iteration of the render loop does to [decorationLines] and to
    the sequence of [buildDecoration] calls. *)
Definition decorationStep
           (acc : gmap nat DecorationLine * list Decoration)
           (layout : PlacedSegment) : gmap nat DecorationLine * list Decoration :=
  let '(decorationLines, calls) := acc in
  let line := ps_line layout in
  let decorationLines :=
    match decorationLines !! line with
    | Some _ => decorationLines
    | None => <[line := decorationAnchor layout]> decorationLines
    end in
  if textDecorationLine
  then
    match decorationLines !! line with
    | Some deco =>
        if deco_drawn deco then (decorationLines, calls)
        else
          (<[line := mkDecorationLine (deco_startX deco) (deco_startY deco)
                       (deco_ascender deco) (deco_lineWidth deco) true]>
             decorationLines,
           calls ++ [decorationOf deco])
    | None => (decorationLines, calls)
    end
  else (decorationLines, calls).

(** [for (let i = 0; i < placedSegments.length; i++)], for the
    decorations. *)
Definition renderDecorations (placedSegments : list PlacedSegment)
  : gmap nat DecorationLine * list Decoration :=
  fold_left decorationStep placedSegments (∅, []).

End Render.

(** ** Tab detection ([detectTabs]) *)

(** Result of [detectTabs]: [index] is [null] when there is no tab. *)
Record TabRun := mkTabRun { index : option nat; tabCount : nat }.

Definition tabChar : Ascii.ascii := Ascii.ascii_of_nat 9.

(** The length of the run of tabs a string starts with. *)
Fixpoint leadingTabs (s : string) : nat :=
  match s with
  | EmptyString => 0
  | String c rest => if Ascii.eqb c tabChar then S (leadingTabs rest) else 0
  end.

(** [/(\t)+/.exec(text)]: the leftmost tab starts the match, which takes
    every tab that follows; [i] is the index of the first character of
    [s]. *)
Fixpoint execTabs (s : string) (i : nat) : option (nat * nat) :=
  match s with
  | EmptyString => None
  | String c rest =>
      if Ascii.eqb c tabChar then Some (i, S (leadingTabs rest))
      else execTabs rest (S i)
  end.

Definition detectTabs (text : string) : TabRun :=
  match execTabs text 0 with
  | None => mkTabRun None 0
  | Some (i, n) => mkTabRun (Some i) n
  end.

(** ** More concrete inputs *)

Module SampleRuns.
Import Sample.

(** Right-to-left text only: every level is 1 and the visual order is the
    logical order reversed. *)
Definition rtlEnv : Env :=
  mkEnv graphemes
        (fun t => Some (mkEmbedding (Some (replicate (String.length t) 1))))
        (fun t _ => rev (seq 0 (String.length t)))
        engineOf.

(** Three words without breaks, at most ten lines. *)
Definition threeWords : Config := plain ["ab"; "cd"; "e"]%string [] 10.

(** One word that is the name of a property every object literal inherits,
    with [graphemeImages = {}] and soft wrap off. *)
Definition inheritedName : Config :=
  mkConfig ["constructor"]%string [] false 10 1%Z 0%Z (Some (objectLiteral ∅))
           AlignLeft FitNormal None.

(** The line "ab" shaped as line 1 at y = 2, from x = 0. *)
Definition shapedLtr : Result LineResult * FlowState :=
  shapeLineWithBidiRuns ltrEnv threeWords ["ab"]%string 0%Z 1 2%Z 3%Z (engineOf 1)
                        emptyState.

(** The line "constructor" of [inheritedName], shaped the same way. *)
Definition shapedName : Result LineResult * FlowState :=
  shapeLineWithBidiRuns ltrEnv inheritedName ["constructor"]%string 0%Z 1 2%Z 3%Z
                        (engineOf 1) emptyState.

Definition shapedRtl : Result LineResult * FlowState :=
  shapeLineWithBidiRuns rtlEnv threeWords ["ab"]%string 0%Z 1 2%Z 3%Z (engineOf 1)
                        emptyState.

(** The loop of [flow] over the three words in a container of width 3:
    its state before the word "cd" and after it. *)
Definition beforeCd : LoopState := mkLoop 0 0%Z 0%Z ["ab"]%string 2%Z 0%Z 0%Z.

Definition afterCd : LoopState := mkLoop 1 2%Z 2%Z ["cd"]%string 2%Z 1%Z 1%Z.

Definition reachedCd : Result LoopState * FlowState :=
  flowLoop ltrEnv threeWords 3%Z 1%Z 0%Z (engineOf 1) ["ab"]%string 0 initialLoop
           emptyState.

Definition steppedCd : Result LoopState * FlowState :=
  flowStep ltrEnv threeWords 3%Z 1%Z 0%Z (engineOf 1) 1 "cd" beforeCd
           (snd reachedCd).

(** The three words flowed in a container of width 3. *)
Definition flowed : Result FlowResult * FlowState :=
  flow ltrEnv threeWords 3%Z 1%Z 0%Z (engineOf 1) emptyState.

(** The measure callback with the fit search, for an available width of
    100 and an available height [ch]. *)
Definition measured (ch : Z) : Result (num * num) * NodeState :=
  measureFunc ltrEnv (fitted ["ab"; "cd"; "e"]%string) 100%Z ch emptyNode.

End SampleRuns.

(** * Specifications *)

(** ** Predicates used in the statements *)

(** The level array of an embedding result, when it has one. *)
Definition levelArray (e : option EmbeddingResult) : option (list nat) :=
  e ≫= levels.

(** [runs] cuts [[0, n)] into consecutive non-empty spans, each of one level
    of [lvls], adjacent spans having different levels. *)
Record RunPartition (n : nat) (lvls : list nat) (runs : list Run) : Prop := {
  rp_first : exists r, head runs = Some r /\ start r = 0;
  rp_next : forall i r r',
      runs !! i = Some r -> runs !! S i = Some r' ->
      start r' = end_ r /\ level r <> level r';
  rp_last : exists r, last runs = Some r /\ end_ r = n;
  rp_run : forall r, r ∈ runs ->
      start r < end_ r /\
      forall j, start r <= j < end_ r -> lvls !! j = Some (level r)
}.

(** Invariant of the scan after index [k] has been processed. *)
Definition ScanInv (lvls : list nat) (k : nat) (st : ScanState) : Prop :=
  let '(runs, currentLevel, startIndex) := st in
  (forall r, r ∈ runs ->
     start r < end_ r /\ forall j, start r <= j < end_ r -> lvls !! j = Some (level r))
  /\ (forall i r r', runs !! i = Some r -> runs !! S i = Some r' ->
        start r' = end_ r /\ level r <> level r')
  /\ (forall r, head runs = Some r -> start r = 0)
  /\ match last runs with
     | Some r => end_ r = startIndex /\ level r <> currentLevel
     | None => startIndex = 0
     end
  /\ startIndex <= k
  /\ (forall j, startIndex <= j <= k -> lvls !! j = Some currentLevel).

(** Every cached width under a key of font size [f] and letter spacing [s]
    is the engine's width for that grapheme. *)
Definition CacheCoherentAt `{Number} (engine : FontEngine) (f s : num)
           (c : gmap string num) : Prop :=
  forall g w, c !! cacheKey g f s = Some w -> w = measure engine g f s.

(** The widths of the graphemes added up in order, an image grapheme
    counting for the font size. *)
Definition sumWidths `{Number} (engine : FontEngine) (isImage : string -> bool)
           (graphemes : list string) (f s : num) (from : num) : num :=
  fold_left
    (fun acc g => nadd acc (if isImage g then f else measure engine g f s))
    graphemes from.

(** [m] touches no part of the state but the measurement cache. *)
Definition Frames `{Number} {A} (m : M A) : Prop :=
  forall st, exists r c', m st = (r, setCache c' st).

(** [m] only adds to the cache, and started again on any larger cache than
    the one it ended with, it gives the same result and leaves that cache
    as it is. *)
Definition Stable `{Number} {A} (m : M A) : Prop :=
  forall st r st', m st = (r, st') ->
    cache st ⊆ cache st' /\
    forall cF, cache st' ⊆ cF -> m (setCache cF st) = (r, setCache cF st').

(** Both: a computation that only measures. *)
Definition Measuring `{Number} {A} (m : M A) : Prop := Frames m /\ Stable m.

(** The text does not start with one of the characters [,.!?:-@)>]}%#]
    (the empty text has no first character). *)
Definition notPunctuationFirst (word : string) : bool :=
  match word with
  | EmptyString => true
  | String c _ =>
      negb (existsb (Ascii.eqb c) (String.list_ascii_of_string ",.!?:-@)>]}%#"))
  end.

(** The break rule: a forced break, or a soft wrap of a word that is not
    first ([notFirst]), may start a line, and does not fit. *)
Definition breakRule `{Number} (cfg : Config) (notFirst : bool) (i : nat)
           (word : string) (w currentLineWidth containerWidth : num) : bool :=
  forcedBreakAt cfg i
  || (notFirst && notPunctuationFirst word
      && ngt (nadd currentLineWidth w) containerWidth && allowSoftWrap cfg).

(** The rule as the specification words it: "not the first word of the
    current line". *)
Definition claimedBreak `{Number} (cfg : Config) (i : nat) (word : string)
           (ls : LoopState) (containerWidth : num) (w : num) : bool :=
  breakRule cfg (negb (length (currentLineWords ls) =? 0)%nat) i word w
            (currentLineWidth ls) containerWidth.

(** [n] lines are recorded in the three per-line arrays, every placed
    segment belongs to one of them, and [n] is within the limit. *)
Definition LinesInv `{Number} (limit : Z) (n : nat) (st : FlowState) : Prop :=
  length (lineWidths st) = n /\
  length (baselines st) = n /\
  length (lineSegmentNumber st) = n /\
  Forall (fun p => ps_line p < n) (placedSegments st) /\
  (Z.of_nat n <= limit)%Z.

(** The height [flow] measures at the integer size [z], started on the state
    [st], fits the available height [ch]. *)
Definition fitsAt `{Number} (env : Env) (cfg : Config) (cw ch : num)
           (st : FlowState) (z : Z) : bool :=
  match fst (flowAt env cfg cw z st) with
  | Ok r => nle (fr_height r) ch
  | Throw _ => false
  end.

(** What the fit search has chosen, seen from the state [st] it ended in:
    either an accepted size of the range, which fits while the next size, if
    the range has one, does not; or, nothing having been accepted, the
    minimum size 10 (the range is empty or 10 itself does not fit). *)
Definition FitChoice `{Number} (env : Env) (cfg : Config) (cw ch : num)
           (st : FlowState) (maxSize best : Z) : Prop :=
  ((10 <= best <= maxSize)%Z /\ fitsAt env cfg cw ch st best = true /\
   (best = maxSize \/ fitsAt env cfg cw ch st (best + 1) = false))
  \/ (best = 10%Z /\ ((maxSize < 10)%Z \/ fitsAt env cfg cw ch st 10 = false)).

(** The x-offset the specification gives a segment on a line of width [w]
    in a container of width [W]. *)
Definition claimedLeftOffset `{Number} (cfg : Config) (w W : num)
           (layout : PlacedSegment) : num :=
  match textAlign cfg with
  | AlignCenter => nadd (ps_x layout) (nhalf (nsub W w))
  | AlignRight | AlignEnd => nadd (ps_x layout) (nsub W w)
  | AlignLeft | AlignStart | AlignJustify => ps_x layout
  end.


(** ** Predicates used in the further properties *)

(** The characters one position of the window contributes. *)
Definition pickChars (runText : string) (reorderedIndices : list nat)
           (offsetInLine i : nat) : list Ascii.ascii :=
  match reorderedIndices !! i with
  | Some idx =>
      if (offsetInLine <=? idx) && (idx <? offsetInLine + String.length runText)
      then match String.get (idx - offsetInLine) runText with
           | Some c => [c]
           | None => []
           end
      else []
  | None => []
  end.

(** The bidi analysis is well formed on the text [t]: its reordered indices
    are not empty and all below the length of [t]. *)
Definition ReorderedInRange `{Number} (env : Env) (t : string) : Prop :=
  getReorderedIndices env t (getEmbeddingLevels env t) <> []
  /\ Forall (fun i => i < String.length t)
            (getReorderedIndices env t (getEmbeddingLevels env t)).

(** The characters of a string in reverse order. *)
Definition reverseString (t : string) : string :=
  String.string_of_list_ascii (rev (String.list_ascii_of_string t)).

(** The bidi analysis is well formed on every non-empty text. *)
Definition WellFormedBidi `{Number} (env : Env) : Prop :=
  forall t, t <> EmptyString -> ReorderedInRange env t.

(** The number of words among the first [n] that carry no forced-break
    flag. *)
Definition unforcedBefore `{Number} (cfg : Config) (n : nat) : nat :=
  length (List.filter (fun i => negb (forcedBreakAt cfg i)) (seq 0 n)).

(** Bookkeeping of the loop of [flow] before the word of index [i]: the
    words counted on the recorded lines and on the current line are the
    unflagged words seen so far, [lines] is the number of recorded lines,
    and [maxWidth] is the largest recorded line width. *)
Definition FlowAcc `{Number} (cfg : Config) (i : nat) (ls : LoopState)
           (st : FlowState) : Prop :=
  sum_list (lineSegmentNumber st) + length (currentLineWords ls) = unforcedBefore cfg i
  /\ lines ls = length (lineWidths st)
  /\ maxWidth ls = fold_left nmax (lineWidths st) nzero.

(** The segments that are the first of their line, the lines in [seen]
    left out. *)
Fixpoint firstOfLines `{Number} (seen : gset nat) (placed : list PlacedSegment)
  : list PlacedSegment :=
  match placed with
  | [] => []
  | p :: rest =>
      if decide (ps_line p ∈ seen) then firstOfLines seen rest
      else p :: firstOfLines ({[ps_line p]} ∪ seen) rest
  end.


(** The character [-]. *)
Definition minusSign : Ascii.ascii := Ascii.ascii_of_nat 45.

(** The text holds no minus sign. *)
Fixpoint noMinus (t : string) : bool :=
  match t with
  | EmptyString => true
  | String c rest => negb (Ascii.eqb c minusSign) && noMinus rest
  end.

(** The number prints without a minus sign, as the non-negative numbers
    written in decimal notation do. *)
Definition printsPlain `{Number} (x : num) : Prop := noMinus (show x) = true.

(** The engine gives one width at numbers that print the same. *)
Definition ReadsPrinted `{Number} (engine : FontEngine) : Prop :=
  forall g f f' s s',
    show f = show f' -> show s = show s' ->
    measure engine g f s = measure engine g f' s'.

(** The state of the measurer after the calls
    [measureGraphemeArray(graphemes, fontSize, letterSpacing)] of [calls],
    made in order. *)
Fixpoint afterCalls `{Number} (engine : FontEngine) (isImage : string -> bool)
         (calls : list (list string * num * num)) (st : FlowState) : FlowState :=
  match calls with
  | [] => st
  | (graphemes, fontSize, letterSpacing) :: rest =>
      afterCalls engine isImage rest
        (snd (measureGraphemeArray engine isImage graphemes fontSize letterSpacing st))
  end.

(** Every cached width is the engine's width of a grapheme at a font size
    and a letter spacing that print plain, stored under the key of the
    three. *)
Definition CachePlain `{Number} (engine : FontEngine) (c : gmap string num) : Prop :=
  forall key w, c !! key = Some w ->
    exists g f s, key = cacheKey g f s /\ printsPlain f /\ printsPlain s
                  /\ w = measure engine g f s.

(** [width] is what the loop of [flow] has accumulated for a line whose
    words have the measured widths [ws]: the widths added up in order, from
    0 for a line that started empty, from the width of its first word for a
    line that a soft wrap started. *)
Definition AccumulatedWidth `{Number} (ws : list num) (width : num) : Prop :=
  width = fold_left nadd ws nzero
  \/ exists w1 rest, ws = w1 :: rest /\ width = fold_left nadd rest w1.

(** In every state whose cache extends [c], the word [v] measures [w]. *)
Definition KnownWidth `{Number} (env : Env) (cfg : Config) (f s : num)
           (c : gmap string num) (v : string) (w : num) : Prop :=
  forall st, c ⊆ cache st -> fst (measureWord env cfg f s v st) = Ok w.

(** The current line of the loop state: the widths of its words are known
    and [currentLineWidth] is their accumulated width. *)
Definition LineKnown `{Number} (env : Env) (cfg : Config) (f s : num)
           (ls : LoopState) (st : FlowState) : Prop :=
  exists ws,
    Forall2 (KnownWidth env cfg f s (cache st)) (currentLineWords ls) ws
    /\ AccumulatedWidth ws (currentLineWidth ls).
(** * Proofs *)

(** ** Run derivation *)

Lemma getRuns_levels (text : string) e lvls :
  levelArray e = Some lvls -> lvls <> [] -> length lvls = String.length text ->
  getRuns text e =
    let '(runs, currentLevel, startIndex) :=
      fold_left (scanStep lvls) (seq 1 (String.length text - 1)) ([], lvls !!! 0, 0) in
    runs ++ [mkRun startIndex (String.length text) currentLevel].
Proof.
  intros He Hne Hlen. unfold getRuns, levelArray in *.
  destruct e as [r|]; simpl in He; [|discriminate].
  rewrite He. destruct (decide (length lvls = 0)) as [Hz|_].
  - destruct lvls; [congruence | discriminate].
  - destruct (decide (String.length text <> length lvls)); [lia | reflexivity].
Qed.

Lemma lookup_snoc_Some {A} (l : list A) (x y : A) i :
  (l ++ [x]) !! i = Some y ->
  (i < length l /\ l !! i = Some y) \/ (i = length l /\ y = x).
Proof.
  intros Hl. destruct (decide (i < length l)) as [Hlt|Hge].
  - left. split; [done|]. by rewrite lookup_app_l in Hl.
  - right. rewrite lookup_app_r in Hl by lia.
    destruct (i - length l) as [|d] eqn:Hd; simpl in Hl; [|done].
    split; [lia | congruence].
Qed.

Lemma last_lookup_Some {A} (l : list A) (x : A) :
  last l = Some x -> l !! (length l - 1) = Some x /\ 0 < length l.
Proof.
  rewrite last_lookup. intros Hl. destruct l; [done|].
  simpl in *. rewrite Nat.sub_0_r. split; [done | lia].
Qed.

Lemma snoc_adjacent (runs : list Run) (new : Run) i r r' :
  (runs ++ [new]) !! i = Some r -> (runs ++ [new]) !! S i = Some r' ->
  (runs !! i = Some r /\ runs !! S i = Some r') \/ (last runs = Some r /\ r' = new).
Proof.
  intros Hr Hr'.
  apply lookup_snoc_Some in Hr' as [[Hlt Hr'] | [Hi ->]].
  - apply lookup_snoc_Some in Hr as [[_ Hr] | [Hi _]]; [by left | lia].
  - apply lookup_snoc_Some in Hr as [[_ Hr] | [Hi' _]]; [|lia].
    right. split; [|done]. rewrite last_lookup, <- Hr. f_equal. lia.
Qed.

Lemma scanStep_inv lvls k st :
  S k < length lvls -> ScanInv lvls k st -> ScanInv lvls (S k) (scanStep lvls st (S k)).
Proof.
  intros Hk. destruct st as [[runs cur] si]. unfold ScanInv, scanStep.
  intros (Hrun & Hadj & Hhd & Hlast & Hsi & Hcur).
  pose proof (list_lookup_lookup_total_lt lvls (S k) Hk) as Hlk.
  destruct (decide (lvls !!! S k <> cur)) as [Hne|Heq].
  - split; [|split; [|split; [|split; [|split]]]].
    + intros r [Hin | ->%list_elem_of_singleton]%elem_of_app; [by apply Hrun|].
      simpl. split; [lia|]. intros j Hj. apply Hcur. lia.
    + intros i r r' Hr Hr'.
      destruct (snoc_adjacent _ _ _ _ _ Hr Hr') as [[H1 H2] | [Hl ->]].
      * by apply (Hadj i).
      * rewrite Hl in Hlast. simpl. by destruct Hlast as [-> ?].
    + intros r Hr. destruct runs as [|r0 runs']; simpl in *.
      * injection Hr as <-. simpl. done.
      * by apply Hhd.
    + rewrite last_snoc. simpl. split; [done | congruence].
    + lia.
    + intros j Hj. assert (j = S k) as -> by lia. done.
  - apply dec_stable in Heq.
    split; [done|]. split; [done|]. split; [done|]. split; [done|].
    split; [lia|].
    intros j Hj. destruct (decide (j = S k)) as [->|Hjk].
    + by rewrite Hlk, Heq.
    + apply Hcur. lia.
Qed.

Lemma scan_inv lvls n st :
  n < length lvls -> ScanInv lvls 0 st ->
  ScanInv lvls n (fold_left (scanStep lvls) (seq 1 n) st).
Proof.
  induction n as [|n IH]; intros Hn Hinv; [done|].
  rewrite seq_S, fold_left_app. simpl.
  apply scanStep_inv; [done|]. apply IH; [lia | done].
Qed.

Lemma scan_inv_init lvls :
  0 < length lvls -> ScanInv lvls 0 ([], lvls !!! 0, 0).
Proof.
  intros Hlen. unfold ScanInv.
  split; [intros r Hr; by apply elem_of_nil in Hr|].
  split; [intros i r r' Hr; done|].
  split; [done|]. split; [done|]. split; [done|].
  intros j Hj. assert (j = 0) as -> by lia.
  by apply list_lookup_lookup_total_lt.
Qed.

(** X24: when the embedding result is missing, has no level array, has an
    empty level array, or has a level array whose length differs from the
    character count of the line, [getRuns] returns exactly the single run
    [{start: 0, end: text.length, level: 0}]. *)
Theorem getRuns_fallback (text : string) (e : option EmbeddingResult) :
  (levelArray e = None \/
   exists lvls, levelArray e = Some lvls /\
                (lvls = [] \/ length lvls <> String.length text)) ->
  getRuns text e = [mkRun 0 (String.length text) 0].
Proof.
  unfold levelArray, getRuns, singleRun.
  intros [Hnone | (lvls & Hsome & Hbad)].
  - destruct e as [r|]; [|done]. simpl in Hnone. by rewrite Hnone.
  - destruct e as [r|]; [|done]. simpl in Hsome. rewrite Hsome.
    destruct (decide (length lvls = 0)); [done|].
    destruct (decide (String.length text <> length lvls)); [done|].
    destruct Hbad as [-> | Hlen]; [done | lia].
Qed.

Lemma getRuns_fallback_witness :
  (levelArray (Some (mkEmbedding (Some [0; 1]))) = None \/
   exists lvls, levelArray (Some (mkEmbedding (Some [0; 1]))) = Some lvls /\
                (lvls = [] \/ length lvls <> String.length "abc"))
  /\ getRuns "abc" (Some (mkEmbedding (Some [0; 1]))) = [mkRun 0 3 0].
Proof.
  assert (levelArray (Some (mkEmbedding (Some [0; 1]))) = None \/
          exists lvls, levelArray (Some (mkEmbedding (Some [0; 1]))) = Some lvls /\
                       (lvls = [] \/ length lvls <> String.length "abc")) as Hyp.
  { right. exists [0; 1]. split; [reflexivity | right; simpl; lia]. }
  split; [exact Hyp|].
  apply (getRuns_fallback "abc" (Some (mkEmbedding (Some [0; 1]))) Hyp).
Defined.

(** C4: for a non-empty line whose level array has the line's length, the
    runs returned by [getRuns] partition [[0, text.length)]: the first run
    starts at 0, every next run starts where the previous one ends, the last
    run ends at [text.length], every run is non-empty and of one embedding
    level, and adjacent runs have different levels. *)
Theorem getRuns_partition (text : string) (e : option EmbeddingResult)
        (lvls : list nat) :
  text <> EmptyString ->
  levelArray e = Some lvls ->
  length lvls = String.length text ->
  RunPartition (String.length text) lvls (getRuns text e).
Proof.
  intros Hne He Hlen.
  assert (0 < String.length text) as Hpos.
  { destruct text; [done | simpl; lia]. }
  rewrite (getRuns_levels text e lvls He) by (first [done | destruct lvls; [simpl in *; lia | done]]).
  pose proof (scan_inv lvls (String.length text - 1) ([], lvls !!! 0, 0)
                ltac:(lia) (scan_inv_init lvls ltac:(lia))) as Hinv.
  destruct (fold_left _ _ _) as [[runs cur] si].
  destruct Hinv as (Hrun & Hadj & Hhd & Hlast & Hsi & Hcur).
  split.
  - destruct runs as [|r0 runs']; simpl.
    + eexists; split; [done|]. simpl. by rewrite Hlast in *.
    + eexists; split; [done|]. by apply Hhd.
  - intros i r r' Hr Hr'.
    destruct (snoc_adjacent _ _ _ _ _ Hr Hr') as [[H1 H2] | [Hl ->]].
    + by apply (Hadj i).
    + rewrite Hl in Hlast. simpl. by destruct Hlast as [-> ?].
  - eexists. rewrite last_snoc. split; [done|]. done.
  - intros r [Hin | ->%list_elem_of_singleton]%elem_of_app.
    + by apply Hrun.
    + simpl. split; [lia|]. intros j Hj. apply Hcur. lia.
Qed.

Lemma getRuns_partition_witness :
  "abcd"%string <> EmptyString
  /\ levelArray (Some (mkEmbedding (Some [0; 0; 1; 0]))) = Some [0; 0; 1; 0]
  /\ length [0; 0; 1; 0] = String.length "abcd"
  /\ RunPartition 4 [0; 0; 1; 0]
       (getRuns "abcd" (Some (mkEmbedding (Some [0; 0; 1; 0])))).
Proof.
  split; [discriminate|]. split; [reflexivity|]. split; [reflexivity|].
  apply (getRuns_partition "abcd" (Some (mkEmbedding (Some [0; 0; 1; 0])))
                           [0; 0; 1; 0]); [discriminate | reflexivity | reflexivity].
Defined.

(** ** The measurer *)

Lemma string_app_length (a b : string) :
  String.length (a +:+ b) = String.length a + String.length b.
Proof. induction a as [|c a IH]; simpl; [done | by rewrite IH]. Qed.

Lemma string_app_inj_r (a b s : string) : a +:+ s = b +:+ s -> a = b.
Proof.
  revert b. induction a as [|c a IH]; intros [|d b] Heq; simpl in *.
  - done.
  - apply (f_equal String.length) in Heq. simpl in Heq.
    rewrite ?string_app_length in Heq. simpl in Heq. lia.
  - apply (f_equal String.length) in Heq. simpl in Heq.
    rewrite ?string_app_length in Heq. simpl in Heq. lia.
  - injection Heq as -> Heq. f_equal. by apply IH.
Qed.

Lemma cacheKey_inj_grapheme `{Number} (g g' : string) (f s : num) :
  cacheKey g f s = cacheKey g' f s -> g = g'.
Proof. unfold cacheKey. apply string_app_inj_r. Qed.

Section MeasurerFacts.
Context `{Number}.
Variable env : Env.
Variable engine : FontEngine.
Variable isImage : string -> bool.

Lemma measureGrapheme_coherent g f s st :
  CacheCoherentAt engine f s (cache st) ->
  exists c', measureGrapheme engine g f s st = (Ok (measure engine g f s), setCache c' st)
             /\ CacheCoherentAt engine f s c'.
Proof.
  intros Hco. unfold measureGrapheme.
  destruct (cache st !! cacheKey g f s) as [w|] eqn:Hlk.
  - exists (cache st). rewrite (Hco _ _ Hlk). split; [by destruct st | done].
  - eexists. split; [done|]. intros g' w Hg'.
    destruct (decide (cacheKey g f s = cacheKey g' f s)) as [Heq|Hne].
    + rewrite <- Heq, lookup_insert_eq in Hg'.
      apply cacheKey_inj_grapheme in Heq. congruence.
    + rewrite lookup_insert_ne in Hg' by done. by apply Hco.
Qed.

Lemma measureGraphemeLoop_coherent gs f s width st :
  CacheCoherentAt engine f s (cache st) ->
  exists c', measureGraphemeLoop engine isImage gs f s width st
             = (Ok (sumWidths engine isImage gs f s width), setCache c' st)
             /\ CacheCoherentAt engine f s c'.
Proof.
  revert width st. induction gs as [|g gs IH]; intros width st Hco.
  - exists (cache st). split; [by destruct st | done].
  - change (sumWidths engine isImage (g :: gs) f s width)
      with (sumWidths engine isImage gs f s
              (nadd width (if isImage g then f else measure engine g f s))).
    simpl. destruct (isImage g) eqn:Himg.
    + by apply IH.
    + unfold bind.
      destruct (measureGrapheme_coherent g f s st Hco) as (c1 & -> & Hc1).
      destruct (IH (nadd width (measure engine g f s)) (setCache c1 st) Hc1)
        as (c2 & -> & Hc2).
      by exists c2.
Qed.

(** When the cache holds engine widths under the keys of [f] and [s],
    [measureText(t, f, s)] is the sum, over the grapheme clusters of [t] in
    order, of the engine's width of the grapheme, an image grapheme
    counting for exactly [f]. *)
Lemma measureText_sum (t : string) (f s : num) (st : FlowState) :
  CacheCoherentAt engine f s (cache st) ->
  fst (measureText env engine isImage t f s st)
  = Ok (sumWidths engine isImage (segment env t) f s nzero).
Proof.
  intros Hco. unfold measureText, measureGraphemeArray.
  by destruct (measureGraphemeLoop_coherent (segment env t) f s nzero st Hco)
    as (c' & -> & _).
Qed.

End MeasurerFacts.

(** ** Computations over the measurement cache *)

Section MonadFacts.
Context `{Number}.

Lemma setCache_setCache c c' (st : FlowState) :
  setCache c (setCache c' st) = setCache c st.
Proof. done. Qed.

Lemma setCache_cache (st : FlowState) : setCache (cache st) st = st.
Proof. by destruct st. Qed.

Lemma cache_setCache c (st : FlowState) : cache (setCache c st) = c.
Proof. done. Qed.

Lemma Stable_ret {A} (a : A) : Stable (ret a).
Proof.
  intros st r st' [= <- <-]. split; [done|]. intros cF _. done.
Qed.

Lemma Stable_throw {A} e : Stable (throw (A:=A) e).
Proof.
  intros st r st' [= <- <-]. split; [done|]. intros cF _. done.
Qed.

Lemma Stable_liftResult {A} (x : Result A) : Stable (liftResult x).
Proof.
  intros st r st' [= <- <-]. split; [done|]. intros cF _. done.
Qed.

Lemma Stable_bind {A B} (m : M A) (k : A -> M B) :
  Stable m -> (forall a, Stable (k a)) -> Stable (bind m k).
Proof.
  intros Hm Hk st r st' Hrun. unfold bind in *.
  destruct (m st) as [[a|e] st1] eqn:Hmst.
  - destruct (Hm _ _ _ Hmst) as [Hsub1 Hre1].
    destruct (Hk a _ _ _ Hrun) as [Hsub2 Hre2].
    split; [by etrans|]. intros cF HcF.
    rewrite (Hre1 cF) by (by etrans).
    by apply Hre2.
  - injection Hrun as <- <-.
    destruct (Hm _ _ _ Hmst) as [Hsub1 Hre1].
    split; [done|]. intros cF HcF. by rewrite (Hre1 cF).
Qed.

Lemma Frames_ret {A} (a : A) : Frames (ret a).
Proof. intros st. exists (Ok a), (cache st). by rewrite setCache_cache. Qed.

Lemma Frames_throw {A} e : Frames (throw (A:=A) e).
Proof. intros st. exists (Throw e), (cache st). by rewrite setCache_cache. Qed.

Lemma Frames_liftResult {A} (x : Result A) : Frames (liftResult x).
Proof. intros st. exists x, (cache st). by rewrite setCache_cache. Qed.

Lemma Frames_bind {A B} (m : M A) (k : A -> M B) :
  Frames m -> (forall a, Frames (k a)) -> Frames (bind m k).
Proof.
  intros Hm Hk st. unfold bind.
  destruct (Hm st) as (r & c1 & ->). destruct r as [a|e].
  - destruct (Hk a (setCache c1 st)) as (r2 & c2 & ->). by exists r2, c2.
  - by exists (Throw e), c1.
Qed.

Lemma Measuring_ret {A} (a : A) : Measuring (ret a).
Proof. split; [apply Frames_ret | apply Stable_ret]. Qed.

Lemma Measuring_throw {A} e : Measuring (throw (A:=A) e).
Proof. split; [apply Frames_throw | apply Stable_throw]. Qed.

Lemma Measuring_liftResult {A} (x : Result A) : Measuring (liftResult x).
Proof. split; [apply Frames_liftResult | apply Stable_liftResult]. Qed.

Lemma Measuring_bind {A B} (m : M A) (k : A -> M B) :
  Measuring m -> (forall a, Measuring (k a)) -> Measuring (bind m k).
Proof.
  intros [Hf Hs] Hk. split.
  - apply Frames_bind; [done|]. intros a. apply Hk.
  - apply Stable_bind; [done|]. intros a. apply Hk.
Qed.

Lemma Measuring_if {A} (b : bool) (m1 m2 : M A) :
  Measuring m1 -> Measuring m2 -> Measuring (if b then m1 else m2).
Proof. by destruct b. Qed.

Lemma Stable_if {A} (b : bool) (m1 m2 : M A) :
  Stable m1 -> Stable m2 -> Stable (if b then m1 else m2).
Proof. by destruct b. Qed.

(** State updates that leave the cache alone commute with a change of
    cache. *)
Lemma Stable_update (f : FlowState -> FlowState) :
  (forall st, cache (f st) = cache st) ->
  (forall c st, f (setCache c st) = setCache c (f st)) ->
  Stable (fun st => (Ok tt, f st)).
Proof.
  intros Hc Hcomm st r st' [= <- <-]. rewrite Hc. split; [done|].
  intros cF _. by rewrite Hcomm.
Qed.

Lemma Stable_resetFlow : Stable resetFlow.
Proof. by apply Stable_update. Qed.

Lemma Stable_pushLine w b n : Stable (pushLine w b n).
Proof. by apply Stable_update. Qed.

Lemma Stable_pushPlaced new : Stable (pushPlaced new).
Proof. by apply Stable_update. Qed.

End MonadFacts.

Lemma Measuring_Stable `{Number} {A} (m : M A) : Measuring m -> Stable m.
Proof. by intros [_ ?]. Qed.

Lemma Measuring_Frames `{Number} {A} (m : M A) : Measuring m -> Frames m.
Proof. by intros [? _]. Qed.

Section MeasuringFacts.
Context `{Number}.
Variable env : Env.
Variable cfg : Config.

Lemma Measuring_measureGrapheme engine g f s :
  Measuring (measureGrapheme engine g f s).
Proof.
  split.
  - intros st. unfold measureGrapheme.
    destruct (cache st !! cacheKey g f s) as [w|].
    + exists (Ok w), (cache st). by rewrite setCache_cache.
    + by eexists _, _.
  - intros st r st' Hrun. unfold measureGrapheme in *.
    destruct (cache st !! cacheKey g f s) as [w|] eqn:Hlk.
    + injection Hrun as <- <-. split; [done|]. intros cF HcF. simpl.
      by rewrite (lookup_weaken _ _ _ _ Hlk HcF).
    + injection Hrun as <- <-. simpl. split; [by apply insert_subseteq|].
      intros cF HcF. simpl.
      assert (cF !! cacheKey g f s = Some (measure engine g f s)) as ->; [|done].
      eapply lookup_weaken; [|done]. apply lookup_insert_eq.
Qed.

Lemma Measuring_measureGraphemeLoop engine isImg gs f s width :
  Measuring (measureGraphemeLoop engine isImg gs f s width).
Proof.
  revert width. induction gs as [|g gs IH]; intros width; simpl.
  - apply Measuring_ret.
  - destruct (isImg g); [done|].
    apply Measuring_bind; [apply Measuring_measureGrapheme | done].
Qed.

Lemma Measuring_measureTextN t f s : Measuring (measureTextN env cfg t f s).
Proof. apply Measuring_measureGraphemeLoop. Qed.

Lemma Measuring_measureWord f s word : Measuring (measureWord env cfg f s word).
Proof.
  unfold measureWord. destruct (isImage cfg word);
    [apply Measuring_ret | apply Measuring_measureTextN].
Qed.

Lemma Measuring_shapeRun lineText useEngine acc run :
  Measuring (shapeRun env cfg lineText useEngine acc run).
Proof.
  unfold shapeRun. destruct acc as [[segs asc] desc].
  apply Measuring_bind.
  - destruct (isImage cfg _); [apply Measuring_ret|].
    apply Measuring_bind; [apply Measuring_measureTextN|].
    intros w. apply Measuring_ret.
  - intros [w b]. apply Measuring_ret.
Qed.

Lemma Measuring_shapeRuns lineText useEngine runs acc :
  Measuring (shapeRuns env cfg lineText useEngine runs acc).
Proof.
  revert acc. induction runs as [|run runs IH]; intros acc; simpl.
  - apply Measuring_ret.
  - apply Measuring_bind; [apply Measuring_shapeRun | done].
Qed.

Lemma Measuring_visualSegment segs reordered cur runStart i :
  Measuring (visualSegment env cfg segs reordered cur runStart i).
Proof.
  unfold visualSegment. destruct cur as [k|]; [|apply Measuring_throw].
  destruct (segs !! k) as [seg|]; [|apply Measuring_throw].
  apply Measuring_bind; [apply Measuring_liftResult|]. intros off.
  apply Measuring_bind; [apply Measuring_measureTextN|]. intros w.
  apply Measuring_ret.
Qed.

Lemma Measuring_groupLoop segs runMap reordered rest i cur runStart out :
  Measuring (groupLoop env cfg segs runMap reordered rest i cur runStart out).
Proof.
  revert i cur runStart out.
  induction rest as [|rIndex rest IH]; intros i cur runStart out; simpl.
  - apply Measuring_ret.
  - destruct (decide (runMap !! rIndex <> cur)); [|done].
    apply Measuring_bind; [apply Measuring_visualSegment | done].
Qed.

End MeasuringFacts.

(** ** Shaping one line *)

Section ShapeFacts.
Context `{Number}.
Variable env : Env.
Variable cfg : Config.

Lemma Stable_shapeLine lineWords xOffset currentLine currentHeight cw useEngine :
  Stable (shapeLineWithBidiRuns env cfg lineWords xOffset currentLine
                                currentHeight cw useEngine).
Proof.
  unfold shapeLineWithBidiRuns.
  apply Stable_bind; [apply Measuring_Stable, Measuring_shapeRuns|].
  intros [[segs asc] desc].
  apply Stable_bind; [apply Measuring_Stable, Measuring_groupLoop|].
  intros [[cur runStart] out].
  apply Stable_bind; [apply Measuring_Stable, Measuring_visualSegment|].
  intros last. destruct (placeSegments _ _) as [placed cursorX].
  apply Stable_bind; [apply Stable_pushPlaced|].
  intros _. apply Stable_ret.
Qed.

Lemma toPlaced_line segs currentLine currentHeight lineIndex :
  Forall (fun p => ps_line p = currentLine)
         (toPlaced segs currentLine currentHeight lineIndex).
Proof.
  revert lineIndex. induction segs as [|seg segs IH]; intros lineIndex; simpl.
  - constructor.
  - constructor; [done | apply IH].
Qed.

(** What a call of [shapeLineWithBidiRuns] does to the state: it may add
    to the cache, and when it returns it has appended segments of the
    current line to [placedSegments]. *)
Lemma shapeLine_state lineWords xOffset currentLine currentHeight cw useEngine st :
  exists c',
    (exists e, shapeLineWithBidiRuns env cfg lineWords xOffset currentLine
                                     currentHeight cw useEngine st
               = (Throw e, setCache c' st))
    \/ (exists r new,
           shapeLineWithBidiRuns env cfg lineWords xOffset currentLine
                                 currentHeight cw useEngine st
           = (Ok r, mkFlowState c' (lineWidths st) (baselines st)
                                (lineSegmentNumber st) (placedSegments st ++ new))
           /\ Forall (fun p => ps_line p = currentLine) new).
Proof.
  unfold shapeLineWithBidiRuns, bind.
  destruct (Measuring_Frames _ (Measuring_shapeRuns env cfg (Js.join lineWords) useEngine
              (getRuns (Js.join lineWords) (getEmbeddingLevels env (Js.join lineWords)))
              ([], nzero, nzero)) st) as (r1 & c1 & ->).
  destruct r1 as [[[segs asc] desc]|e]; [|exists c1; left; by exists e].
  match goal with
  | |- context [groupLoop ?a ?b ?c ?d ?e ?f ?g ?h ?i ?j] =>
      destruct (Measuring_Frames _ (Measuring_groupLoop a b c d e f g h i j)
                  (setCache c1 st)) as (r2 & c2 & ->)
  end.
  destruct r2 as [[[cur runStart] out]|e]; [|exists c2; left; by exists e].
  match goal with
  | |- context [visualSegment ?a ?b ?c ?d ?e ?f ?g] =>
      destruct (Measuring_Frames _ (Measuring_visualSegment a b c d e f g)
                  (setCache c2 (setCache c1 st))) as (r3 & c3 & ->)
  end.
  destruct r3 as [last|e]; [|exists c3; left; by exists e].
  destruct (placeSegments _ _) as [placed cursorX]. simpl.
  exists c3. right. eexists _, _. split; [done|]. apply toPlaced_line.
Qed.

(** On the empty string every path of [getRuns] ends in the fallback. *)
Lemma getRuns_empty_text (e : option EmbeddingResult) :
  getRuns EmptyString e = [mkRun 0 0 0].
Proof.
  unfold getRuns, singleRun. destruct e as [r|]; [|done].
  destruct (levels r) as [lvls|]; [|done].
  destruct (decide (length lvls = 0)); [done|].
  destruct (decide (String.length EmptyString <> length lvls)) as [|Heq]; [done|].
  apply dec_stable in Heq. simpl in Heq. lia.
Qed.

Lemma buildRunMap_empty (segs : list ShapedRunSegment) idx runMap :
  Forall (fun seg => srs_text seg = EmptyString) segs ->
  buildRunMap segs idx runMap = runMap.
Proof.
  revert idx runMap. induction segs as [|seg segs IH]; intros idx runMap Hall; simpl.
  - done.
  - inversion Hall as [|? ? Hseg Hrest]; subst.
    rewrite Hseg. simpl. rewrite app_nil_r. by apply IH.
Qed.

Lemma groupLoop_no_runs segs reordered rest i runStart out st :
  groupLoop env cfg segs [] reordered rest i None runStart out st
  = (Ok (None, runStart, out), st).
Proof.
  revert i. induction rest as [|rIndex rest IH]; intros i; simpl; [done|].
  destruct (decide (@lookup nat nat (list nat) _ rIndex [] <> None)) as [Hne|_].
  - by rewrite lookup_nil in Hne.
  - apply IH.
Qed.

(** Measuring never throws. *)
Lemma measureTextN_ok t f s st :
  exists w c', measureTextN env cfg t f s st = (Ok w, setCache c' st).
Proof.
  unfold measureTextN, measureText, measureGraphemeArray.
  generalize (@nzero H). revert st.
  induction (segment env t) as [|g gs IH]; intros st width; simpl.
  - exists width, (cache st). by rewrite setCache_cache.
  - destruct (isImage cfg g); [apply IH|].
    unfold bind, measureGrapheme.
    destruct (cache st !! _) as [w|]; [apply IH|].
    match goal with
    | |- context [measureGraphemeLoop _ _ _ _ _ ?w' (setCache ?c st)] =>
        destruct (IH (setCache c st) w') as (w2 & c2 & ->)
    end.
    by exists w2, c2.
Qed.

Lemma shapeRuns_empty_text useEngine st :
  exists segs asc desc c',
    shapeRuns env cfg EmptyString useEngine [mkRun 0 0 0] ([], nzero, nzero) st
    = (Ok (segs, asc, desc), setCache c' st)
    /\ Forall (fun seg => srs_text seg = EmptyString) segs.
Proof.
  simpl. unfold bind, shapeRun, bind. simpl.
  change (Js.slice 0 0 EmptyString) with EmptyString.
  destruct (isImage cfg EmptyString).
  - eexists _, _, _, (cache st). rewrite setCache_cache.
    split; [reflexivity|]. by repeat constructor.
  - destruct (measureTextN_ok EmptyString (fontSize cfg) (letterSpacing cfg) st)
      as (w & c' & ->).
    eexists _, _, _, c'. split; [reflexivity|]. by repeat constructor.
Qed.

(** On a line whose text is empty the run shaper reads
    [shapedRunSegments[undefined].text]: a [TypeError], whatever the bidi
    analysis returned. Nothing is placed. *)
Lemma shapeLine_empty_throws lineWords xOffset currentLine currentHeight cw useEngine st :
  Js.join lineWords = EmptyString ->
  exists c', shapeLineWithBidiRuns env cfg lineWords xOffset currentLine
                                   currentHeight cw useEngine st
             = (Throw TypeError, setCache c' st).
Proof.
  intros Hempty. unfold shapeLineWithBidiRuns. rewrite Hempty.
  rewrite getRuns_empty_text.
  destruct (shapeRuns_empty_text useEngine st) as (segs & asc & desc & c1 & Hruns & Hsegs).
  unfold bind at 1. rewrite Hruns.
  rewrite (buildRunMap_empty segs 0 [] Hsegs).
  assert ((getReorderedIndices env EmptyString (getEmbeddingLevels env EmptyString) !! 0
           ≫= fun r => @lookup nat nat (list nat) _ r []) = None) as ->.
  { destruct (_ !! 0) as [r|]; [apply lookup_nil | done]. }
  unfold bind at 1. rewrite groupLoop_no_runs.
  unfold bind at 1. simpl. by exists c1.
Qed.

(** C3 (code defect): for the empty line the fallback of [getRuns] is
    taken whatever the bidi analysis returned (a missing result, no level
    array, an empty one, or one of another length than the text), and it
    gives the single run [{start: 0, end: 0, level: 0}]; but layout then
    produces no result: shaping that line throws a [TypeError]. *)
Theorem fallback_empty_line_throws xOffset currentLine currentHeight cw useEngine
        (st : FlowState) :
  getRuns EmptyString (getEmbeddingLevels env EmptyString)
  = [mkRun 0 (String.length EmptyString) 0]
  /\ fst (shapeLineWithBidiRuns env cfg [] xOffset currentLine currentHeight cw
                                useEngine st)
     = Throw TypeError.
Proof.
  split; [apply getRuns_empty_text|].
  by destruct (shapeLine_empty_throws [] xOffset currentLine currentHeight cw
                 useEngine st eq_refl) as (c' & ->).
Qed.

End ShapeFacts.

(** ** Line flow *)

Lemma allowedToPutAtBeginning_spec (word : string) :
  allowedToPutAtBeginning word = notPunctuationFirst word.
Proof.
  destruct word as [|c rest]; [reflexivity|].
  unfold allowedToPutAtBeginning, Js.firstCharNotIn, notPunctuationFirst.
  cbn [String.get]. destruct c as [[] [] [] [] [] [] [] []]; reflexivity.
Qed.

Section FlowFacts.
Context `{Number}.
Variable env : Env.
Variable cfg : Config.

Lemma measureWord_ok f s word st :
  exists w c', measureWord env cfg f s word st = (Ok w, setCache c' st).
Proof.
  unfold measureWord. destruct (isImage cfg word).
  - exists f, (cache st). by rewrite setCache_cache.
  - apply measureTextN_ok.
Qed.

(** C10: with an empty word sequence [flow] returns width 0 and height 0;
    the three per-line arrays stay empty and no segment is placed. *)
Theorem flow_no_words cw f s useEngine (st : FlowState) :
  words cfg = [] ->
  flow env cfg cw f s useEngine st
  = (Ok (mkFlowResult nzero nzero), mkFlowState (cache st) [] [] [] []).
Proof. intros Hw. unfold flow, bind. simpl. rewrite Hw. reflexivity. Qed.

(** *** The line limit *)

Lemma LinesInv_setCache limit n c st :
  LinesInv limit n st -> LinesInv limit n (setCache c st).
Proof. done. Qed.

Lemma finalizeLine_inv cw useEngine ls st :
  LinesInv (lineLimit cfg) (lines ls) st ->
  (Z.of_nat (lines ls) < lineLimit cfg)%Z ->
  match finalizeLine env cfg cw useEngine ls st with
  | (Ok (lines', _, _), st') =>
      lines' = S (lines ls) /\ LinesInv (lineLimit cfg) lines' st'
  | (Throw _, st') => LinesInv (lineLimit cfg) (lines ls) st'
  end.
Proof.
  intros (Hw & Hb & Hn & Hp & Hlim) Hlt. unfold finalizeLine, bind.
  destruct (shapeLine_state env cfg (currentLineWords ls) nzero (lines ls)
              (totalHeight ls) cw useEngine st)
    as (c' & [(e & ->) | (r & new & -> & Hnew)]).
  - done.
  - simpl. split; [done|]. unfold LinesInv. simpl.
    rewrite !length_app, Hw, Hb, Hn. simpl.
    repeat split; try lia.
    apply Forall_app. split.
    + eapply Forall_impl; [exact Hp|]. simpl. lia.
    + eapply Forall_impl; [exact Hnew|]. simpl. lia.
Qed.

Lemma flowStep_inv cw f s useEngine i word ls st :
  LinesInv (lineLimit cfg) (lines ls) st ->
  (Z.of_nat (lines ls) < lineLimit cfg)%Z ->
  match flowStep env cfg cw f s useEngine i word ls st with
  | (Ok ls', st') => LinesInv (lineLimit cfg) (lines ls') st'
  | (Throw _, st') => LinesInv (lineLimit cfg) (lines ls) st'
  end.
Proof.
  intros Hinv Hlt. unfold flowStep, bind at 1.
  destruct (measureWord_ok f s word st) as (w & c1 & ->).
  apply (LinesInv_setCache _ _ c1) in Hinv.
  destruct (_ || _); [|done].
  unfold bind at 1.
  pose proof (finalizeLine_inv cw useEngine ls _ Hinv Hlt) as Hfin.
  destruct (finalizeLine _ _ _ _ _ _) as [[[[l' mw] th]|e] st2]; [|done].
  by destruct Hfin as [-> ?].
Qed.

Lemma flowLoop_inv cw f s useEngine rest i ls st :
  LinesInv (lineLimit cfg) (lines ls) st ->
  match flowLoop env cfg cw f s useEngine rest i ls st with
  | (Ok ls', st') => LinesInv (lineLimit cfg) (lines ls') st'
  | (Throw _, st') => exists n, LinesInv (lineLimit cfg) n st'
  end.
Proof.
  revert i ls st. induction rest as [|word rest IH]; intros i ls st Hinv; simpl.
  - done.
  - destruct (Z.ltb_spec (Z.of_nat (lines ls)) (lineLimit cfg)) as [Hlt|Hge]; [|done].
    unfold bind.
    pose proof (flowStep_inv cw f s useEngine i word ls st Hinv Hlt) as Hstep.
    destruct (flowStep _ _ _ _ _ _ _ _ _ _) as [[ls'|e] st1].
    + by apply IH.
    + by exists (lines ls).
Qed.

(** Once the limit is reached the loop ends: the remaining words are
    dropped, nothing is recorded, nothing is thrown. *)
Lemma flowLoop_limit_reached cw f s useEngine rest i ls st :
  (lineLimit cfg <= Z.of_nat (lines ls))%Z ->
  flowLoop env cfg cw f s useEngine rest i ls st = (Ok ls, st).
Proof.
  intros Hge. destruct rest as [|word rest]; simpl; [done|].
  destruct (Z.ltb_spec (Z.of_nat (lines ls)) (lineLimit cfg)); [lia | done].
Qed.

Lemma flow_inv cw f s useEngine st :
  (0 <= lineLimit cfg)%Z ->
  exists n, LinesInv (lineLimit cfg) n (snd (flow env cfg cw f s useEngine st)).
Proof.
  intros Hpos. unfold flow, bind at 1. simpl.
  unfold bind at 1.
  assert (LinesInv (lineLimit cfg) (lines initialLoop)
                   (mkFlowState (cache st) [] [] [] [])) as Hinit.
  { unfold LinesInv. simpl. repeat split; first [done | lia]. }
  pose proof (flowLoop_inv cw f s useEngine (words cfg) 0 initialLoop _ Hinit) as Hloop.
  destruct (flowLoop _ _ _ _ _ _ _ _ _ _) as [[ls|e] st1]; [|done].
  destruct (negb _) eqn:Hne; simpl; [|by exists (lines ls)].
  destruct (Z.ltb_spec (Z.of_nat (lines ls)) (lineLimit cfg)) as [Hlt|Hge];
    [|by exists (lines ls)].
  unfold bind.
  pose proof (finalizeLine_inv cw useEngine ls st1 Hloop Hlt) as Hfin.
  destruct (finalizeLine _ _ _ _ _ _) as [[[[l' mw] th]|e] st2].
  - exists l'. by destruct Hfin.
  - by exists (lines ls).
Qed.

(** C6: [flow] records at most [lineLimit] lines. In the state it leaves,
    whether it returned or not, the three per-line arrays have the same
    length, at most [lineLimit], and every placed segment lies on a line
    below the limit; and once [lineLimit] lines are completed the loop
    stops without an error, leaving the remaining words out. *)
Theorem flow_line_limit cw f s useEngine (st : FlowState) :
  (0 <= lineLimit cfg)%Z ->
  let st' := snd (flow env cfg cw f s useEngine st) in
  (Z.of_nat (length (lineWidths st')) <= lineLimit cfg)%Z
  /\ length (baselines st') = length (lineWidths st')
  /\ length (lineSegmentNumber st') = length (lineWidths st')
  /\ Forall (fun p => (Z.of_nat (ps_line p) < lineLimit cfg)%Z) (placedSegments st')
  /\ forall rest i ls st0,
      (lineLimit cfg <= Z.of_nat (lines ls))%Z ->
      flowLoop env cfg cw f s useEngine rest i ls st0 = (Ok ls, st0).
Proof.
  intros Hpos st'.
  destruct (flow_inv cw f s useEngine st Hpos) as (n & Hw & Hb & Hn & Hp & Hlim).
  fold st' in Hw, Hb, Hn, Hp.
  repeat split.
  - lia.
  - lia.
  - lia.
  - eapply Forall_impl; [exact Hp|]. simpl. lia.
  - intros rest i ls st0. apply flowLoop_limit_reached.
Qed.

End FlowFacts.

(** ** The measure callback *)

Section FitFacts.
Context `{Number}.
Variable env : Env.
Variable cfg : Config.

Lemma Stable_finalizeLine cw useEngine ls :
  Stable (finalizeLine env cfg cw useEngine ls).
Proof.
  unfold finalizeLine.
  apply Stable_bind; [apply Stable_shapeLine|]. intros r.
  apply Stable_bind; [apply Stable_pushLine|]. intros _. apply Stable_ret.
Qed.

Lemma Stable_flowStep cw f s useEngine i word ls :
  Stable (flowStep env cfg cw f s useEngine i word ls).
Proof.
  unfold flowStep.
  apply Stable_bind; [apply Measuring_Stable, Measuring_measureWord|]. intros w.
  apply Stable_if; [|apply Stable_ret].
  apply Stable_bind; [apply Stable_finalizeLine|].
  intros [[l mw] th]. apply Stable_ret.
Qed.

Lemma Stable_flowLoop cw f s useEngine rest i ls :
  Stable (flowLoop env cfg cw f s useEngine rest i ls).
Proof.
  revert i ls. induction rest as [|word rest IH]; intros i ls; simpl.
  - apply Stable_ret.
  - apply Stable_if; [|apply Stable_ret].
    apply Stable_bind; [apply Stable_flowStep | done].
Qed.

Lemma Stable_flow cw f s useEngine : Stable (flow env cfg cw f s useEngine).
Proof.
  unfold flow.
  apply Stable_bind; [apply Stable_resetFlow|]. intros _.
  apply Stable_bind; [apply Stable_flowLoop|]. intros ls.
  apply Stable_if; [|apply Stable_ret].
  apply Stable_bind; [apply Stable_finalizeLine|].
  intros [[l mw] th]. apply Stable_ret.
Qed.

(** [flow] starts by emptying the accumulators: of the state it is given
    it only reads the cache. *)
Lemma flow_reads_cache cw f s useEngine st1 st2 :
  cache st1 = cache st2 ->
  flow env cfg cw f s useEngine st1 = flow env cfg cw f s useEngine st2.
Proof. intros Hc. unfold flow, bind at 1, resetFlow. by rewrite Hc. Qed.

(** Running [flow] again on the state it left changes nothing. *)
Lemma flow_replay cw f s useEngine st r st' :
  flow env cfg cw f s useEngine st = (r, st') ->
  forall st2, cache st' ⊆ cache st2 ->
    flow env cfg cw f s useEngine st2 = (r, setCache (cache st2) st').
Proof.
  intros Hrun st2 Hsub.
  destruct (Stable_flow cw f s useEngine _ _ _ Hrun) as [_ Hre].
  rewrite <- (Hre _ Hsub). by apply flow_reads_cache.
Qed.

Lemma fitSearch_step cw ch lo hi best st :
  fitSearch env cfg cw ch lo hi best st =
  if decide (lo <= hi)%Z
  then
    match flowAt env cfg cw ((lo + hi) / 2) st with
    | (Throw e, st') => (Throw e, st')
    | (Ok r, st') =>
        if nle (fr_height r) ch
        then fitSearch env cfg cw ch ((lo + hi) / 2 + 1) hi ((lo + hi) / 2) st'
        else fitSearch env cfg cw ch lo ((lo + hi) / 2 - 1) best st'
    end
  else (Ok best, st).
Proof.
  simp fitSearch. destruct (Z_le_dec lo hi) as [Hle|Hgt]; simpl.
  - destruct (decide (lo <= hi)%Z); [|lia].
    destruct (flowAt env cfg cw ((lo + hi) / 2) st) as [[r|e] st']; simpl; [|done].
    by destruct (nle (fr_height r) ch).
  - by destruct (decide (lo <= hi)%Z); [lia|].
Qed.

Lemma fitSearch_as_bind cw ch lo hi best st :
  fitSearch env cfg cw ch lo hi best st =
  (if decide (lo <= hi)%Z
   then
     bind (flowAt env cfg cw ((lo + hi) / 2))
          (fun r =>
             if nle (fr_height r) ch
             then fitSearch env cfg cw ch ((lo + hi) / 2 + 1) hi ((lo + hi) / 2)
             else fitSearch env cfg cw ch lo ((lo + hi) / 2 - 1) best)
   else ret best) st.
Proof.
  rewrite fitSearch_step. destruct (decide (lo <= hi)%Z); [|done].
  unfold bind. destruct (flowAt _ _ _ _ _) as [[r|e] st']; [|done].
  by destruct (nle _ _).
Qed.

Lemma Stable_ext {A} (m m' : M A) :
  (forall st, m st = m' st) -> Stable m' -> Stable m.
Proof.
  intros Hext Hm' st r st' Hrun. rewrite Hext in Hrun.
  destruct (Hm' _ _ _ Hrun) as [Hsub Hre]. split; [done|].
  intros cF HcF. rewrite Hext. by apply Hre.
Qed.

Lemma mid_bounds (lo hi : Z) :
  (lo <= hi)%Z -> (lo <= (lo + hi) / 2 <= hi)%Z.
Proof.
  intros Hle. split; [apply Z.div_le_lower_bound | apply Z.div_le_upper_bound]; lia.
Qed.

Lemma Stable_fitSearch cw ch lo hi best :
  Stable (fitSearch env cfg cw ch lo hi best).
Proof.
  remember (Z.to_nat (hi - lo + 1)) as n eqn:Hn.
  revert lo hi best Hn. induction n as [n IH] using lt_wf_ind.
  intros lo hi best Hn.
  eapply Stable_ext; [apply fitSearch_as_bind|].
  destruct (decide (lo <= hi)%Z) as [Hle|Hgt]; [|apply Stable_ret].
  pose proof (mid_bounds lo hi Hle) as Hmid.
  apply Stable_bind; [apply Stable_flow|]. intros r.
  apply Stable_if.
  - eapply IH; [|reflexivity]. lia.
  - eapply IH; [|reflexivity]. lia.
Qed.

Lemma fitSearch_reads_cache cw ch lo hi best st1 st2 :
  (lo <= hi)%Z -> cache st1 = cache st2 ->
  fitSearch env cfg cw ch lo hi best st1 = fitSearch env cfg cw ch lo hi best st2.
Proof.
  intros Hle Hc. rewrite !fitSearch_step.
  destruct (decide (lo <= hi)%Z); [|lia].
  unfold flowAt. by rewrite (flow_reads_cache _ _ _ _ st1 st2 Hc).
Qed.

Lemma fitSearch_empty_range cw ch lo hi best st :
  (hi < lo)%Z -> fitSearch env cfg cw ch lo hi best st = (Ok best, st).
Proof.
  intros Hlt. rewrite fitSearch_step. by destruct (decide (lo <= hi)%Z); [lia|].
Qed.

(** The search started again on a state whose cache holds everything the
    first search cached: same outcome, cache untouched. *)
Lemma fitSearch_replay cw ch lo hi best st r st' st2 :
  fitSearch env cfg cw ch lo hi best st = (r, st') ->
  cache st' ⊆ cache st2 ->
  exists st2', fitSearch env cfg cw ch lo hi best st2 = (r, st2')
               /\ cache st2' = cache st2
               /\ (forall e, r = Throw e -> st2' = setCache (cache st2) st').
Proof.
  intros Hrun Hsub.
  destruct (decide (lo <= hi)%Z) as [Hle|Hgt].
  - destruct (Stable_fitSearch cw ch lo hi best _ _ _ Hrun) as [_ Hre].
    rewrite (fitSearch_reads_cache cw ch lo hi best st2 (setCache (cache st2) st))
      by done.
    rewrite (Hre _ Hsub). by eexists.
  - rewrite fitSearch_empty_range in Hrun by lia. injection Hrun as <- <-.
    rewrite fitSearch_empty_range by lia. exists st2. by repeat split.
Qed.

(** C9: the measure callback called a second time with the same available
    width and height returns the same result as the first call and leaves
    the whole state of the text node as the first call left it:
    [lineWidths], [baselines], [lineSegmentNumber], [placedSegments],
    [finalFontSize], the engine, the measured size, and the cache, which
    already holds every width the second call asks for. *)
Theorem measureFunc_idempotent (cw ch : num) (ns : NodeState) :
  let '(r, ns1) := measureFunc env cfg cw ch ns in
  measureFunc env cfg cw ch ns1 = (r, ns1).
Proof.
  unfold measureFunc. destruct (textFit cfg).
  - destruct (flow _ _ _ _ _ _ (flowState ns)) as [r fs1] eqn:Hrun.
    pose proof (flow_replay _ _ _ _ _ _ _ Hrun fs1 ltac:(done)) as Hre.
    rewrite setCache_cache in Hre.
    destruct r as [r|e]; simpl; by rewrite Hre.
  - destruct (fitSearch _ _ _ _ _ _ _ (flowState ns)) as [rb fsA] eqn:Hsearch.
    destruct rb as [best|e].
    + destruct (flow _ _ _ _ _ _ fsA) as [r fs1] eqn:Hrun.
      destruct (Stable_flow _ _ _ _ _ _ _ Hrun) as [Hsub _].
      destruct (fitSearch_replay _ _ _ _ _ _ _ _ fs1 Hsearch Hsub)
        as (fsB & HsearchB & HcB & _).
      pose proof (flow_replay _ _ _ _ _ _ _ Hrun fsB ltac:(by rewrite HcB)) as Hre.
      rewrite HcB, setCache_cache in Hre.
      destruct r as [r|e]; simpl; by rewrite HsearchB, Hre.
    + destruct (fitSearch_replay _ _ _ _ _ _ _ _ fsA Hsearch ltac:(done))
        as (fsB & HsearchB & _ & HfsB).
      rewrite (HfsB e eq_refl), setCache_cache in HsearchB.
      simpl. by rewrite HsearchB.
Qed.

Lemma fitsAt_replay cw ch z st r st' F :
  flowAt env cfg cw z st = (Ok r, st') -> cache st' ⊆ cache F ->
  fitsAt env cfg cw ch F z = nle (fr_height r) ch.
Proof.
  intros Hrun Hsub. unfold fitsAt, flowAt in *.
  by rewrite (flow_replay _ _ _ _ _ _ _ Hrun F Hsub).
Qed.

(** Invariant of the fit search: the size below the range was accepted
    (or nothing was yet and the range starts at 10), the size above the
    range was rejected (or the range still ends at the maximum). *)
Lemma fitSearch_choice cw ch maxSize (n : nat) :
  forall lo hi best st b st' F,
    Z.to_nat (hi - lo + 1) = n ->
    fitSearch env cfg cw ch lo hi best st = (Ok b, st') ->
    cache st' ⊆ cache F ->
    (10 <= lo)%Z -> (hi <= maxSize)%Z -> (lo <= hi + 1)%Z ->
    ((best = lo - 1 /\ 10 <= best /\ fitsAt env cfg cw ch F best = true)%Z
     \/ (best = 10 /\ lo = 10)%Z) ->
    (hi = maxSize \/ fitsAt env cfg cw ch F (hi + 1) = false) ->
    FitChoice env cfg cw ch F maxSize b.
Proof.
  induction n as [n IH] using lt_wf_ind.
  intros lo hi best st b st' F Hn Hrun Hsub Hlo Hhi Hrange Hacc Hrej.
  rewrite fitSearch_step in Hrun.
  destruct (decide (lo <= hi)%Z) as [Hle|Hgt].
  - pose proof (mid_bounds lo hi Hle) as Hmid.
    destruct (flowAt env cfg cw ((lo + hi) / 2) st) as [[r|e] st1] eqn:Htry; [|done].
    destruct (nle (fr_height r) ch) eqn:Hfit.
    + destruct (Stable_fitSearch _ _ _ _ _ _ _ _ Hrun) as [Hsub1 _].
      eapply (IH (Z.to_nat (hi - ((lo + hi) / 2 + 1) + 1))); try exact Hrun;
        try done; try lia.
      left. split; [lia|]. split; [lia|].
      rewrite (fitsAt_replay cw ch _ _ _ _ F Htry); [done | by etrans].
    + destruct (Stable_fitSearch _ _ _ _ _ _ _ _ Hrun) as [Hsub1 _].
      eapply (IH (Z.to_nat ((lo + hi) / 2 - 1 - lo + 1))); try exact Hrun;
        try done; try lia.
      right. replace ((lo + hi) / 2 - 1 + 1)%Z with ((lo + hi) / 2)%Z by lia.
      rewrite (fitsAt_replay cw ch _ _ _ _ F Htry); [done | by etrans].
  - injection Hrun as <- <-. assert (lo = hi + 1)%Z as Hlohi by lia.
    destruct Hacc as [(Hb & Hb10 & Hfits) | [Hb Hl]].
    + left. split; [lia|]. split; [done|].
      destruct Hrej as [<- | Hrej]; [left; lia|].
      right. by replace (best + 1)%Z with (hi + 1)%Z by lia.
    + right. split; [done|].
      destruct Hrej as [<- | Hrej]; [left; lia|].
      right. by replace 10%Z with (hi + 1)%Z by lia.
Qed.

(** C7 (amended): with [textFit = 'multiline'] the final font size is the
    outcome of the integer binary search over [[10, maxFontSize || 120]],
    and [flow] is run once more at that size: the callback reports the
    width (rounded up) and height of that run, which, run again on the
    state it left, gives the same. If some candidate was accepted, the
    chosen size is in the range and fits the available height, and the
    next size, when the range has one, was tried and does not fit. If no
    candidate was accepted, the chosen size is the minimum 10. *)
Theorem measureFunc_fit (cw ch : num) (ns ns' : NodeState) (size : num * num) :
  textFit cfg = FitMultiline ->
  measureFunc env cfg cw ch ns = (Ok size, ns') ->
  exists best : Z,
    finalFontSize ns' = ofZ best
    /\ (exists r, flowAt env cfg cw best (flowState ns') = (Ok r, flowState ns')
                  /\ size = (nceil (fr_width r), fr_height r))
    /\ FitChoice env cfg cw ch (flowState ns') (initialMaxFontSize cfg) best.
Proof.
  intros Hfit Hrun. unfold measureFunc in Hrun. rewrite Hfit in Hrun.
  destruct (fitSearch _ _ _ _ _ _ _ (flowState ns)) as [[best|e] fsA] eqn:Hsearch;
    [|done].
  destruct (flow _ _ _ _ _ _ fsA) as [[r|e] fs1] eqn:Hflow; [|done].
  injection Hrun as <- <-. simpl.
  destruct (Stable_flow _ _ _ _ _ _ _ Hflow) as [Hsub _].
  exists best. split; [done|]. split.
  - exists r. split; [|done]. unfold flowAt.
    rewrite (flow_replay _ _ _ _ _ _ _ Hflow fs1 ltac:(done)).
    by rewrite setCache_cache.
  - destruct (decide (initialMaxFontSize cfg < 10)%Z) as [Hsmall|Hbig].
    + rewrite fitSearch_empty_range in Hsearch by lia.
      injection Hsearch as <- <-. right. split; [done | by left].
    + eapply (fitSearch_choice cw ch (initialMaxFontSize cfg) _ 10 _ 10);
        [reflexivity | exact Hsearch | done | lia | lia | lia | by right | by left].
Qed.

(** C8 (amended): for a placed segment on a line of recorded width [w], in
    a container of width [W]: when [w] is not zero, the final x-offset is
    the start-aligned x plus [(W - w) / 2] for [center], plus [W - w] for
    [right] and [end], and the start-aligned x itself otherwise; when [w]
    is zero the x-offset is the start-aligned x whatever [textAlign] is. *)
Theorem alignedLeftOffset_spec (widths : list num) (W w : num)
        (layout : PlacedSegment) :
  widths !! ps_line layout = Some w ->
  alignedLeftOffset cfg widths W layout
  = if truthy w then claimedLeftOffset cfg w W layout else ps_x layout.
Proof.
  intros Hw. unfold alignedLeftOffset, claimedLeftOffset. rewrite Hw.
  destruct (truthy w); simpl; [|done]. by destruct (textAlign cfg).
Qed.

End FitFacts.

(** ** The statements at concrete inputs *)

Import Sample.

(** C1 (code defect): two forced breaks in a row, words [a, b, c] with
    [requiredBreaks = [false, true, true]]. After the first break the
    current line is empty, and the second break flushes it: shaping the
    empty line throws a [TypeError], which leaves [flow] and the measure
    callback as an exception, so that layout produces no result. *)
Theorem empty_line_throws :
  (exists ls,
      fst (flowLoop ltrEnv twoBreaks 3%Z 1%Z 0%Z (engineOf 1) ["a"; "b"] 0
                    initialLoop emptyState)
      = Ok ls
      /\ currentLineWords ls = [] /\ lines ls = 1 /\ totalHeight ls = 2%Z)
  /\ forcedBreakAt twoBreaks 2 = true
  /\ fst (shapeLineWithBidiRuns ltrEnv twoBreaks [] 0%Z 1 2%Z 3%Z (engineOf 1)
                                emptyState)
     = Throw TypeError
  /\ fst (flow ltrEnv twoBreaks 3%Z 1%Z 0%Z (engineOf 1) emptyState)
     = Throw TypeError
  /\ fst (measureFunc ltrEnv twoBreaks 3%Z 100%Z emptyNode) = Throw TypeError.
Proof.
  split.
  { eexists. split; [vm_compute; reflexivity|]. by repeat split. }
  split; [reflexivity|].
  split; [|split]; vm_compute; reflexivity.
Qed.


Lemma pair_of_fst {A B} (p : A * B) (a : A) : fst p = a -> p = (a, snd p).
Proof. destruct p. simpl. by intros ->. Qed.

(** C5 (code defect): words [a, b, cc] with a forced break at "b", in a
    container of width 1. After the forced break the current line is empty,
    so "cc", of width 2, is the first word of its line and the rule asks
    for no break. The code tests the index of the word instead
    ([i && ...]): it takes the soft-wrap branch, flushes the empty line,
    and shaping that line throws a [TypeError]. *)
Theorem soft_wrap_on_empty_line_throws :
  exists ls,
    fst (flowLoop ltrEnv wideAfterBreak 1%Z 1%Z 0%Z (engineOf 1) ["a"; "b"] 0
                  initialLoop emptyState)
    = Ok ls
    /\ currentLineWords ls = [] /\ currentLineWidth ls = 0%Z
    /\ forcedBreakAt wideAfterBreak 2 = false
    /\ fst (measureWord ltrEnv wideAfterBreak 1%Z 0%Z "cc"
              (snd (flowLoop ltrEnv wideAfterBreak 1%Z 1%Z 0%Z (engineOf 1)
                             ["a"; "b"] 0 initialLoop emptyState)))
       = Ok 2%Z
    /\ claimedBreak wideAfterBreak 2 "cc" ls 1%Z 2%Z = false
    /\ willWrap wideAfterBreak 2 "cc" 2%Z (currentLineWidth ls) 1%Z = true
    /\ fst (flowStep ltrEnv wideAfterBreak 1%Z 1%Z 0%Z (engineOf 1) 2 "cc" ls
              (snd (flowLoop ltrEnv wideAfterBreak 1%Z 1%Z 0%Z (engineOf 1)
                             ["a"; "b"] 0 initialLoop emptyState)))
       = Throw TypeError
    /\ fst (flow ltrEnv wideAfterBreak 1%Z 1%Z 0%Z (engineOf 1) emptyState)
       = Throw TypeError.
Proof.
  eexists. split; [vm_compute; reflexivity|].
  repeat split; vm_compute; reflexivity.
Qed.

Lemma flow_line_limit_witness :
  (0 <= lineLimit oneLine)%Z
  /\ let st' := snd (flow ltrEnv oneLine 3%Z 1%Z 0%Z (engineOf 1) emptyState) in
     (Z.of_nat (length (lineWidths st')) <= lineLimit oneLine)%Z
     /\ length (baselines st') = length (lineWidths st')
     /\ length (lineSegmentNumber st') = length (lineWidths st')
     /\ Forall (fun p => (Z.of_nat (ps_line p) < lineLimit oneLine)%Z)
               (placedSegments st')
     /\ forall rest i ls st0,
         (lineLimit oneLine <= Z.of_nat (lines ls))%Z ->
         flowLoop ltrEnv oneLine 3%Z 1%Z 0%Z (engineOf 1) rest i ls st0 = (Ok ls, st0).
Proof.
  split; [simpl; lia|].
  apply (flow_line_limit ltrEnv oneLine 3%Z 1%Z 0%Z (engineOf 1) emptyState).
  simpl. lia.
Defined.

(** Nothing fits a height of 5: the search falls back on size 10, whose
    measured height is 20. *)
Lemma fit_counterexample :
  fst (measureFunc ltrEnv (fitted ["a"]) 100%Z 5%Z emptyNode) = Ok (1%Z, 20%Z)
  /\ finalFontSize (snd (measureFunc ltrEnv (fitted ["a"]) 100%Z 5%Z emptyNode)) = 10%Z
  /\ fitsAt ltrEnv (fitted ["a"]) 100%Z 5%Z
            (flowState (snd (measureFunc ltrEnv (fitted ["a"]) 100%Z 5%Z emptyNode))) 10
     = false.
Proof. split; [|split]; vm_compute; reflexivity. Qed.

Lemma measureFunc_fit_witness :
  textFit (fitted ["ab"; "cd"; "e"]) = FitMultiline
  /\ measureFunc ltrEnv (fitted ["ab"; "cd"; "e"]) 100%Z 50%Z emptyNode
     = (Ok (5%Z, 40%Z),
        snd (measureFunc ltrEnv (fitted ["ab"; "cd"; "e"]) 100%Z 50%Z emptyNode))
  /\ exists best : Z,
      finalFontSize (snd (measureFunc ltrEnv (fitted ["ab"; "cd"; "e"]) 100%Z 50%Z
                                      emptyNode))
      = ofZ best
      /\ (exists r,
             flowAt ltrEnv (fitted ["ab"; "cd"; "e"]) 100%Z best
                    (flowState (snd (measureFunc ltrEnv (fitted ["ab"; "cd"; "e"])
                                                 100%Z 50%Z emptyNode)))
             = (Ok r,
                flowState (snd (measureFunc ltrEnv (fitted ["ab"; "cd"; "e"])
                                            100%Z 50%Z emptyNode)))
             /\ (5%Z, 40%Z) = (nceil (fr_width r), fr_height r))
      /\ FitChoice ltrEnv (fitted ["ab"; "cd"; "e"]) 100%Z 50%Z
                   (flowState (snd (measureFunc ltrEnv (fitted ["ab"; "cd"; "e"])
                                                100%Z 50%Z emptyNode)))
                   (initialMaxFontSize (fitted ["ab"; "cd"; "e"])) best.
Proof.
  assert (measureFunc ltrEnv (fitted ["ab"; "cd"; "e"]) 100%Z 50%Z emptyNode
          = (Ok (5%Z, 40%Z),
             snd (measureFunc ltrEnv (fitted ["ab"; "cd"; "e"]) 100%Z 50%Z emptyNode)))
    as Hrun by (apply pair_of_fst; vm_compute; reflexivity).
  split; [reflexivity|]. split; [exact Hrun|].
  exact (measureFunc_fit ltrEnv (fitted ["ab"; "cd"; "e"]) 100%Z 50%Z emptyNode
           (snd (measureFunc ltrEnv (fitted ["ab"; "cd"; "e"]) 100%Z 50%Z emptyNode))
           (5%Z, 40%Z) eq_refl Hrun).
Defined.

(** A line of width 0 centred in a container of width 10: the segment stays
    at x = 0, where the centring rule gives 5. *)
Lemma alignment_counterexample :
  exists layout,
    placedSegments (snd (flow ltrEnv centredZeroWidth 10%Z 1%Z (-1)%Z (engineOf 1)
                              emptyState))
    = [layout]
    /\ lineWidths (snd (flow ltrEnv centredZeroWidth 10%Z 1%Z (-1)%Z (engineOf 1)
                             emptyState))
       !! ps_line layout = Some 0%Z
    /\ alignedLeftOffset centredZeroWidth
         (lineWidths (snd (flow ltrEnv centredZeroWidth 10%Z 1%Z (-1)%Z (engineOf 1)
                                emptyState)))
         10%Z layout = 0%Z
    /\ claimedLeftOffset centredZeroWidth 0%Z 10%Z layout = 5%Z.
Proof.
  eexists. split; [vm_compute; reflexivity|].
  split; [|split]; vm_compute; reflexivity.
Qed.

Lemma alignedLeftOffset_spec_witness :
  [4%Z] !! ps_line placedA = Some 4%Z
  /\ alignedLeftOffset centred [4%Z] 10%Z placedA
     = if truthy 4%Z then claimedLeftOffset centred 4%Z 10%Z placedA
       else ps_x placedA.
Proof.
  split; [reflexivity|].
  apply (alignedLeftOffset_spec centred [4%Z] 10%Z 4%Z placedA).
  reflexivity.
Defined.

Lemma flow_no_words_witness :
  words (plain [] [] 10) = []
  /\ flow ltrEnv (plain [] [] 10) 3%Z 1%Z 0%Z (engineOf 1) emptyState
     = (Ok (mkFlowResult nzero nzero), mkFlowState (cache emptyState) [] [] [] []).
Proof.
  split; [reflexivity|].
  apply (flow_no_words ltrEnv (plain [] [] 10) 3%Z 1%Z 0%Z (engineOf 1) emptyState).
  reflexivity.
Defined.

(** * Further properties of the code *)

(** ** The measurement cache *)

Lemma string_app_assoc (a b c : string) : (a +:+ b) +:+ c = a +:+ (b +:+ c).
Proof.
  induction a as [|x a IH]; [reflexivity|].
  change (String x ((a +:+ b) +:+ c) = String x (a +:+ (b +:+ c))).
  by rewrite IH.
Qed.

Section CacheFacts.
Context `{Number}.
Variable env : Env.
Variable engine : FontEngine.
Variable isImg : string -> bool.

(** X1: [measureGrapheme] memoizes: the width it returns is stored under the
    grapheme's key, no entry already in the cache is changed, and the same
    call made again returns the same width and leaves the state as it
    is. *)
Theorem measureGrapheme_memo (g : string) (f s : num) (st : FlowState) :
  exists w st1,
    measureGrapheme engine g f s st = (Ok w, st1)
    /\ cache st1 !! cacheKey g f s = Some w
    /\ cache st ⊆ cache st1
    /\ measureGrapheme engine g f s st1 = (Ok w, st1).
Proof.
  unfold measureGrapheme.
  destruct (cache st !! cacheKey g f s) as [w|] eqn:Hlk.
  - exists w, st. by rewrite Hlk.
  - eexists _, _. split; [reflexivity|]. simpl.
    rewrite lookup_insert_eq. split; [done|]. split; [|done].
    by apply insert_subseteq.
Qed.

(** X2: at one font size and letter spacing two graphemes never share a
    cache entry: measuring [g] leaves the entry of every other grapheme
    [g'] as it was. *)
Theorem measureGrapheme_other_entry (g g' : string) (f s : num) (st : FlowState) :
  g <> g' ->
  cache (snd (measureGrapheme engine g f s st)) !! cacheKey g' f s
  = cache st !! cacheKey g' f s.
Proof.
  intros Hne. unfold measureGrapheme.
  destruct (cache st !! cacheKey g f s) as [w|]; [done|]. simpl.
  apply lookup_insert_ne. intros Heq. apply Hne.
  unfold cacheKey in Heq. by apply string_app_inj_r in Heq.
Qed.

(** X3: across font sizes the keys can collide, because the key is the
    plain concatenation [grapheme-fontSize-letterSpacing]: when the text of
    [f'] is a minus sign followed by the text of [f], the grapheme [g] at
    size [f'] has the key of the grapheme [g-] at size [f], and
    [measureGrapheme] answers with the width cached for the other grapheme
    instead of asking the engine. *)
Theorem measureGrapheme_key_collision (g : string) (f f' s : num) (st : FlowState) :
  show f' = ("-" +:+ show f)%string ->
  cache st !! cacheKey (g +:+ "-") f s = None ->
  cacheKey g f' s = cacheKey (g +:+ "-") f s
  /\ fst (measureGrapheme engine g f' s
            (snd (measureGrapheme engine (g +:+ "-") f s st)))
     = Ok (measure engine (g +:+ "-") f s).
Proof.
  intros Hshow Hfree.
  assert (cacheKey g f' s = cacheKey (g +:+ "-") f s) as Hkey.
  { unfold cacheKey. rewrite Hshow. by rewrite !string_app_assoc. }
  split; [done|].
  unfold measureGrapheme at 2. rewrite Hfree. simpl.
  unfold measureGrapheme. simpl. by rewrite Hkey, lookup_insert_eq.
Qed.

(** X4: graphemes recognized as images never reach the engine or the cache:
    a text made of images only measures one font size per grapheme and
    leaves the state untouched. *)
Theorem measureGraphemeArray_images (gs : list string) (f s : num) (st : FlowState) :
  Forall (fun g => isImg g = true) gs ->
  measureGraphemeArray engine isImg gs f s st
  = (Ok (fold_left (fun width _ => nadd width f) gs nzero), st).
Proof.
  unfold measureGraphemeArray. generalize (@nzero H).
  induction gs as [|g gs IH]; intros width Hall; simpl; [done|].
  inversion Hall as [|? ? Hg Hrest]; subst. rewrite Hg. by apply IH.
Qed.

End CacheFacts.

Section CacheGrowth.
Context `{Number}.
Variable env : Env.
Variable cfg : Config.

(** X5: the cache is additive only: whatever the measure callback does,
    search included, every entry the cache held before the call is still
    there, with the same width, after it. *)
Theorem measureFunc_cache_grows (cw ch : num) (ns : NodeState) :
  cache (flowState ns) ⊆ cache (flowState (snd (measureFunc env cfg cw ch ns))).
Proof.
  unfold measureFunc. destruct (textFit cfg).
  - destruct (flow _ _ _ _ _ _ (flowState ns)) as [r fs1] eqn:Hrun.
    destruct (Stable_flow _ _ _ _ _ _ _ _ _ Hrun) as [Hsub _].
    by destruct r.
  - destruct (fitSearch _ _ _ _ _ _ _ (flowState ns)) as [rb fsA] eqn:Hsearch.
    destruct (Stable_fitSearch _ _ _ _ _ _ _ _ _ _ Hsearch) as [Hsub1 _].
    destruct rb as [best|e]; [|done].
    destruct (flow _ _ _ _ _ _ fsA) as [r fs1] eqn:Hrun.
    destruct (Stable_flow _ _ _ _ _ _ _ _ _ Hrun) as [Hsub2 _].
    destruct r; simpl; by etrans.
Qed.

End CacheGrowth.

Lemma measureGrapheme_other_entry_witness :
  "a"%string <> "b"%string
  /\ cache (snd (measureGrapheme (Sample.engineOf 1) "a" 7%Z 2%Z Sample.emptyState))
       !! cacheKey "b" 7%Z 2%Z
     = cache Sample.emptyState !! cacheKey "b" 7%Z 2%Z.
Proof.
  split; [discriminate|].
  apply (measureGrapheme_other_entry (Sample.engineOf 1) "a" "b" 7%Z 2%Z
                                     Sample.emptyState).
  discriminate.
Defined.

Lemma measureGrapheme_key_collision_witness :
  show (-5)%Z = ("-" +:+ show 5%Z)%string
  /\ cache Sample.emptyState !! cacheKey ("x" +:+ "-") 5%Z 0%Z = None
  /\ cacheKey "x" (-5)%Z 0%Z = cacheKey ("x" +:+ "-") 5%Z 0%Z
  /\ fst (measureGrapheme (Sample.engineOf 1) "x" (-5)%Z 0%Z
            (snd (measureGrapheme (Sample.engineOf 1) ("x" +:+ "-") 5%Z 0%Z
                                  Sample.emptyState)))
     = Ok (measure (Sample.engineOf 1) ("x" +:+ "-") 5%Z 0%Z).
Proof.
  split; [reflexivity|]. split; [reflexivity|].
  apply (measureGrapheme_key_collision (Sample.engineOf 1) "x" 5%Z (-5)%Z 0%Z
                                       Sample.emptyState); reflexivity.
Defined.

Lemma measureGraphemeArray_images_witness :
  Forall (fun g => String.eqb g "*" = true) ["*"; "*"]%string
  /\ measureGraphemeArray (Sample.engineOf 1) (fun g => String.eqb g "*")
                          ["*"; "*"]%string 7%Z 2%Z Sample.emptyState
     = (Ok (fold_left (fun width _ => nadd width 7%Z) ["*"; "*"]%string nzero),
        Sample.emptyState).
Proof.
  assert (Forall (fun g => String.eqb g "*" = true) ["*"; "*"]%string) as Hall
    by (repeat constructor).
  split; [exact Hall|].
  apply (measureGraphemeArray_images (Sample.engineOf 1) (fun g => String.eqb g "*")
                                     ["*"; "*"]%string 7%Z 2%Z Sample.emptyState Hall).
Defined.
(** ** Cache keys of numbers that print without a minus sign *)

Lemma noMinus_app_dash (a b : string) : noMinus (a +:+ String minusSign b) = false.
Proof.
  induction a as [|c a IH]; [reflexivity|].
  change (negb (Ascii.eqb c minusSign) && noMinus (a +:+ String minusSign b) = false).
  rewrite IH. apply andb_false_r.
Qed.

(** The last minus sign of a key is where its letter spacing starts. *)
Lemma app_dash_inj (a a' b b' : string) :
  noMinus b = true -> noMinus b' = true ->
  a +:+ String minusSign b = a' +:+ String minusSign b' -> a = a' /\ b = b'.
Proof.
  intros Hb Hb'. revert a'.
  induction a as [|c a IH]; intros [|c' a'] Heq.
  - by injection Heq as ->.
  - change (String minusSign b = String c' (a' +:+ String minusSign b')) in Heq.
    injection Heq as _ ->. by rewrite noMinus_app_dash in Hb.
  - change (String c (a +:+ String minusSign b) = String minusSign b') in Heq.
    injection Heq as _ <-. by rewrite noMinus_app_dash in Hb'.
  - change (String c (a +:+ String minusSign b) = String c' (a' +:+ String minusSign b')) in Heq.
    injection Heq as -> Heq. destruct (IH _ Heq) as [-> ->]. done.
Qed.

Section PlainKeys.
Context `{Number}.
Variable env : Env.
Variable engine : FontEngine.
Variable isImg : string -> bool.

Lemma cacheKey_split (g : string) (f s : num) :
  cacheKey g f s
  = (g +:+ String minusSign (show f)) +:+ String minusSign (show s).
Proof. unfold cacheKey. rewrite string_app_assoc. reflexivity. Qed.

Lemma cacheKey_plain_inj (g g' : string) (f f' s s' : num) :
  printsPlain f -> printsPlain f' -> printsPlain s -> printsPlain s' ->
  cacheKey g f s = cacheKey g' f' s' ->
  g = g' /\ show f = show f' /\ show s = show s'.
Proof.
  unfold printsPlain. intros Hf Hf' Hs Hs' Heq.
  rewrite !cacheKey_split in Heq.
  apply app_dash_inj in Heq as [Heq ->]; [|done..].
  by apply app_dash_inj in Heq as [-> ->].
Qed.

Lemma CachePlain_coherent (c : gmap string num) (f s : num) :
  ReadsPrinted engine -> CachePlain engine c ->
  printsPlain f -> printsPlain s ->
  CacheCoherentAt engine f s c.
Proof.
  intros Hread Hc Hf Hs g w Hlk.
  destruct (Hc _ _ Hlk) as (g' & f' & s' & Hkey & Hf' & Hs' & ->).
  apply cacheKey_plain_inj in Hkey as (-> & Hshowf & Hshows); [|done..].
  symmetry. by apply Hread.
Qed.

Lemma measureGraphemeLoop_plain gs f s width st :
  printsPlain f -> printsPlain s ->
  CachePlain engine (cache st) ->
  CachePlain engine
    (cache (snd (measureGraphemeLoop engine isImg gs f s width st))).
Proof.
  intros Hf Hs. revert width st.
  induction gs as [|g gs IH]; intros width st Hc; simpl; [done|].
  destruct (isImg g); [by apply IH|].
  unfold bind, measureGrapheme.
  destruct (cache st !! cacheKey g f s) as [w|] eqn:Hlk; [by apply IH|].
  apply IH. simpl. intros key w Hkey.
  destruct (decide (cacheKey g f s = key)) as [<-|Hne].
  - rewrite lookup_insert_eq in Hkey. injection Hkey as <-. by exists g, f, s.
  - rewrite lookup_insert_ne in Hkey by done. by apply Hc.
Qed.

Lemma afterCalls_plain calls st :
  Forall (fun call => printsPlain call.1.2 /\ printsPlain call.2) calls ->
  CachePlain engine (cache st) ->
  CachePlain engine (cache (afterCalls engine isImg calls st)).
Proof.
  revert st. induction calls as [|[[gs f] s] calls IH]; intros st Hall Hc; [done|].
  inversion Hall as [|? ? [Hf Hs] Hrest]; subst. simpl in *.
  apply IH; [done|]. by apply measureGraphemeLoop_plain.
Qed.

(** X25: a fresh measurer used only at font sizes and letter spacings
    that print without a minus sign is transparent: whatever was measured
    before, [measureText(t, f, s)] at such [f] and [s] is the sum, over the
    grapheme clusters of [t] in order, of the engine's width of the
    grapheme, an image grapheme counting for exactly [f]; the engine is
    taken to give one width at numbers that print the same. *)
Theorem measureText_sum_fresh (calls : list (list string * num * num))
        (t : string) (f s : num) (st : FlowState) :
  ReadsPrinted engine ->
  cache st = ∅ ->
  Forall (fun call => printsPlain call.1.2 /\ printsPlain call.2) calls ->
  printsPlain f -> printsPlain s ->
  fst (measureText env engine isImg t f s (afterCalls engine isImg calls st))
  = Ok (sumWidths engine isImg (segment env t) f s nzero).
Proof.
  intros Hread Hempty Hcalls Hf Hs.
  apply measureText_sum, CachePlain_coherent; [done| |done..].
  apply afterCalls_plain; [done|].
  intros key w Hlk. by rewrite Hempty, lookup_empty in Hlk.
Qed.

End PlainKeys.

Lemma engineOf_reads_printed (n : Z) : ReadsPrinted (Sample.engineOf n).
Proof.
  intros g f f' s s' Hf Hs. simpl in *.
  apply (inj pretty) in Hf. apply (inj pretty) in Hs. by subst.
Qed.

(** Two calls at other sizes, one of them for a grapheme that ends in a
    minus sign, then "a*b" at size 7 and spacing 2 with "*" an image:
    9 + 7 + 9. *)
Lemma measureText_sum_fresh_witness :
  ReadsPrinted (Sample.engineOf 1)
  /\ cache Sample.emptyState = ∅
  /\ Forall (fun call : list string * Z * Z =>
               printsPlain call.1.2 /\ printsPlain call.2)
            [(["a-"; "b"]%string, 5%Z, 0%Z); (["a"]%string, 75%Z, 2%Z)]
  /\ printsPlain 7%Z /\ printsPlain 2%Z
  /\ fst (measureText Sample.ltrEnv (Sample.engineOf 1) (fun g => String.eqb g "*")
                      "a*b" 7%Z 2%Z
                      (afterCalls (Sample.engineOf 1) (fun g => String.eqb g "*")
                                  [(["a-"; "b"]%string, 5%Z, 0%Z);
                                   (["a"]%string, 75%Z, 2%Z)]
                                  Sample.emptyState))
     = Ok 25%Z.
Proof.
  assert (Forall (fun call : list string * Z * Z =>
                    printsPlain call.1.2 /\ printsPlain call.2)
                 [(["a-"; "b"]%string, 5%Z, 0%Z); (["a"]%string, 75%Z, 2%Z)])
    as Hcalls by (repeat constructor).
  split; [apply engineOf_reads_printed|]. split; [reflexivity|].
  split; [exact Hcalls|]. split; [reflexivity|]. split; [reflexivity|].
  apply (measureText_sum_fresh Sample.ltrEnv (Sample.engineOf 1)
           (fun g => String.eqb g "*") _ "a*b" 7%Z 2%Z Sample.emptyState
           (engineOf_reads_printed 1) eq_refl Hcalls); reflexivity.
Defined.

(** ** Runs and the line text *)

Lemma string_app_nil_r (a : string) : a +:+ EmptyString = a.
Proof.
  induction a as [|x a IH]; [reflexivity|].
  change (String x (a +:+ EmptyString) = String x a). by rewrite IH.
Qed.

Lemma join_cons (w : string) (ws : list string) :
  Js.join (w :: ws) = w +:+ Js.join ws.
Proof.
  unfold Js.join. destruct ws as [|w' ws]; simpl.
  - by rewrite string_app_nil_r.
  - reflexivity.
Qed.

Lemma join_app (a b : list string) : Js.join (a ++ b) = Js.join a +:+ Js.join b.
Proof.
  induction a as [|w a IH]; [reflexivity|].
  rewrite <- app_comm_cons, !join_cons, IH. by rewrite string_app_assoc.
Qed.

Lemma substring_split (s : string) (a b : nat) :
  String.substring 0 a s +:+ String.substring a b s = String.substring 0 (a + b) s.
Proof.
  revert s. induction a as [|a IH]; intros s.
  - destruct s; reflexivity.
  - destruct s as [|c s]; [reflexivity|].
    change (String c (String.substring 0 a s +:+ String.substring a b s)
            = String c (String.substring 0 (a + b) s)).
    by rewrite IH.
Qed.

Lemma substring_full (s : string) : String.substring 0 (String.length s) s = s.
Proof. induction s as [|c s IH]; simpl; [done | by rewrite IH]. Qed.

Lemma scan_unchanged (lvls : list nat) (idxs : list nat) runs cur si :
  Forall (fun i => lvls !!! i = cur) idxs ->
  fold_left (scanStep lvls) idxs (runs, cur, si) = (runs, cur, si).
Proof.
  induction idxs as [|i idxs IH]; intros Hall; simpl; [done|].
  inversion Hall as [|? ? Hi Hrest]; subst.
  destruct (decide (lvls !!! i <> lvls !!! i)) as [Hne|_]; [done|].
  by apply IH.
Qed.

Lemma getRuns_one_level (text : string) (e : option EmbeddingResult)
      (lvls : list nat) (l : nat) :
  text <> EmptyString ->
  levelArray e = Some lvls ->
  length lvls = String.length text ->
  (forall j, j < length lvls -> lvls !! j = Some l) ->
  getRuns text e = [mkRun 0 (String.length text) l].
Proof.
  intros Hne He Hlen Hall.
  assert (0 < length lvls) as Hpos.
  { rewrite Hlen. destruct text; [done | simpl; lia]. }
  assert (forall j, j < length lvls -> lvls !!! j = l) as Htot.
  { intros j Hj. apply list_lookup_total_correct. by apply Hall. }
  rewrite (getRuns_levels text e lvls He) by (first [done | destruct lvls; [simpl in *; lia | done]]).
  rewrite (Htot 0 Hpos), scan_unchanged; [done|].
  apply Forall_forall. intros i Hi. apply elem_of_seq in Hi.
  apply Htot. lia.
Qed.

(** X6: a line whose characters all have the same embedding level [l]
    (plain left-to-right text, for one) is a single run at that level over
    the whole line. *)
Theorem getRuns_uniform (text : string) (e : option EmbeddingResult)
        (lvls : list nat) (l : nat) :
  text <> EmptyString ->
  levelArray e = Some lvls ->
  length lvls = String.length text ->
  (forall j, j < length lvls -> lvls !! j = Some l) ->
  getRuns text e = [mkRun 0 (String.length text) l].
Proof. apply getRuns_one_level. Qed.

(** Invariant of the scan for the text: the runs pushed so far cover
    exactly the first [startIndex] characters. *)
Lemma scan_slices (text : string) (lvls : list nat) (n : nat) :
  let '(runs, _, startIndex) :=
    fold_left (scanStep lvls) (seq 1 n) ([], lvls !!! 0, 0) in
  Js.join (map (fun r => Js.slice (start r) (end_ r) text) runs)
  = String.substring 0 startIndex text
  /\ startIndex <= n.
Proof.
  induction n as [|n IH]; [simpl; split; [by destruct text | lia]|].
  rewrite seq_S, fold_left_app. simpl.
  destruct (fold_left _ _ _) as [[runs cur] si]. destruct IH as [IH Hsi].
  unfold scanStep. destruct (decide (lvls !!! S n <> cur)); [|split; [done | lia]].
  split; [|done].
  rewrite map_app, join_app, IH. simpl map. rewrite join_cons.
  change (Js.join []) with EmptyString. rewrite string_app_nil_r.
  unfold Js.slice. simpl start. simpl end_.
  rewrite substring_split. f_equal. lia.
Qed.

Lemma getRuns_join_slices (text : string) (e : option EmbeddingResult) :
  Js.join (map (fun r => Js.slice (start r) (end_ r) text) (getRuns text e)) = text.
Proof.
  assert (Js.join (map (fun r => Js.slice (start r) (end_ r) text) (singleRun text))
          = text) as Hsingle.
  { unfold singleRun, Js.slice. simpl. rewrite Nat.sub_0_r.
    change (Js.join [?x]) with x. apply substring_full. }
  unfold getRuns. destruct e as [r|]; [|done].
  destruct (levels r) as [lvls|]; [|done].
  destruct (decide (length lvls = 0)); [done|].
  destruct (decide (String.length text <> length lvls)) as [|Hlen]; [done|].
  apply dec_stable in Hlen.
  pose proof (scan_slices text lvls (String.length text - 1)) as Hinv.
  destruct (fold_left _ _ _) as [[runs cur] si]. destruct Hinv as [Hinv Hsi].
  rewrite map_app, join_app, Hinv. simpl map. rewrite join_cons.
  change (Js.join []) with EmptyString. rewrite string_app_nil_r.
  unfold Js.slice. simpl start. simpl end_.
  rewrite substring_split.
  replace (si + (String.length text - si)) with (String.length text) by lia.
  apply substring_full.
Qed.

(** X7: the runs lose and repeat nothing: for every line and every bidi
    result, the substrings [lineText.slice(run.start, run.end)] of the runs
    of [getRuns], put end to end, are the line. *)
Theorem getRuns_slices (text : string) (e : option EmbeddingResult) :
  Js.join (map (fun r => Js.slice (start r) (end_ r) text) (getRuns text e)) = text.
Proof. apply getRuns_join_slices. Qed.

Lemma getRuns_uniform_witness :
  "abc"%string <> EmptyString
  /\ levelArray (Some (mkEmbedding (Some [1; 1; 1]))) = Some [1; 1; 1]
  /\ length [1; 1; 1] = String.length "abc"
  /\ (forall j, j < length [1; 1; 1] -> [1; 1; 1] !! j = Some 1)
  /\ getRuns "abc" (Some (mkEmbedding (Some [1; 1; 1]))) = [mkRun 0 (String.length "abc") 1].
Proof.
  assert (forall j, j < length [1; 1; 1] -> [1; 1; 1] !! j = Some 1) as Hall.
  { intros [|[|[|j]]] Hj; simpl in *; first [reflexivity | lia]. }
  split; [discriminate|]. split; [reflexivity|]. split; [reflexivity|].
  split; [exact Hall|].
  apply (getRuns_uniform "abc" (Some (mkEmbedding (Some [1; 1; 1]))) [1; 1; 1] 1);
    [discriminate | reflexivity | reflexivity | exact Hall].
Defined.

(** ** Helpers of the run shaper *)

Section ShaperHelpers.
Context `{Number}.

Lemma segStartLoop_ok (segs : list ShapedRunSegment) (n a acc : nat) :
  a + n <= length segs ->
  segStartLoop segs (seq a n) acc
  = Ok (acc + sum_list (map (fun seg => String.length (srs_text seg))
                            (take n (drop a segs)))).
Proof.
  revert a acc. induction n as [|n IH]; intros a acc Hle; simpl.
  - f_equal. lia.
  - destruct (lookup_lt_is_Some_2 segs a ltac:(lia)) as [seg Hseg].
    rewrite Hseg, IH by lia. rewrite (drop_S _ _ _ Hseg). simpl.
    f_equal. lia.
Qed.

Lemma segStartLoop_throw (segs : list ShapedRunSegment) (n a acc : nat) :
  a <= length segs < a + n ->
  segStartLoop segs (seq a n) acc = Throw TypeError.
Proof.
  revert a acc. induction n as [|n IH]; intros a acc Hlt; [lia|]. simpl.
  destruct (segs !! a) as [seg|] eqn:Hseg; [|done].
  apply lookup_lt_Some in Hseg. apply IH. lia.
Qed.

Lemma segStartForSegment_ok (segs : list ShapedRunSegment) (k : nat) :
  k <= length segs ->
  segStartForSegment segs k
  = Ok (sum_list (map (fun seg => String.length (srs_text seg)) (take k segs))).
Proof.
  intros Hle. unfold segStartForSegment.
  rewrite segStartLoop_ok by lia. by rewrite drop_0.
Qed.

(** X8: [segStartForSegment] returns the number of characters before the
    segment [segIndex], the sum of the text lengths of the segments before
    it, for every index up to the number of segments; for a larger index it
    reads [.text] of a missing element and throws. *)
Theorem segStartForSegment_bounds (segs : list ShapedRunSegment) (segIndex : nat) :
  segStartForSegment segs segIndex
  = if decide (segIndex <= length segs)
    then Ok (sum_list (map (fun seg => String.length (srs_text seg))
                           (take segIndex segs)))
    else Throw TypeError.
Proof.
  destruct (decide (segIndex <= length segs)) as [Hle|Hgt].
  - by apply segStartForSegment_ok.
  - apply segStartLoop_throw. lia.
Qed.

End ShaperHelpers.

Lemma list_ascii_app (a b : string) :
  String.list_ascii_of_string (a +:+ b)
  = String.list_ascii_of_string a ++ String.list_ascii_of_string b.
Proof.
  induction a as [|c a IH]; [reflexivity|].
  change (c :: String.list_ascii_of_string (a +:+ b)
          = c :: (String.list_ascii_of_string a ++ String.list_ascii_of_string b)).
  by rewrite IH.
Qed.

Lemma get_list_ascii (t : string) (j : nat) :
  String.get j t = String.list_ascii_of_string t !! j.
Proof.
  revert j. induction t as [|c t IH]; intros [|j]; simpl; first [done | apply IH].
Qed.

Lemma length_list_ascii (t : string) :
  length (String.list_ascii_of_string t) = String.length t.
Proof. induction t as [|c t IH]; simpl; [done | by rewrite IH]. Qed.

Lemma collect_fold_chars (runText : string) (reordered : list nat) (off : nat)
      (idxs : list nat) (acc : string) :
  String.list_ascii_of_string
    (fold_left
       (fun result i =>
          match reordered !! i with
          | Some idx =>
              if (off <=? idx) && (idx <? off + String.length runText)
              then result +:+ Js.charAt (idx - off) runText
              else result
          | None => result
          end) idxs acc)
  = String.list_ascii_of_string acc ++ flat_map (pickChars runText reordered off) idxs.
Proof.
  revert acc. induction idxs as [|i idxs IH]; intros acc; simpl.
  - by rewrite app_nil_r.
  - rewrite IH. unfold pickChars at 2.
    destruct (reordered !! i) as [idx|]; [|done].
    destruct (_ && _); [|done].
    rewrite list_ascii_app, <- app_assoc. unfold Js.charAt.
    by destruct (String.get _ _).
Qed.

Lemma collectSubstring_chars (runText : string) (reordered : list nat)
      (start end_ off : nat) :
  collectSubstring runText reordered start end_ off
  = String.string_of_list_ascii
      (flat_map (pickChars runText reordered off) (seq start (end_ - start))).
Proof.
  rewrite <- (String.string_of_list_ascii_of_string (collectSubstring _ _ _ _ _)).
  unfold collectSubstring. by rewrite collect_fold_chars.
Qed.

Lemma flat_map_in_order {A} (g : nat -> list A) (l : list A) (a : nat) :
  (forall j c, l !! j = Some c -> g (a + j) = [c]) ->
  flat_map g (seq a (length l)) = l.
Proof.
  revert a. induction l as [|c l IH]; intros a Hg; simpl; [done|].
  rewrite <- (Nat.add_0_r a) at 1. rewrite (Hg 0 c eq_refl). simpl. f_equal.
  apply IH. intros j c' Hj. replace (S a + j) with (a + S j) by lia. by apply Hg.
Qed.

Lemma flat_map_reversed {A} (g : nat -> list A) (l : list A) (a : nat) :
  (forall j c, l !! j = Some c -> g (a + (length l - 1 - j)) = [c]) ->
  flat_map g (seq a (length l)) = rev l.
Proof.
  revert a. induction l as [|c l IH] using rev_ind; intros a Hg; [done|].
  rewrite rev_unit, length_app. simpl length. rewrite Nat.add_1_r. simpl.
  assert (g a = [c]) as ->.
  { pose proof (Hg (length l) c) as Hc. rewrite length_app in Hc. simpl in Hc.
    replace (a + (length l + 1 - 1 - length l)) with a in Hc by lia.
    apply Hc. by rewrite lookup_app_r, Nat.sub_diag. }
  simpl. f_equal. apply IH. intros j c' Hj.
  pose proof (lookup_lt_Some _ _ _ Hj) as Hlt.
  pose proof (Hg j c') as Hc. rewrite length_app in Hc. simpl in Hc.
  replace (S a + (length l - 1 - j)) with (a + (length l + 1 - 1 - j)) by lia.
  apply Hc. by rewrite lookup_app_l.
Qed.

Lemma flat_map_all_nil {A B} (g : A -> list B) (l : list A) :
  Forall (fun x => g x = []) l -> flat_map g l = [].
Proof.
  induction 1 as [|x l Hx _ IH]; simpl; [done|]. by rewrite Hx, IH.
Qed.

Section CollectFacts.
Context `{Number}.

Lemma collectSubstring_in_order (runText : string) (reordered : list nat)
      (start off : nat) :
  (forall j, j < String.length runText -> reordered !! (start + j) = Some (off + j)) ->
  collectSubstring runText reordered start (start + String.length runText) off
  = runText.
Proof.
  intros Hwin. rewrite collectSubstring_chars.
  replace (start + String.length runText - start) with (String.length runText) by lia.
  rewrite <- length_list_ascii.
  rewrite (flat_map_in_order _ (String.list_ascii_of_string runText)).
  - apply String.string_of_list_ascii_of_string.
  - intros j c Hj. pose proof (lookup_lt_Some _ _ _ Hj) as Hlt.
    rewrite length_list_ascii in Hlt. unfold pickChars.
    rewrite (Hwin j Hlt).
    replace (off + j - off) with j by lia.
    rewrite get_list_ascii, Hj.
    destruct (Nat.leb_spec off (off + j)); [|lia].
    by destruct (Nat.ltb_spec (off + j) (off + String.length runText)); [|lia].
Qed.

(** X9: when the window of [reordered] lists the indices of the run in
    logical order, [collectSubstring] gives back the text of the run. *)
Theorem collectSubstring_logical_order (runText : string) (reordered : list nat)
        (start off : nat) :
  (forall j, j < String.length runText -> reordered !! (start + j) = Some (off + j)) ->
  collectSubstring runText reordered start (start + String.length runText) off
  = runText.
Proof. apply collectSubstring_in_order. Qed.

Lemma collectSubstring_backwards (runText : string) (reordered : list nat)
      (start off : nat) :
  (forall j, j < String.length runText ->
             reordered !! (start + j) = Some (off + (String.length runText - 1 - j))) ->
  collectSubstring runText reordered start (start + String.length runText) off
  = reverseString runText.
Proof.
  unfold reverseString.
  intros Hwin. rewrite collectSubstring_chars. f_equal.
  replace (start + String.length runText - start) with (String.length runText) by lia.
  rewrite <- length_list_ascii.
  apply flat_map_reversed.
  intros j c Hj. pose proof (lookup_lt_Some _ _ _ Hj) as Hlt.
  rewrite length_list_ascii in *. unfold pickChars.
  rewrite (Hwin (String.length runText - 1 - j)) by lia.
  replace (String.length runText - 1 - (String.length runText - 1 - j)) with j by lia.
  replace (off + j - off) with j by lia.
  rewrite get_list_ascii, Hj.
  destruct (Nat.leb_spec off (off + j)); [|lia].
  by destruct (Nat.ltb_spec (off + j) (off + String.length runText)); [|lia].
Qed.

(** X10: when the window lists the indices of the run from the last to the
    first, as for a right-to-left run, [collectSubstring] gives the text of
    the run with its characters in reverse order. *)
Theorem collectSubstring_reversed (runText : string) (reordered : list nat)
        (start off : nat) :
  (forall j, j < String.length runText ->
             reordered !! (start + j) = Some (off + (String.length runText - 1 - j))) ->
  collectSubstring runText reordered start (start + String.length runText) off
  = reverseString runText.
Proof. apply collectSubstring_backwards. Qed.

(** X11: an index outside the run contributes nothing: a window none of
    whose indices falls in [[offsetInLine, offsetInLine + runText.length)]
    collects the empty string. *)
Theorem collectSubstring_foreign (runText : string) (reordered : list nat)
        (start end_ off : nat) :
  (forall i idx, start <= i < end_ -> reordered !! i = Some idx ->
                 idx < off \/ off + String.length runText <= idx) ->
  collectSubstring runText reordered start end_ off = EmptyString.
Proof.
  intros Hout. rewrite collectSubstring_chars.
  assert (flat_map (pickChars runText reordered off) (seq start (end_ - start)) = [])
    as ->; [|done].
  apply flat_map_all_nil. apply Forall_forall. intros i Hi%elem_of_seq.
  unfold pickChars. destruct (reordered !! i) as [idx|] eqn:Hidx; [|done].
  destruct (Hout i idx ltac:(lia) Hidx) as [Hlo|Hhi].
  - by destruct (Nat.leb_spec off idx); [lia|].
  - destruct (Nat.ltb_spec idx (off + String.length runText)); [lia|].
    by rewrite andb_false_r.
Qed.

End CollectFacts.

(** ** When the run shaper returns *)

Lemma join_length (ws : list string) :
  String.length (Js.join ws) = sum_list (map String.length ws).
Proof.
  induction ws as [|w ws IH]; [reflexivity|].
  rewrite join_cons, string_app_length, IH. reflexivity.
Qed.

Section ShaperReturns.
Context `{Number}.
Variable env : Env.
Variable cfg : Config.

Lemma shapeRuns_ok lineText useEngine runs segs a d st :
  exists segs' asc desc c',
    shapeRuns env cfg lineText useEngine runs (segs, a, d) st
    = (Ok (segs', asc, desc), setCache c' st)
    /\ map srs_text segs'
       = map srs_text segs ++ map (fun r => Js.slice (start r) (end_ r) lineText) runs.
Proof.
  revert segs a d st. induction runs as [|run runs IH]; intros segs a d st; simpl.
  - exists segs, a, d, (cache st). rewrite setCache_cache, app_nil_r. done.
  - unfold bind at 1. unfold shapeRun, bind at 1.
    destruct (isImage cfg _).
    + unfold ret at 1. simpl.
      match goal with
      | |- context [shapeRuns _ _ _ _ _ (?s, ?x, ?y) st] =>
          destruct (IH s x y st) as (segs' & asc & desc & c' & -> & Htexts)
      end.
      exists segs', asc, desc, c'. split; [done|].
      rewrite Htexts, map_app. simpl. by rewrite <- app_assoc.
    + unfold bind at 1.
      destruct (measureTextN_ok env cfg (Js.slice (start run) (end_ run) lineText)
                  (fontSize cfg) (letterSpacing cfg) st) as (w & c1 & ->).
      unfold ret at 1. simpl.
      match goal with
      | |- context [shapeRuns _ _ _ _ _ (?s, ?x, ?y) (setCache c1 st)] =>
          destruct (IH s x y (setCache c1 st)) as (segs' & asc & desc & c' & -> & Htexts)
      end.
      exists segs', asc, desc, c'. split; [done|].
      rewrite Htexts, map_app. simpl. by rewrite <- app_assoc.
Qed.

Lemma buildRunMap_spec (segs : list ShapedRunSegment) (idx : nat) (runMap : list nat) :
  length (buildRunMap segs idx runMap)
  = length runMap + sum_list (map String.length (map srs_text segs))
  /\ (Forall (fun k => k < idx) runMap ->
      Forall (fun k => k < idx + length segs) (buildRunMap segs idx runMap)).
Proof.
  revert idx runMap. induction segs as [|seg segs IH]; intros idx runMap; simpl.
  - split; [lia|]. intros Hall. eapply Forall_impl; [exact Hall|]. simpl. lia.
  - destruct (IH (S idx) (runMap ++ replicate (String.length (srs_text seg)) idx))
      as [Hlen Hall].
    split.
    + rewrite Hlen, length_app, length_replicate. lia.
    + intros Hrm. replace (idx + S (length segs)) with (S idx + length segs) by lia.
      apply Hall. apply Forall_app. split.
      * eapply Forall_impl; [exact Hrm|]. simpl. lia.
      * apply Forall_replicate. lia.
Qed.

(** The run map of a shaped line has one entry per character of the line,
    each the index of an existing segment. *)
Lemma runMap_covers lineText useEngine st segs asc desc st' :
  shapeRuns env cfg lineText useEngine
            (getRuns lineText (getEmbeddingLevels env lineText)) ([], nzero, nzero) st
  = (Ok (segs, asc, desc), st') ->
  length (buildRunMap segs 0 []) = String.length lineText
  /\ Forall (fun k => k < length segs) (buildRunMap segs 0 []).
Proof.
  intros Hrun.
  destruct (shapeRuns_ok lineText useEngine
              (getRuns lineText (getEmbeddingLevels env lineText)) [] nzero nzero st)
    as (segs' & asc' & desc' & c' & Hrun' & Htexts).
  rewrite Hrun in Hrun'. injection Hrun' as <- _ _ _.
  destruct (buildRunMap_spec segs 0 []) as [Hlen Hall]. split.
  - rewrite Hlen, Htexts. simpl. rewrite <- join_length.
    by rewrite getRuns_join_slices.
  - apply Hall. constructor.
Qed.

Lemma visualSegment_ok segs reordered k runStart i st :
  k < length segs ->
  exists seg off w c',
    segs !! k = Some seg
    /\ segStartForSegment segs k = Ok off
    /\ measureTextN env cfg (collectSubstring (srs_text seg) reordered runStart i off)
                    (fontSize cfg) (letterSpacing cfg) st
       = (Ok w, setCache c' st)
    /\ visualSegment env cfg segs reordered (Some k) runStart i st
       = (Ok (mkShaped (collectSubstring (srs_text seg) reordered runStart i off)
                       nzero w (srs_isImage seg) (srs_isRTL seg)),
          setCache c' st).
Proof.
  intros Hk. destruct (lookup_lt_is_Some_2 segs k Hk) as [seg Hseg].
  pose proof (segStartForSegment_ok segs k ltac:(lia)) as Hoff.
  destruct (measureTextN_ok env cfg
              (collectSubstring (srs_text seg) reordered runStart i
                 (sum_list (map (fun seg => String.length (srs_text seg)) (take k segs))))
              (fontSize cfg) (letterSpacing cfg) st) as (w & c' & Hw).
  eexists seg, _, w, c'. split; [done|]. split; [exact Hoff|]. split; [exact Hw|].
  unfold visualSegment. rewrite Hseg. unfold bind at 1, liftResult. rewrite Hoff.
  unfold bind at 1. by rewrite Hw.
Qed.

Lemma groupLoop_ok segs runMap reordered rest i k runStart out st :
  Forall (fun k => k < length segs) runMap ->
  Forall (fun r => r < length runMap) rest ->
  k < length segs ->
  exists k' runStart' out' c',
    groupLoop env cfg segs runMap reordered rest i (Some k) runStart out st
    = (Ok (Some k', runStart', out'), setCache c' st)
    /\ k' < length segs.
Proof.
  intros Hmap. revert i k runStart out st.
  induction rest as [|rIndex rest IH]; intros i k runStart out st Hrest Hk;
    cbn [groupLoop].
  - exists k, runStart, out, (cache st). by rewrite setCache_cache.
  - inversion Hrest as [|? ? Hr Hrest']; subst.
    destruct (lookup_lt_is_Some_2 runMap rIndex Hr) as [k2 Hk2].
    assert (k2 < length segs) as Hk2lt.
    { eapply (proj1 (Forall_forall _ _) Hmap). by eapply list_elem_of_lookup_2. }
    rewrite Hk2. destruct (decide (Some k2 <> Some k)) as [Hne|Heq].
    + unfold bind at 1.
      destruct (visualSegment_ok segs reordered k runStart i st Hk)
        as (seg & off & w & c1 & _ & _ & _ & ->).
      match goal with
      | |- context [groupLoop _ _ _ _ _ _ _ _ _ ?o (setCache c1 st)] =>
          destruct (IH (S i) k2 i o (setCache c1 st) Hrest' Hk2lt)
            as (k' & rs' & out' & c' & -> & Hk')
      end.
      by exists k', rs', out', c'.
    + by apply IH.
Qed.

Lemma shapeLine_ok lineWords xOffset currentLine currentHeight cw useEngine st :
  getReorderedIndices env (Js.join lineWords)
                      (getEmbeddingLevels env (Js.join lineWords)) <> [] ->
  Forall (fun i => i < String.length (Js.join lineWords))
         (getReorderedIndices env (Js.join lineWords)
                              (getEmbeddingLevels env (Js.join lineWords))) ->
  exists r st',
    shapeLineWithBidiRuns env cfg lineWords xOffset currentLine currentHeight
                          cw useEngine st
    = (Ok r, st').
Proof.
  intros Hne Hrange. unfold shapeLineWithBidiRuns.
  set (lineText := Js.join lineWords) in *.
  set (reordered := getReorderedIndices env lineText (getEmbeddingLevels env lineText)) in *.
  unfold bind at 1.
  destruct (shapeRuns_ok lineText useEngine
              (getRuns lineText (getEmbeddingLevels env lineText)) [] nzero nzero st)
    as (segs & asc & desc & c1 & Hruns & _).
  rewrite Hruns.
  destruct (runMap_covers _ _ _ _ _ _ _ Hruns) as [Hlen Hmap].
  rewrite <- Hlen in Hrange.
  destruct reordered as [|r0 rest] eqn:Hre; [done|].
  inversion Hrange as [|? ? Hr0 Hrest]; subst.
  destruct (lookup_lt_is_Some_2 _ r0 Hr0) as [k0 Hk0].
  assert (k0 < length segs) as Hk0lt.
  { eapply (proj1 (Forall_forall _ _) Hmap). by eapply list_elem_of_lookup_2. }
  simpl lookup. simpl mbind. rewrite Hk0.
  unfold bind at 1.
  destruct (groupLoop_ok segs (buildRunMap segs 0 []) (r0 :: rest) (r0 :: rest) 0 k0 0 []
              (setCache c1 st) Hmap Hrange Hk0lt)
    as (k' & rs' & out' & c2 & -> & Hk').
  unfold bind at 1.
  destruct (visualSegment_ok segs (r0 :: rest) k' rs' (length (r0 :: rest))
              (setCache c2 (setCache c1 st)) Hk')
    as (seg & off & w & c3 & _ & _ & _ & ->).
  destruct (placeSegments _ _) as [placed cursorX].
  unfold bind, pushPlaced, ret. by eexists _, _.
Qed.

(** Once the current run index is [undefined] the grouping loop either
    throws or ends with it still [undefined]. *)
Lemma groupLoop_undefined segs runMap reordered rest i runStart out st :
  match groupLoop env cfg segs runMap reordered rest i None runStart out st with
  | (Ok (cur, _, _), _) => cur = None
  | (Throw _, _) => True
  end.
Proof.
  revert i runStart out st.
  induction rest as [|rIndex rest IH]; intros i runStart out st; cbn [groupLoop];
    [done|].
  destruct (decide (runMap !! rIndex <> None)) as [Hne|_]; [|apply IH].
  unfold bind, visualSegment, throw. done.
Qed.

Lemma groupLoop_out_of_range segs runMap reordered rest i cur runStart out st :
  Exists (fun r => length runMap <= r) rest ->
  match groupLoop env cfg segs runMap reordered rest i cur runStart out st with
  | (Ok (cur', _, _), _) => cur' = None
  | (Throw _, _) => True
  end.
Proof.
  revert i cur runStart out st.
  induction rest as [|rIndex rest IH]; intros i cur runStart out st Hex;
    [by apply Exists_nil in Hex|].
  apply Exists_cons in Hex as [Hhead | Htail]; cbn [groupLoop].
  - rewrite (lookup_ge_None_2 runMap rIndex Hhead).
    destruct (decide (None <> cur)) as [Hne|Heq].
    + unfold bind at 1.
      destruct (visualSegment _ _ _ _ _ _ _ _) as [[seg|e] st1]; [|done].
      apply groupLoop_undefined.
    + apply dec_stable in Heq. subst cur. apply groupLoop_undefined.
  - destruct (decide (runMap !! rIndex <> cur)) as [Hne|_]; [|by apply IH].
    unfold bind at 1.
    destruct (visualSegment _ _ _ _ _ _ _ _) as [[seg|e] st1]; [|done].
    by apply IH.
Qed.

(** X12: [shapeLineWithBidiRuns] returns exactly when the reordered indices
    of the line are not empty and all below the length of the line text;
    with no index, or with an index outside the line, it throws the
    [TypeError] of reading [shapedRunSegments[undefined].text]. *)
Theorem shapeLine_throws_iff lineWords xOffset currentLine currentHeight cw
        useEngine (st : FlowState) :
  fst (shapeLineWithBidiRuns env cfg lineWords xOffset currentLine currentHeight
                             cw useEngine st)
  = Throw TypeError
  <-> (getReorderedIndices env (Js.join lineWords)
                           (getEmbeddingLevels env (Js.join lineWords)) = []
       \/ Exists (fun i => String.length (Js.join lineWords) <= i)
                 (getReorderedIndices env (Js.join lineWords)
                                      (getEmbeddingLevels env (Js.join lineWords)))).
Proof.
  set (lineText := Js.join lineWords).
  set (reordered := getReorderedIndices env lineText (getEmbeddingLevels env lineText)).
  split.
  - intros Hthrow.
    destruct (decide (reordered = [])) as [|Hne]; [by left|]. right.
    destruct (decide (Exists (fun i => String.length lineText <= i) reordered))
      as [|Hnex]; [done|]. exfalso.
    assert (Forall (fun i => i < String.length lineText) reordered) as Hall.
    { apply Forall_forall. intros i Hi.
      destruct (decide (i < String.length lineText)) as [|Hge]; [done|].
      exfalso. apply Hnex. apply Exists_exists. exists i. split; [done | lia]. }
    destruct (shapeLine_ok lineWords xOffset currentLine currentHeight cw useEngine st
                Hne Hall) as (r & st' & Hok).
    by rewrite Hok in Hthrow.
  - intros Hbad. unfold shapeLineWithBidiRuns.
    fold lineText. fold reordered.
    unfold bind at 1.
    destruct (shapeRuns_ok lineText useEngine
                (getRuns lineText (getEmbeddingLevels env lineText)) [] nzero nzero st)
      as (segs & asc & desc & c1 & Hruns & _).
    rewrite Hruns.
    destruct (runMap_covers _ _ _ _ _ _ _ Hruns) as [Hlen Hmap].
    unfold bind at 1.
    destruct Hbad as [Hnil | Hex].
    + rewrite Hnil. simpl. done.
    + rewrite <- Hlen in Hex.
      match goal with
      | |- context [groupLoop ?a ?b ?c ?d ?e ?f ?g ?h ?i ?j ?k] =>
          pose proof (groupLoop_out_of_range c d e f g h i j k Hex) as Hloop;
          destruct (groupLoop a b c d e f g h i j k) as [[[[cur rs] out]|e0] st2]
      end.
      * subst cur. unfold bind at 1. simpl. done.
      * by destruct e0.
Qed.

End ShaperReturns.

(** ** What the run shaper places *)

Section Placement.
Context `{Number}.
Variable env : Env.
Variable cfg : Config.

Lemma placed_spec (segs : list ShapedSegment) (cursorX : num) (line : nat)
      (h : num) (idx : nat) :
  snd (placeSegments segs cursorX) = fold_left nadd (map seg_width segs) cursorX
  /\ length (toPlaced (fst (placeSegments segs cursorX)) line h idx) = length segs
  /\ map ps_width (toPlaced (fst (placeSegments segs cursorX)) line h idx)
     = map seg_width segs
  /\ map ps_text (toPlaced (fst (placeSegments segs cursorX)) line h idx)
     = map seg_text segs
  /\ forall k p,
      toPlaced (fst (placeSegments segs cursorX)) line h idx !! k = Some p ->
      ps_line p = line /\ ps_y p = h /\ ps_lineIndex p = idx + k
      /\ ps_x p = fold_left nadd (take k (map seg_width segs)) cursorX.
Proof.
  revert cursorX idx. induction segs as [|seg segs IH]; intros cursorX idx.
  - simpl. split; [done|]. split; [done|]. split; [done|]. split; [done|].
    intros k p Hp. by rewrite lookup_nil in Hp.
  - simpl. destruct (IH (nadd cursorX (seg_width seg)) (S idx))
      as (Hend & Hlen & Hw & Ht & Hlk).
    destruct (placeSegments segs (nadd cursorX (seg_width seg))) as [rest cEnd].
    simpl in *. split; [done|]. split; [by rewrite Hlen|].
    split; [by rewrite Hw|]. split; [by rewrite Ht|].
    intros [|k] p Hp; simpl in Hp.
    + injection Hp as <-. simpl. repeat split. lia.
    + destruct (Hlk k p Hp) as (Hl & Hy & Hi & Hx).
      repeat split; [done | done | lia | done].
Qed.

(** X13: when [shapeLineWithBidiRuns] returns, it has appended at least one
    segment to [placedSegments] and left the per-line arrays alone; the
    appended segments carry the current line number and y, are numbered
    0, 1, 2, ... within the line, and are laid side by side from [xOffset]:
    each one starts where the widths of the ones before it end. The
    returned line width is the end of the last segment minus [xOffset]. *)
Theorem shapeLine_places lineWords xOffset currentLine currentHeight cw useEngine
        (st st' : FlowState) (r : LineResult) :
  shapeLineWithBidiRuns env cfg lineWords xOffset currentLine currentHeight
                        cw useEngine st
  = (Ok r, st') ->
  exists new,
    new <> []
    /\ placedSegments st' = placedSegments st ++ new
    /\ lineWidths st' = lineWidths st
    /\ baselines st' = baselines st
    /\ lineSegmentNumber st' = lineSegmentNumber st
    /\ (forall k p, new !! k = Some p ->
          ps_line p = currentLine /\ ps_y p = currentHeight /\ ps_lineIndex p = k
          /\ ps_x p = fold_left nadd (take k (map ps_width new)) xOffset)
    /\ lr_width r = nsub (fold_left nadd (map ps_width new) xOffset) xOffset.
Proof.
  unfold shapeLineWithBidiRuns, bind.
  destruct (Measuring_Frames _ (Measuring_shapeRuns env cfg (Js.join lineWords) useEngine
              (getRuns (Js.join lineWords) (getEmbeddingLevels env (Js.join lineWords)))
              ([], nzero, nzero)) st) as (r1 & c1 & ->).
  destruct r1 as [[[segs asc] desc]|e]; [|done].
  match goal with
  | |- context [groupLoop ?a ?b ?c ?d ?e ?f ?g ?h ?i ?j] =>
      destruct (Measuring_Frames _ (Measuring_groupLoop a b c d e f g h i j)
                  (setCache c1 st)) as (r2 & c2 & ->)
  end.
  destruct r2 as [[[cur runStart] out]|e]; [|done].
  match goal with
  | |- context [visualSegment ?a ?b ?c ?d ?e ?f ?g] =>
      destruct (Measuring_Frames _ (Measuring_visualSegment a b c d e f g)
                  (setCache c2 (setCache c1 st))) as (r3 & c3 & ->)
  end.
  destruct r3 as [last|e]; [|done].
  pose proof (placed_spec (out ++ [last]) xOffset currentLine currentHeight 0)
    as (Hend & Hlen & Hw & _ & Hk).
  destruct (placeSegments (out ++ [last]) xOffset) as [placed cursorX].
  simpl in *. intros [= <- <-]. simpl.
  exists (toPlaced placed currentLine currentHeight 0).
  split.
  { intros Hnil. rewrite Hnil, length_app in Hlen. simpl in Hlen. lia. }
  split; [done|]. split; [done|]. split; [done|]. split; [done|].
  split; [|by rewrite Hw, Hend].
  intros k p Hp. destruct (Hk k p Hp) as (Hl & Hy & Hi & Hx).
  rewrite Hw. by repeat split.
Qed.

Lemma groupLoop_same_run segs runMap reordered rest i cur runStart out st :
  Forall (fun r => runMap !! r = cur) rest ->
  groupLoop env cfg segs runMap reordered rest i cur runStart out st
  = (Ok (cur, runStart, out), st).
Proof.
  revert i. induction rest as [|rIndex rest IH]; intros i Hall; cbn [groupLoop];
    [done|].
  inversion Hall as [|? ? Hr Hrest]; subst.
  destruct (decide (runMap !! rIndex <> runMap !! rIndex)) as [Hne|_]; [done|].
  by apply IH.
Qed.

(** A line that is one run: one segment is placed, holding the characters
    the whole list of reordered indices picks from the line. *)
Lemma shapeLine_single_run lineWords xOffset currentLine currentHeight cw useEngine
      (l : nat) (st : FlowState) :
  Js.join lineWords <> EmptyString ->
  getRuns (Js.join lineWords) (getEmbeddingLevels env (Js.join lineWords))
  = [mkRun 0 (String.length (Js.join lineWords)) l] ->
  getReorderedIndices env (Js.join lineWords)
                      (getEmbeddingLevels env (Js.join lineWords)) <> [] ->
  Forall (fun i => i < String.length (Js.join lineWords))
         (getReorderedIndices env (Js.join lineWords)
                              (getEmbeddingLevels env (Js.join lineWords))) ->
  exists c1 w c',
    measureTextN env cfg
      (collectSubstring (Js.join lineWords)
         (getReorderedIndices env (Js.join lineWords)
                              (getEmbeddingLevels env (Js.join lineWords)))
         0 (length (getReorderedIndices env (Js.join lineWords)
                                        (getEmbeddingLevels env (Js.join lineWords)))) 0)
      (fontSize cfg) (letterSpacing cfg) (setCache c1 st)
    = (Ok w, setCache c' st)
    /\ (isImage cfg (Js.join lineWords) = true -> c1 = cache st)
    /\ (isImage cfg (Js.join lineWords) = false ->
        exists w1, measureTextN env cfg (Js.join lineWords) (fontSize cfg)
                                (letterSpacing cfg) st = (Ok w1, setCache c1 st))
    /\ shapeLineWithBidiRuns env cfg lineWords xOffset currentLine currentHeight
                             cw useEngine st
       = (Ok (mkLineResult
                (nsub (nadd xOffset w) xOffset)
                (nadd (if ngt (baseline useEngine (Js.join lineWords)) nzero
                       then baseline useEngine (Js.join lineWords) else nzero)
                      (if ngt (nsub (height useEngine (Js.join lineWords))
                                    (baseline useEngine (Js.join lineWords))) nzero
                       then nsub (height useEngine (Js.join lineWords))
                                 (baseline useEngine (Js.join lineWords))
                       else nzero))
                (if ngt (baseline useEngine (Js.join lineWords)) nzero
                 then baseline useEngine (Js.join lineWords) else nzero)),
          mkFlowState c' (lineWidths st) (baselines st) (lineSegmentNumber st)
            (placedSegments st ++
               [mkPlaced
                  (collectSubstring (Js.join lineWords)
                     (getReorderedIndices env (Js.join lineWords)
                                          (getEmbeddingLevels env (Js.join lineWords)))
                     0 (length (getReorderedIndices env (Js.join lineWords)
                                  (getEmbeddingLevels env (Js.join lineWords)))) 0)
                  xOffset currentHeight w currentLine 0
                  (isImage cfg (Js.join lineWords))])).
Proof.
  set (lineText := Js.join lineWords).
  set (reordered := getReorderedIndices env lineText (getEmbeddingLevels env lineText)).
  intros Hne Hruns Hre Hrange.
  unfold shapeLineWithBidiRuns. fold lineText. fold reordered. rewrite Hruns.
  assert (Js.slice 0 (String.length lineText) lineText = lineText) as Hslice.
  { unfold Js.slice. rewrite Nat.sub_0_r. apply substring_full. }
  (* the run *)
  assert (exists c1 runWidth,
             shapeRuns env cfg lineText useEngine [mkRun 0 (String.length lineText) l]
                       ([], nzero, nzero) st
             = (Ok ([mkShapedRun lineText runWidth (l mod 2 =? 1)
                                 (isImage cfg lineText)],
                    (if ngt (baseline useEngine lineText) nzero
                     then baseline useEngine lineText else nzero),
                    (if ngt (nsub (height useEngine lineText)
                                  (baseline useEngine lineText)) nzero
                     then nsub (height useEngine lineText) (baseline useEngine lineText)
                     else nzero)),
                setCache c1 st)
             /\ (isImage cfg lineText = true -> c1 = cache st)
             /\ (isImage cfg lineText = false ->
                 exists w1, measureTextN env cfg lineText (fontSize cfg)
                                         (letterSpacing cfg) st
                            = (Ok w1, setCache c1 st)))
    as (c1 & runWidth & Hshape & Himg & Hnoimg).
  { cbn [shapeRuns]. unfold bind at 1, shapeRun. cbn [start end_ level].
    rewrite Hslice. unfold bind at 1.
    destruct (isImage cfg lineText) eqn:Hi.
    - exists (cache st), (fontSize cfg). rewrite setCache_cache.
      split; [reflexivity|]. split; [done|]. done.
    - unfold bind at 1.
      destruct (measureTextN_ok env cfg lineText (fontSize cfg) (letterSpacing cfg) st)
        as (w1 & c1 & Hw1).
      rewrite Hw1. exists c1, w1. split; [reflexivity|]. split; [done|].
      intros _. by exists w1. }
  unfold bind at 1. rewrite Hshape.
  assert (buildRunMap [mkShapedRun lineText runWidth (l mod 2 =? 1)
                                   (isImage cfg lineText)] 0 []
          = replicate (String.length lineText) 0) as ->.
  { reflexivity. }
  assert (Forall (fun r => replicate (String.length lineText) 0 !! r = Some 0) reordered)
    as Hmap.
  { eapply Forall_impl; [exact Hrange|]. intros r Hr. simpl.
    by apply lookup_replicate_2. }
  destruct reordered as [|r0 rest] eqn:Hreq; [done|].
  assert (replicate (String.length lineText) 0 !! r0 = Some 0) as Hr0.
  { by inversion Hmap. }
  simpl lookup at 1. simpl mbind. rewrite Hr0.
  unfold bind at 1. rewrite (groupLoop_same_run _ _ _ _ _ _ _ _ _ Hmap).
  unfold bind at 1.
  destruct (visualSegment_ok env cfg
              [mkShapedRun lineText runWidth (l mod 2 =? 1) (isImage cfg lineText)]
              (r0 :: rest) 0 0 (length (r0 :: rest)) (setCache c1 st) ltac:(simpl; lia))
    as (seg & off & w & c' & Hseg & Hoff & Hw & ->).
  injection Hseg as <-. injection Hoff as <-. simpl srs_text in *.
  exists c1, w, c'. split; [exact Hw|]. split; [done|]. split; [done|].
  reflexivity.
Qed.

End Placement.

(** ** Lines of one direction *)

Lemma rev_is_reverse {A} (l : list A) : rev l = reverse l.
Proof. unfold reverse. apply rev_alt. Qed.

Section OneDirection.
Context `{Number}.
Variable env : Env.
Variable cfg : Config.

Lemma measureTextN_again t f s st w c1 :
  measureTextN env cfg t f s st = (Ok w, setCache c1 st) ->
  exists c', measureTextN env cfg t f s (setCache c1 st) = (Ok w, setCache c' st).
Proof.
  intros Hrun.
  destruct (Measuring_Stable _ (Measuring_measureTextN env cfg t f s) _ _ _ Hrun)
    as [_ Hre].
  exists c1. by rewrite (Hre c1).
Qed.

Lemma shapeLine_ltr lineWords xOffset currentLine currentHeight cw
      useEngine (lvls : list nat) (l : nat) (st : FlowState) :
  Js.join lineWords <> EmptyString ->
  levelArray (getEmbeddingLevels env (Js.join lineWords)) = Some lvls ->
  length lvls = String.length (Js.join lineWords) ->
  (forall j, j < length lvls -> lvls !! j = Some l) ->
  getReorderedIndices env (Js.join lineWords)
                      (getEmbeddingLevels env (Js.join lineWords))
  = seq 0 (String.length (Js.join lineWords)) ->
  exists r st' w,
    shapeLineWithBidiRuns env cfg lineWords xOffset currentLine currentHeight
                          cw useEngine st
    = (Ok r, st')
    /\ fst (measureTextN env cfg (Js.join lineWords) (fontSize cfg)
                         (letterSpacing cfg) st) = Ok w
    /\ placedSegments st'
       = placedSegments st ++
           [mkPlaced (Js.join lineWords) xOffset currentHeight w currentLine 0
                     (isImage cfg (Js.join lineWords))]
    /\ lr_width r = nsub (nadd xOffset w) xOffset.
Proof.
  intros Hne He Hlen Hall Hre.
  assert (String.length (Js.join lineWords) <> 0) as Hpos.
  { destruct (Js.join lineWords); [done | simpl; lia]. }
  destruct (shapeLine_single_run env cfg lineWords xOffset currentLine currentHeight
              cw useEngine l st Hne)
    as (c1 & w & c' & Hw & Himg & Hnoimg & Hshape).
  { by apply (getRuns_one_level _ _ lvls). }
  { rewrite Hre. by destruct (String.length (Js.join lineWords)). }
  { rewrite Hre. apply Forall_forall. intros i Hi%elem_of_seq. lia. }
  rewrite Hre, length_seq in Hw, Hshape.
  pose proof (collectSubstring_in_order (Js.join lineWords)
                (seq 0 (String.length (Js.join lineWords))) 0 0
                ltac:(intros j Hj; by apply lookup_seq_lt)) as Hcollect.
  rewrite Nat.add_0_l in Hcollect. rewrite Hcollect in Hw, Hshape.
  eexists _, _, w. split; [exact Hshape|]. split; [|by split].
  destruct (isImage cfg (Js.join lineWords)) eqn:Hi.
  - rewrite (Himg eq_refl), setCache_cache in Hw. by rewrite Hw.
  - destruct (Hnoimg eq_refl) as (w1 & Hw1).
    destruct (measureTextN_again _ _ _ _ _ _ Hw1) as (c2 & Hw2).
    rewrite Hw in Hw2. injection Hw2 as -> _. by rewrite Hw1.
Qed.

(** X14: a line of plain left-to-right text (one embedding level, visual
    order equal to logical order) is placed as exactly one segment: its text
    is the whole line, it starts at [xOffset] on the current line and y, and
    its width is what [measureText] gives for the line; the line width
    returned is that segment's end minus [xOffset]. *)
Theorem shapeLine_left_to_right lineWords xOffset currentLine currentHeight cw
        useEngine (lvls : list nat) (l : nat) (st : FlowState) :
  Js.join lineWords <> EmptyString ->
  levelArray (getEmbeddingLevels env (Js.join lineWords)) = Some lvls ->
  length lvls = String.length (Js.join lineWords) ->
  (forall j, j < length lvls -> lvls !! j = Some l) ->
  getReorderedIndices env (Js.join lineWords)
                      (getEmbeddingLevels env (Js.join lineWords))
  = seq 0 (String.length (Js.join lineWords)) ->
  exists r st' w,
    shapeLineWithBidiRuns env cfg lineWords xOffset currentLine currentHeight
                          cw useEngine st
    = (Ok r, st')
    /\ fst (measureTextN env cfg (Js.join lineWords) (fontSize cfg)
                         (letterSpacing cfg) st) = Ok w
    /\ placedSegments st'
       = placedSegments st ++
           [mkPlaced (Js.join lineWords) xOffset currentHeight w currentLine 0
                     (isImage cfg (Js.join lineWords))]
    /\ lr_width r = nsub (nadd xOffset w) xOffset.
Proof. apply shapeLine_ltr. Qed.

(** X15: a line of one embedding level whose visual order is the reverse of
    its logical order (pure right-to-left text) is placed as exactly one
    segment, whose text is the line with its characters reversed; the
    segment keeps the image flag of the unreversed line. *)
Theorem shapeLine_right_to_left lineWords xOffset currentLine currentHeight cw
        useEngine (lvls : list nat) (l : nat) (st : FlowState) :
  Js.join lineWords <> EmptyString ->
  levelArray (getEmbeddingLevels env (Js.join lineWords)) = Some lvls ->
  length lvls = String.length (Js.join lineWords) ->
  (forall j, j < length lvls -> lvls !! j = Some l) ->
  getReorderedIndices env (Js.join lineWords)
                      (getEmbeddingLevels env (Js.join lineWords))
  = rev (seq 0 (String.length (Js.join lineWords))) ->
  exists r st' w,
    shapeLineWithBidiRuns env cfg lineWords xOffset currentLine currentHeight
                          cw useEngine st
    = (Ok r, st')
    /\ placedSegments st'
       = placedSegments st ++
           [mkPlaced (reverseString (Js.join lineWords)) xOffset currentHeight w
                     currentLine 0 (isImage cfg (Js.join lineWords))]
    /\ lr_width r = nsub (nadd xOffset w) xOffset.
Proof.
  intros Hne He Hlen Hall Hre.
  assert (String.length (Js.join lineWords) <> 0) as Hpos.
  { destruct (Js.join lineWords); [done | simpl; lia]. }
  destruct (shapeLine_single_run env cfg lineWords xOffset currentLine currentHeight
              cw useEngine l st Hne)
    as (c1 & w & c' & Hw & Himg & Hnoimg & Hshape).
  { by apply (getRuns_one_level _ _ lvls). }
  { rewrite Hre, rev_is_reverse. intros Hnil. apply (f_equal length) in Hnil.
    rewrite length_reverse, length_seq in Hnil. simpl in Hnil. lia. }
  { rewrite Hre, rev_is_reverse. apply Forall_forall. intros i Hi.
    apply elem_of_reverse, elem_of_seq in Hi. lia. }
  rewrite Hre, rev_is_reverse, length_reverse, length_seq in Hshape.
  assert (collectSubstring (Js.join lineWords)
            (reverse (seq 0 (String.length (Js.join lineWords))))
            0 (String.length (Js.join lineWords)) 0
          = reverseString (Js.join lineWords)) as Hcollect.
  { apply (collectSubstring_backwards (Js.join lineWords) _ 0 0).
    intros j Hj. simpl. rewrite reverse_lookup by (rewrite length_seq; lia).
    rewrite length_seq. rewrite lookup_seq_lt by lia. f_equal. lia. }
  rewrite Hcollect in Hshape.
  eexists _, _, w. split; [exact Hshape|]. by split.
Qed.

End OneDirection.

(** ** Accounts of the line flow *)

Lemma join_nonempty (ws : list string) :
  ws <> [] -> Forall (fun w => w <> EmptyString) ws -> Js.join ws <> EmptyString.
Proof.
  intros Hne Hall. destruct ws as [|w ws]; [done|].
  inversion Hall as [|? ? Hw _]; subst. rewrite join_cons.
  destruct w as [|c w]; [done|]. discriminate.
Qed.

Section FlowAccounts.
Context `{Number}.
Variable env : Env.
Variable cfg : Config.

Lemma unforcedBefore_S (n : nat) :
  unforcedBefore cfg (S n)
  = unforcedBefore cfg n + (if forcedBreakAt cfg n then 0 else 1).
Proof.
  unfold unforcedBefore. rewrite seq_S, List.filter_app, length_app. simpl.
  by destruct (forcedBreakAt cfg n).
Qed.

Lemma unforcedBefore_mono (n m : nat) :
  n <= m -> unforcedBefore cfg n <= unforcedBefore cfg m.
Proof.
  induction 1 as [|m _ IH]; [done|]. rewrite unforcedBefore_S. lia.
Qed.

Lemma finalizeLine_state cw useEngine ls st l' mw th st' :
  finalizeLine env cfg cw useEngine ls st = (Ok (l', mw, th), st') ->
  exists w,
    lineWidths st' = lineWidths st ++ [w]
    /\ lineSegmentNumber st' = lineSegmentNumber st ++ [length (currentLineWords ls)]
    /\ l' = S (lines ls)
    /\ mw = nmax (maxWidth ls) w.
Proof.
  unfold finalizeLine, bind.
  destruct (shapeLine_state env cfg (currentLineWords ls) nzero (lines ls)
              (totalHeight ls) cw useEngine st)
    as (c' & [(e & ->) | (r & new & -> & _)]); [done|].
  simpl. intros [= <- <- <- <-]. by exists (lr_width r).
Qed.

Lemma flowStep_acc cw f s useEngine i word ls st ls' st' :
  flowStep env cfg cw f s useEngine i word ls st = (Ok ls', st') ->
  FlowAcc cfg i ls st -> FlowAcc cfg (S i) ls' st'.
Proof.
  unfold flowStep, bind at 1.
  destruct (measureWord_ok env cfg f s word st) as (w & c1 & ->).
  intros Hstep (Hsum & Hlines & Hmax). unfold FlowAcc. rewrite unforcedBefore_S.
  destruct (forcedBreakAt cfg i) eqn:Hforced; simpl in Hstep.
  - unfold bind at 1 in Hstep.
    destruct (finalizeLine _ _ _ _ _ _) as [[[[l' mw] th]|e] st2] eqn:Hfin; [|done].
    injection Hstep as <- <-.
    destruct (finalizeLine_state _ _ _ _ _ _ _ _ Hfin) as (lw & Hw & Hn & -> & ->).
    simpl in *. rewrite Hw, Hn, sum_list_with_app, length_app, fold_left_app. simpl.
    split; [lia|]. split; [lia|]. by rewrite Hmax.
  - destruct (willWrap _ _ _ _ _ _).
    + unfold bind at 1 in Hstep.
      destruct (finalizeLine _ _ _ _ _ _) as [[[[l' mw] th]|e] st2] eqn:Hfin; [|done].
      injection Hstep as <- <-.
      destruct (finalizeLine_state _ _ _ _ _ _ _ _ Hfin) as (lw & Hw & Hn & -> & ->).
      simpl in *. rewrite Hw, Hn, sum_list_with_app, length_app, fold_left_app. simpl.
      split; [lia|]. split; [lia|]. by rewrite Hmax.
    + injection Hstep as <- <-. simpl in *. rewrite length_app. simpl.
      split; [lia|]. by split.
Qed.

Lemma flowLoop_acc cw f s useEngine rest i ls st ls' st' :
  flowLoop env cfg cw f s useEngine rest i ls st = (Ok ls', st') ->
  FlowAcc cfg i ls st ->
  exists n, n <= length rest
            /\ FlowAcc cfg (i + n) ls' st'
            /\ ((Z.of_nat (lines ls') < lineLimit cfg)%Z -> n = length rest).
Proof.
  revert i ls st. induction rest as [|word rest IH]; intros i ls st Hloop Hacc;
    simpl in Hloop.
  - injection Hloop as <- <-. exists 0. rewrite Nat.add_0_r.
    split; [done|]. by split.
  - destruct (Z.ltb_spec (Z.of_nat (lines ls)) (lineLimit cfg)) as [Hlt|Hge].
    + unfold bind in Hloop.
      destruct (flowStep _ _ _ _ _ _ _ _ _ _) as [[ls1|e] st1] eqn:Hstep; [|done].
      destruct (IH _ _ _ Hloop (flowStep_acc _ _ _ _ _ _ _ _ _ _ Hstep Hacc))
        as (n & Hn & Hacc' & Hall).
      exists (S n). simpl. split; [lia|].
      replace (i + S n) with (S i + n) by lia. split; [done|].
      intros Hl. by rewrite (Hall Hl).
    + injection Hloop as <- <-. exists 0. rewrite Nat.add_0_r.
      split; [lia|]. split; [done|]. lia.
Qed.

Lemma flow_acc cw f s useEngine st r st' :
  flow env cfg cw f s useEngine st = (Ok r, st') ->
  fr_width r = fold_left nmax (lineWidths st') nzero
  /\ sum_list (lineSegmentNumber st') <= unforcedBefore cfg (length (words cfg))
  /\ ((Z.of_nat (length (lineWidths st')) < lineLimit cfg)%Z ->
      sum_list (lineSegmentNumber st') = unforcedBefore cfg (length (words cfg))).
Proof.
  unfold flow, bind at 1. simpl. unfold bind at 1.
  destruct (flowLoop _ _ _ _ _ _ _ _ _ _) as [[ls|e] st1] eqn:Hloop; [|done].
  assert (FlowAcc cfg 0 initialLoop (mkFlowState (cache st) [] [] [] [])) as Hinit.
  { by repeat split. }
  destruct (flowLoop_acc _ _ _ _ _ _ _ _ _ _ Hloop Hinit)
    as (n & Hn & (Hsum & Hlines & Hmax) & Hall).
  simpl in Hsum.
  pose proof (unforcedBefore_mono n (length (words cfg)) Hn) as Hmono.
  destruct (negb _) eqn:Hempty; simpl.
  - destruct (Z.ltb_spec (Z.of_nat (lines ls)) (lineLimit cfg)) as [Hlt|Hge].
    + unfold bind.
      destruct (finalizeLine _ _ _ _ _ _) as [[[[l' mw] th]|e] st2] eqn:Hfin; [|done].
      intros [= <- <-].
      destruct (finalizeLine_state _ _ _ _ _ _ _ _ Hfin) as (lw & Hw & Hseg & -> & ->).
      rewrite Hw, Hseg, sum_list_with_app, fold_left_app. simpl.
      rewrite (Hall Hlt) in *. split; [by rewrite Hmax|]. split; lia.
    + intros [= <- <-]. simpl. split; [done|]. split; lia.
  - intros [= <- <-]. simpl. split; [done|].
    apply negb_false_iff, Nat.eqb_eq in Hempty.
    split; [lia|]. intros Hl. rewrite Hlines in Hall. rewrite (Hall Hl) in Hsum. lia.
Qed.

(** X16: every recorded line counts the words it holds, and a word whose
    forced-break flag is set is put on no line: the counts in
    [lineSegmentNumber] add up to at most the number of unflagged words,
    and to exactly that number when the line limit was not reached. *)
Theorem flow_word_count cw f s useEngine (st st' : FlowState) (r : FlowResult) :
  flow env cfg cw f s useEngine st = (Ok r, st') ->
  sum_list (lineSegmentNumber st') <= unforcedBefore cfg (length (words cfg))
  /\ ((Z.of_nat (length (lineWidths st')) < lineLimit cfg)%Z ->
      sum_list (lineSegmentNumber st') = unforcedBefore cfg (length (words cfg))).
Proof. intros Hflow. by destruct (flow_acc _ _ _ _ _ _ _ Hflow) as (_ & ? & ?). Qed.

(** X17: the width the measure callback reports is the ceiling of the
    largest recorded line width ([Math.max] folded over [lineWidths] from
    0). *)
Theorem measureFunc_width (cw ch : num) (ns ns' : NodeState) (w h : num) :
  measureFunc env cfg cw ch ns = (Ok (w, h), ns') ->
  w = nceil (fold_left nmax (lineWidths (flowState ns')) nzero).
Proof.
  unfold measureFunc. destruct (textFit cfg).
  - destruct (flow _ _ _ _ _ _ (flowState ns)) as [[r|e] fs1] eqn:Hflow; [|done].
    intros [= <- <- <-]. simpl.
    by destruct (flow_acc _ _ _ _ _ _ _ Hflow) as (-> & _).
  - destruct (fitSearch _ _ _ _ _ _ _ (flowState ns)) as [[best|e] fsA]; [|done].
    destruct (flow _ _ _ _ _ _ fsA) as [[r|e] fs1] eqn:Hflow; [|done].
    intros [= <- <- <-]. simpl.
    by destruct (flow_acc _ _ _ _ _ _ _ Hflow) as (-> & _).
Qed.

End FlowAccounts.
(** ** The break rule on the iterations that return *)

Section BreakRule.
Context `{Number}.
Variable env : Env.
Variable cfg : Config.

(** The measurer reads nothing of the state but the cache. *)
Lemma measureGraphemeLoop_reads_cache engine isImg gs f s width st1 st2 :
  cache st1 = cache st2 ->
  fst (measureGraphemeLoop engine isImg gs f s width st1)
  = fst (measureGraphemeLoop engine isImg gs f s width st2).
Proof.
  revert width st1 st2. induction gs as [|g gs IH]; intros width st1 st2 Hc;
    simpl; [done|].
  destruct (isImg g); [by apply IH|].
  unfold bind, measureGrapheme. rewrite Hc.
  destruct (cache st2 !! cacheKey g f s) as [w|]; [by apply IH|].
  apply IH. reflexivity.
Qed.

Lemma measureWord_reads_cache f s word st1 st2 :
  cache st1 = cache st2 ->
  fst (measureWord env cfg f s word st1) = fst (measureWord env cfg f s word st2).
Proof.
  intros Hc. unfold measureWord. destruct (isImage cfg word); [done|].
  by apply measureGraphemeLoop_reads_cache.
Qed.

Lemma measureWord_known f s word st w st1 :
  measureWord env cfg f s word st = (Ok w, st1) ->
  cache st ⊆ cache st1 /\ KnownWidth env cfg f s (cache st1) word w.
Proof.
  intros Hrun.
  destruct (Measuring_Stable _ (Measuring_measureWord env cfg f s word) _ _ _ Hrun)
    as [Hsub Hre].
  split; [done|]. intros st2 Hc.
  rewrite (measureWord_reads_cache f s word st2 (setCache (cache st2) st)) by done.
  by rewrite (Hre _ Hc).
Qed.

Lemma KnownWidth_mono f s c c' v w :
  c ⊆ c' -> KnownWidth env cfg f s c v w -> KnownWidth env cfg f s c' v w.
Proof. intros Hsub Hk st Hc. apply Hk. by etrans. Qed.

Lemma LineKnown_initial f s st : LineKnown env cfg f s initialLoop st.
Proof. exists []. split; [constructor | by left]. Qed.

Lemma AccumulatedWidth_snoc ws width w :
  AccumulatedWidth ws width -> AccumulatedWidth (ws ++ [w]) (nadd width w).
Proof.
  intros [-> | (w1 & rest & -> & ->)].
  - left. by rewrite fold_left_app.
  - right. exists w1, (rest ++ [w]). split; [done|]. by rewrite fold_left_app.
Qed.

Lemma flowStep_known cw f s useEngine i word ls st ls' st' :
  flowStep env cfg cw f s useEngine i word ls st = (Ok ls', st') ->
  LineKnown env cfg f s ls st -> LineKnown env cfg f s ls' st'.
Proof.
  unfold flowStep, bind at 1.
  destruct (measureWord env cfg f s word st) as [[w|e] st1] eqn:Hw; [|done].
  destruct (measureWord_known _ _ _ _ _ _ Hw) as [Hsub1 Hknown].
  intros Hstep (ws & Hall & Hacc).
  destruct (forcedBreakAt cfg i || willWrap cfg i word w (currentLineWidth ls) cw).
  - unfold bind at 1 in Hstep.
    destruct (finalizeLine _ _ _ _ _ _) as [[[[l' mw] th]|e] st2] eqn:Hfin; [|done].
    destruct (Stable_finalizeLine _ _ _ _ _ _ _ _ Hfin) as [Hsub2 _].
    injection Hstep as <- <-. unfold LineKnown. simpl.
    destruct (forcedBreakAt cfg i).
    + exists []. split; [constructor | by left].
    + exists [w]. split.
      * repeat constructor. by eapply KnownWidth_mono.
      * right. by exists w, [].
  - injection Hstep as <- <-. unfold LineKnown. simpl.
    exists (ws ++ [w]). split.
    + apply Forall2_app; [|by repeat constructor].
      eapply Forall2_impl; [done|]. intros v wv Hk. by eapply KnownWidth_mono.
    + by apply AccumulatedWidth_snoc.
Qed.

Lemma flowLoop_known cw f s useEngine rest i ls st ls' st' :
  flowLoop env cfg cw f s useEngine rest i ls st = (Ok ls', st') ->
  LineKnown env cfg f s ls st -> LineKnown env cfg f s ls' st'.
Proof.
  revert i ls st. induction rest as [|word rest IH]; intros i ls st Hloop Hk;
    simpl in Hloop.
  - by injection Hloop as <- <-.
  - destruct (Z.of_nat (lines ls) <? lineLimit cfg)%Z.
    + unfold bind in Hloop.
      destruct (flowStep _ _ _ _ _ _ _ _ _ _) as [[ls1|e] st1] eqn:Hstep; [|done].
      eapply IH; [done|]. by eapply flowStep_known.
    + by injection Hloop as <- <-.
Qed.

(** Flushing a line without words throws. *)
Lemma finalizeLine_empty_throws cw useEngine ls st :
  currentLineWords ls = [] ->
  exists st', finalizeLine env cfg cw useEngine ls st = (Throw TypeError, st').
Proof.
  intros Hempty. unfold finalizeLine, bind at 1. rewrite Hempty.
  destruct (shapeLine_empty_throws env cfg [] nzero (lines ls) (totalHeight ls) cw
              useEngine st eq_refl) as (c' & ->).
  by eexists.
Qed.

(** X26: every iteration of the loop of [flow] that returns follows the
    break rule worded on the current line. For the word of index [i] that
    the loop reaches in the state [ls], with [w] its measured width and
    [currentLineWidth] the accumulated width of the words on the line: the
    line is broken iff the forced-break flag of the word is set, or the
    line is not empty, the word does not start with one of [,.!?:-@)>]}%#],
    the accumulated width plus [w] exceeds the container width and soft
    wrap is allowed; after a soft wrap the new line holds the word, after a
    forced break it is empty, and without a break the word joins the
    line. *)
Theorem flow_break_rule cw f s useEngine (i : nat) (word : string)
        (ls ls' : LoopState) (st0 st st' : FlowState) :
  words cfg !! i = Some word ->
  flowLoop env cfg cw f s useEngine (take i (words cfg)) 0 initialLoop st0
  = (Ok ls, st) ->
  (Z.of_nat (lines ls) < lineLimit cfg)%Z ->
  flowStep env cfg cw f s useEngine i word ls st = (Ok ls', st') ->
  exists w ws,
    fst (measureWord env cfg f s word st) = Ok w
    /\ Forall2 (fun v wv => fst (measureWord env cfg f s v st) = Ok wv)
               (currentLineWords ls) ws
    /\ AccumulatedWidth ws (currentLineWidth ls)
    /\ if claimedBreak cfg i word ls cw w
       then lines ls' = S (lines ls)
            /\ currentLineWords ls' = (if forcedBreakAt cfg i then [] else [word])
       else lines ls' = lines ls
            /\ currentLineWords ls' = currentLineWords ls ++ [word].
Proof.
  intros Hword Hloop _ Hstep.
  destruct (flowLoop_known _ _ _ _ _ _ _ _ _ _ Hloop (LineKnown_initial f s st0))
    as (ws & Hall & Hacc).
  assert (currentLineWords ls <> [] -> (i =? 0) = false) as Hfirst.
  { intros Hne. destruct i as [|i]; [|done].
    simpl in Hloop. injection Hloop as <- _. done. }
  destruct (measureWord env cfg f s word st) as [[w|e] st1] eqn:Hw;
    [|by destruct (measureWord_ok env cfg f s word st) as (? & ? & ?); congruence].
  exists w, ws. split; [done|].
  split; [eapply Forall2_impl; [done|]; intros v wv Hk; by apply Hk|].
  split; [done|].
  unfold flowStep, bind at 1 in Hstep. rewrite Hw in Hstep.
  unfold claimedBreak, breakRule. rewrite <- allowedToPutAtBeginning_spec.
  unfold willWrap in Hstep.
  destruct (currentLineWords ls) as [|v vs] eqn:Hline.
  - (* an empty line: a break would flush it, and the iteration throws *)
    simpl. rewrite orb_false_r.
    destruct (forcedBreakAt cfg i || _) eqn:Hbrk in Hstep.
    + unfold bind at 1 in Hstep.
      destruct (finalizeLine_empty_throws cw useEngine ls st1 Hline) as (st2 & Hthrow).
      by rewrite Hthrow in Hstep.
    + apply orb_false_iff in Hbrk as [-> _].
      by injection Hstep as <- <-.
  - rewrite Hfirst in Hstep by done. simpl negb in *. simpl length. simpl Nat.eqb.
    simpl negb.
    destruct (forcedBreakAt cfg i || _) eqn:Hbrk.
    + unfold bind at 1 in Hstep.
      destruct (finalizeLine _ _ _ _ _ _) as [[[[l' mw] th]|e] st2] eqn:Hfin; [|done].
      injection Hstep as <- <-. simpl.
      unfold finalizeLine, bind in Hfin.
      destruct (shapeLineWithBidiRuns _ _ _ _ _ _ _ _ _) as [[r|e] st3]; [|done].
      simpl in Hfin. by injection Hfin as <- _ _ _.
    + by injection Hstep as <- <-.
Qed.

End BreakRule.

(** The words [ab, cd, e] in a container of width 3: "cd" does not fit
    after "ab" and starts the second line. *)
Lemma flow_break_rule_witness :
  words SampleRuns.threeWords !! 1 = Some "cd"%string
  /\ SampleRuns.reachedCd = (Ok SampleRuns.beforeCd, snd SampleRuns.reachedCd)
  /\ (Z.of_nat (lines SampleRuns.beforeCd) < lineLimit SampleRuns.threeWords)%Z
  /\ SampleRuns.steppedCd = (Ok SampleRuns.afterCd, snd SampleRuns.steppedCd)
  /\ exists w ws,
      fst (measureWord Sample.ltrEnv SampleRuns.threeWords 1%Z 0%Z "cd"
                       (snd SampleRuns.reachedCd))
      = Ok w
      /\ Forall2 (fun v wv =>
                    fst (measureWord Sample.ltrEnv SampleRuns.threeWords 1%Z 0%Z v
                                     (snd SampleRuns.reachedCd))
                    = Ok wv)
                 (currentLineWords SampleRuns.beforeCd) ws
      /\ AccumulatedWidth ws (currentLineWidth SampleRuns.beforeCd)
      /\ if claimedBreak SampleRuns.threeWords 1 "cd" SampleRuns.beforeCd 3%Z w
         then lines SampleRuns.afterCd = S (lines SampleRuns.beforeCd)
              /\ currentLineWords SampleRuns.afterCd
                 = (if forcedBreakAt SampleRuns.threeWords 1 then []
                    else ["cd"]%string)
         else lines SampleRuns.afterCd = lines SampleRuns.beforeCd
              /\ currentLineWords SampleRuns.afterCd
                 = currentLineWords SampleRuns.beforeCd ++ ["cd"]%string.
Proof.
  assert (SampleRuns.reachedCd = (Ok SampleRuns.beforeCd, snd SampleRuns.reachedCd))
    as Hreach by (apply pair_of_fst; vm_compute; reflexivity).
  assert (SampleRuns.steppedCd = (Ok SampleRuns.afterCd, snd SampleRuns.steppedCd))
    as Hstep by (apply pair_of_fst; vm_compute; reflexivity).
  assert (Z.of_nat (lines SampleRuns.beforeCd) < lineLimit SampleRuns.threeWords)%Z
    as Hlim by (simpl; lia).
  split; [reflexivity|]. split; [exact Hreach|]. split; [exact Hlim|].
  split; [exact Hstep|].
  exact (flow_break_rule Sample.ltrEnv SampleRuns.threeWords 3%Z 1%Z 0%Z
           (Sample.engineOf 1) 1 "cd" SampleRuns.beforeCd SampleRuns.afterCd
           Sample.emptyState (snd SampleRuns.reachedCd) (snd SampleRuns.steppedCd)
           eq_refl Hreach Hlim Hstep).
Defined.

(** ** Text that stays on one line *)

Section OneLine.
Context `{Number}.
Variable env : Env.
Variable cfg : Config.

Lemma flowLoop_no_break cw f s useEngine rest i ls st :
  allowSoftWrap cfg = false ->
  (forall j, forcedBreakAt cfg j = false) ->
  (Z.of_nat (lines ls) < lineLimit cfg)%Z ->
  exists width c',
    flowLoop env cfg cw f s useEngine rest i ls st
    = (Ok (mkLoop (lines ls) (maxWidth ls) (totalHeight ls)
                  (currentLineWords ls ++ rest) width
                  (currentLineAscent ls) (currentLineBaseline ls)),
       setCache c' st).
Proof.
  intros Hsoft Hforced. revert i ls st.
  induction rest as [|word rest IH]; intros i ls st Hlt; simpl.
  - exists (currentLineWidth ls), (cache st).
    rewrite app_nil_r, setCache_cache. by destruct ls.
  - destruct (Z.ltb_spec (Z.of_nat (lines ls)) (lineLimit cfg)); [|lia].
    unfold bind at 1, flowStep, bind at 1.
    destruct (measureWord_ok env cfg f s word st) as (w & c1 & ->).
    rewrite Hforced. unfold willWrap. rewrite Hsoft, andb_false_r. simpl.
    match goal with
    | |- context [flowLoop _ _ _ _ _ _ _ _ ?ls1 (setCache c1 st)] =>
        destruct (IH (S i) ls1 (setCache c1 st) Hlt) as (width & c' & ->)
    end.
    simpl. exists width, c'. by rewrite <- app_assoc.
Qed.

(** X23: with soft wrap off and no forced break, plain left-to-right text
    makes one line: [flow] records a single line holding all the words and
    places a single segment, the words joined, at x = 0, y = 0 on line 0;
    the reported width is that line's width. *)
Theorem flow_single_line cw f s useEngine (lvls : list nat) (l : nat)
        (st : FlowState) :
  allowSoftWrap cfg = false ->
  (forall j, forcedBreakAt cfg j = false) ->
  words cfg <> [] ->
  (0 < lineLimit cfg)%Z ->
  Js.join (words cfg) <> EmptyString ->
  levelArray (getEmbeddingLevels env (Js.join (words cfg))) = Some lvls ->
  length lvls = String.length (Js.join (words cfg)) ->
  (forall j, j < length lvls -> lvls !! j = Some l) ->
  getReorderedIndices env (Js.join (words cfg))
                      (getEmbeddingLevels env (Js.join (words cfg)))
  = seq 0 (String.length (Js.join (words cfg))) ->
  exists r st' w,
    flow env cfg cw f s useEngine st = (Ok r, st')
    /\ lineSegmentNumber st' = [length (words cfg)]
    /\ lineWidths st' = [nsub (nadd nzero w) nzero]
    /\ placedSegments st'
       = [mkPlaced (Js.join (words cfg)) nzero nzero w 0 0
                   (isImage cfg (Js.join (words cfg)))]
    /\ fr_width r = nmax nzero (nsub (nadd nzero w) nzero).
Proof.
  intros Hsoft Hforced Hwords Hlimit Hne He Hlen Hall Hre.
  unfold flow, bind at 1. simpl. unfold bind at 1.
  destruct (flowLoop_no_break cw f s useEngine (words cfg) 0 initialLoop
              (mkFlowState (cache st) [] [] [] []) Hsoft Hforced ltac:(simpl; lia))
    as (width & c1 & ->).
  simpl.
  assert (negb (length (words cfg) =? 0) = true) as ->.
  { destruct (words cfg); [done | reflexivity]. }
  change (Z.of_nat 0) with 0%Z.
  destruct (Z.ltb_spec 0 (lineLimit cfg)); [|lia].
  cbv beta. set (st0 := setCache c1 (mkFlowState (cache st) [] [] [] [])).
  destruct (shapeLine_ltr env cfg (words cfg) nzero 0 nzero cw useEngine lvls l
              st0 Hne He Hlen Hall Hre)
    as (r & st' & w & Hshape & _ & Hplaced & Hwidth).
  cbn [andb]. unfold bind at 1, finalizeLine, bind at 1. cbn [currentLineWords lines totalHeight maxWidth].
  rewrite Hshape.
  destruct (shapeLine_state env cfg (words cfg) nzero 0 nzero cw useEngine st0)
    as (c2 & [(e & Hthrow) | (r' & new & Hok & _)]);
    [by rewrite Hthrow in Hshape|].
  rewrite Hok in Hshape. injection Hshape as <- <-. simpl in *.
  eexists _, _, w. split; [reflexivity|]. simpl.
  rewrite Hwidth. by rewrite Hplaced.
Qed.

End OneLine.

(** ** When the layout returns, when it throws *)

Section Returns.
Context `{Number}.
Variable env : Env.
Variable cfg : Config.

Lemma finalizeLine_ok cw useEngine ls st :
  WellFormedBidi env ->
  Js.join (currentLineWords ls) <> EmptyString ->
  exists x st', finalizeLine env cfg cw useEngine ls st = (Ok x, st').
Proof.
  intros Hbidi Hne. destruct (Hbidi _ Hne) as [Hre Hrange].
  destruct (shapeLine_ok env cfg (currentLineWords ls) nzero (lines ls) (totalHeight ls)
              cw useEngine st Hre Hrange) as (r & st' & Hshape).
  unfold finalizeLine, bind. rewrite Hshape. simpl. by eexists _, _.
Qed.

Lemma flowStep_ok cw f s useEngine i word ls st :
  WellFormedBidi env ->
  (forall j, forcedBreakAt cfg j = false) ->
  word <> EmptyString ->
  Forall (fun w => w <> EmptyString) (currentLineWords ls) ->
  (i <> 0 -> currentLineWords ls <> []) ->
  exists ls' st',
    flowStep env cfg cw f s useEngine i word ls st = (Ok ls', st')
    /\ Forall (fun w => w <> EmptyString) (currentLineWords ls')
    /\ currentLineWords ls' <> [].
Proof.
  intros Hbidi Hforced Hword Hall Hline. unfold flowStep, bind at 1.
  destruct (measureWord_ok env cfg f s word st) as (w & c1 & ->).
  rewrite Hforced. simpl.
  destruct (willWrap cfg i word w (currentLineWidth ls) cw) eqn:Hwrap.
  - assert (i <> 0) as Hi.
    { intros ->. unfold willWrap in Hwrap. by simpl in Hwrap. }
    destruct (finalizeLine_ok cw useEngine ls (setCache c1 st) Hbidi
                (join_nonempty _ (Hline Hi) Hall)) as ([[l' mw] th] & st' & Hfin).
    unfold bind. rewrite Hfin. simpl. eexists _, _. split; [done|]. simpl.
    split; [by repeat constructor | done].
  - eexists _, _. split; [done|]. simpl. split.
    + apply Forall_app. split; [done | by repeat constructor].
    + by destruct (currentLineWords ls).
Qed.

Lemma flowLoop_ok cw f s useEngine rest i ls st :
  WellFormedBidi env ->
  (forall j, forcedBreakAt cfg j = false) ->
  Forall (fun w => w <> EmptyString) rest ->
  Forall (fun w => w <> EmptyString) (currentLineWords ls) ->
  (i <> 0 -> currentLineWords ls <> []) ->
  exists ls' st',
    flowLoop env cfg cw f s useEngine rest i ls st = (Ok ls', st')
    /\ Forall (fun w => w <> EmptyString) (currentLineWords ls').
Proof.
  intros Hbidi Hforced. revert i ls st.
  induction rest as [|word rest IH]; intros i ls st Hrest Hall Hline; simpl.
  - by eexists _, _.
  - destruct (Z.of_nat (lines ls) <? lineLimit cfg)%Z; [|by eexists _, _].
    inversion Hrest as [|? ? Hword Hrest']; subst.
    destruct (flowStep_ok cw f s useEngine i word ls st Hbidi Hforced Hword Hall Hline)
      as (ls1 & st1 & Hstep & Hall1 & Hline1).
    unfold bind. rewrite Hstep. by apply IH.
Qed.

Lemma flow_ok cw f s useEngine st :
  WellFormedBidi env ->
  (forall j, forcedBreakAt cfg j = false) ->
  Forall (fun w => w <> EmptyString) (words cfg) ->
  exists r st', flow env cfg cw f s useEngine st = (Ok r, st').
Proof.
  intros Hbidi Hforced Hwords. unfold flow, bind at 1. simpl. unfold bind at 1.
  destruct (flowLoop_ok cw f s useEngine (words cfg) 0 initialLoop
              (mkFlowState (cache st) [] [] [] []) Hbidi Hforced Hwords)
    as (ls & st1 & -> & Hall); [by constructor | done |].
  destruct (negb _) eqn:Hne; simpl; [|by eexists _, _].
  destruct (Z.of_nat (lines ls) <? lineLimit cfg)%Z; [|by eexists _, _].
  destruct (finalizeLine_ok cw useEngine ls st1 Hbidi) as ([[l' mw] th] & st' & Hfin).
  { apply join_nonempty; [|done]. intros Hnil. by rewrite Hnil in Hne. }
  unfold bind. rewrite Hfin. by eexists _, _.
Qed.

Lemma fitSearch_ok cw ch (n : nat) :
  (forall z st, exists r st', flowAt env cfg cw z st = (Ok r, st')) ->
  forall lo hi best st,
    Z.to_nat (hi - lo + 1) = n ->
    exists b st', fitSearch env cfg cw ch lo hi best st = (Ok b, st').
Proof.
  intros Hflow. induction n as [n IH] using lt_wf_ind.
  intros lo hi best st Hn. rewrite fitSearch_step.
  destruct (decide (lo <= hi)%Z) as [Hle|Hgt]; [|by eexists _, _].
  pose proof (mid_bounds lo hi Hle) as Hmid.
  destruct (Hflow ((lo + hi) / 2)%Z st) as (r & st1 & ->).
  destruct (nle (fr_height r) ch).
  - eapply IH; [|reflexivity]. lia.
  - eapply IH; [|reflexivity]. lia.
Qed.

(** X18: the measure callback returns a size, for every available width and
    height, whenever no word is empty, no word carries a forced-break flag,
    and the bidi analysis is well formed (for every non-empty line its
    reordered indices are not empty and all inside the line). *)
Theorem measureFunc_returns (cw ch : num) (ns : NodeState) :
  WellFormedBidi env ->
  (forall j, forcedBreakAt cfg j = false) ->
  Forall (fun w => w <> EmptyString) (words cfg) ->
  exists size ns', measureFunc env cfg cw ch ns = (Ok size, ns').
Proof.
  intros Hbidi Hforced Hwords. unfold measureFunc. destruct (textFit cfg).
  - destruct (flow_ok cw (finalFontSize ns) (letterSpacing cfg)
                (getEngine env (finalFontSize ns)) (flowState ns) Hbidi Hforced Hwords)
      as (r & st' & ->).
    by eexists _, _.
  - destruct (fitSearch_ok cw ch _
                (fun z st => flow_ok cw (ofZ z) (letterSpacing cfg)
                               (getEngine env (ofZ z)) st Hbidi Hforced Hwords)
                10%Z (initialMaxFontSize cfg) 10%Z (flowState ns) eq_refl)
      as (b & st1 & ->).
    destruct (flow_ok cw (ofZ b) (letterSpacing cfg) (getEngine env (ofZ b)) st1
                Hbidi Hforced Hwords) as (r & st' & ->).
    by eexists _, _.
Qed.

(** A forced break that finds the current line empty makes [flow] throw. *)
Lemma flowLoop_forced_on_empty cw f s useEngine word rest i ls st :
  currentLineWords ls = [] ->
  forcedBreakAt cfg i = true ->
  (Z.of_nat (lines ls) < lineLimit cfg)%Z ->
  fst (flowLoop env cfg cw f s useEngine (word :: rest) i ls st) = Throw TypeError.
Proof.
  intros Hempty Hforced Hlt. simpl.
  destruct (Z.ltb_spec (Z.of_nat (lines ls)) (lineLimit cfg)); [|lia].
  unfold bind at 1, flowStep, bind at 1.
  destruct (measureWord_ok env cfg f s word st) as (w & c1 & ->).
  rewrite Hforced. simpl. unfold bind at 1, finalizeLine, bind at 1.
  destruct (shapeLine_empty_throws env cfg (currentLineWords ls) nzero (lines ls)
              (totalHeight ls) cw useEngine (setCache c1 st)) as (c' & ->);
    [by rewrite Hempty | done].
Qed.

Lemma flowStep_lines cw f s useEngine i word ls st ls' st' :
  flowStep env cfg cw f s useEngine i word ls st = (Ok ls', st') ->
  lines ls' <= S (lines ls)
  /\ (forcedBreakAt cfg i = true -> currentLineWords ls' = []).
Proof.
  unfold flowStep, bind at 1.
  destruct (measureWord_ok env cfg f s word st) as (w & c1 & ->).
  destruct (forcedBreakAt cfg i || _) eqn:Hbrk.
  - unfold bind at 1, finalizeLine, bind at 1.
    destruct (shapeLineWithBidiRuns _ _ _ _ _ _ _ _ _) as [[r|e] st2]; [|done].
    simpl. intros [= <- <-]. simpl. split; [lia|]. by intros ->.
  - intros [= <- <-]. simpl. split; [lia|]. intros Hf. by rewrite Hf in Hbrk.
Qed.

Lemma flowLoop_two_forced cw f s useEngine rest (k : nat) :
  forall i ls st,
    S k < length rest ->
    forcedBreakAt cfg (i + k) = true ->
    forcedBreakAt cfg (i + S k) = true ->
    lines ls <= i ->
    (Z.of_nat (i + length rest) < lineLimit cfg)%Z ->
    fst (flowLoop env cfg cw f s useEngine rest i ls st) = Throw TypeError.
Proof.
  revert rest. induction k as [|k IH]; intros rest i ls st Hk Hf1 Hf2 Hlines Hlim.
  - destruct rest as [|w1 [|w2 rest]]; simpl in Hk; try lia.
    rewrite Nat.add_0_r in Hf1. cbn [flowLoop].
    destruct (Z.ltb_spec (Z.of_nat (lines ls)) (lineLimit cfg)); [|simpl in *; lia].
    unfold bind at 1.
    destruct (flowStep _ _ _ _ _ _ _ _ _ _) as [[ls1|e] st1] eqn:Hstep;
      [|by destruct e].
    destruct (flowStep_lines _ _ _ _ _ _ _ _ _ _ Hstep) as [Hl1 Hempty].
    apply flowLoop_forced_on_empty; [by apply Hempty | |simpl in *; lia].
    by replace (S i) with (i + 1) by lia.
  - destruct rest as [|w1 rest]; simpl in Hk; [lia|]. cbn [flowLoop].
    destruct (Z.ltb_spec (Z.of_nat (lines ls)) (lineLimit cfg)); [|simpl in *; lia].
    unfold bind at 1.
    destruct (flowStep _ _ _ _ _ _ _ _ _ _) as [[ls1|e] st1] eqn:Hstep;
      [|by destruct e].
    destruct (flowStep_lines _ _ _ _ _ _ _ _ _ _ Hstep) as [Hl1 _].
    apply IH.
    + lia.
    + by replace (S i + k) with (i + S k) by lia.
    + by replace (S i + S k) with (i + S (S k)) by lia.
    + lia.
    + simpl length in Hlim. lia.
Qed.

(** X19: a forced break that finds nothing on the current line makes [flow]
    throw a [TypeError]: with a line limit above the number of words, this
    happens when the first word carries the forced-break flag, and when two
    consecutive words carry it. *)
Theorem flow_throws_on_empty_line cw f s useEngine (st : FlowState) :
  (Z.of_nat (length (words cfg)) < lineLimit cfg)%Z ->
  (words cfg <> [] /\ forcedBreakAt cfg 0 = true)
  \/ (exists i, S i < length (words cfg)
                /\ forcedBreakAt cfg i = true /\ forcedBreakAt cfg (S i) = true) ->
  fst (flow env cfg cw f s useEngine st) = Throw TypeError.
Proof.
  intros Hlim Hcase.
  assert (fst (flowLoop env cfg cw f s useEngine (words cfg) 0 initialLoop
                        (mkFlowState (cache st) [] [] [] [])) = Throw TypeError)
    as Hloop.
  { destruct Hcase as [[Hne Hf] | (i & Hi & Hf1 & Hf2)].
    - destruct (words cfg) as [|w rest]; [done|].
      apply flowLoop_forced_on_empty; [done | done | simpl in *; lia].
    - apply (flowLoop_two_forced _ _ _ _ _ i); simpl; try done; lia. }
  unfold flow, bind at 1. simpl. unfold bind at 1.
  destruct (flowLoop _ _ _ _ _ _ _ _ _ _) as [[ls|e] st1]; [done | by destruct e].
Qed.

End Returns.

(** ** The fit search and the available height *)

Section FitMonotone.
Context `{Number}.
Variable env : Env.
Variable cfg : Config.

Lemma fitSearch_result_range cw ch (n : nat) :
  forall lo hi best st b st',
    Z.to_nat (hi - lo + 1) = n ->
    fitSearch env cfg cw ch lo hi best st = (Ok b, st') ->
    b = best \/ (lo <= b <= hi)%Z.
Proof.
  induction n as [n IH] using lt_wf_ind.
  intros lo hi best st b st' Hn Hrun. rewrite fitSearch_step in Hrun.
  destruct (decide (lo <= hi)%Z) as [Hle|Hgt]; [|injection Hrun as <- _; by left].
  pose proof (mid_bounds lo hi Hle) as Hmid.
  destruct (flowAt _ _ _ _ _) as [[r|e] st1]; [|done].
  destruct (nle (fr_height r) ch).
  - destruct (IH (Z.to_nat (hi - ((lo + hi) / 2 + 1) + 1)) ltac:(lia)
                 _ _ _ _ _ _ eq_refl Hrun) as [-> | ?]; right; lia.
  - destruct (IH (Z.to_nat ((lo + hi) / 2 - 1 - lo + 1)) ltac:(lia)
                 _ _ _ _ _ _ eq_refl Hrun) as [-> | ?];
      [by left | right; lia].
Qed.

Lemma fitSearch_monotone cw ch1 ch2 (n : nat) :
  (forall h, nle h ch1 = true -> nle h ch2 = true) ->
  forall lo hi best st b1 st1 b2 st2,
    Z.to_nat (hi - lo + 1) = n ->
    (best <= lo)%Z ->
    fitSearch env cfg cw ch1 lo hi best st = (Ok b1, st1) ->
    fitSearch env cfg cw ch2 lo hi best st = (Ok b2, st2) ->
    (b1 <= b2)%Z.
Proof.
  intros Hmono. induction n as [n IH] using lt_wf_ind.
  intros lo hi best st b1 st1 b2 st2 Hn Hbest Hrun1 Hrun2.
  rewrite fitSearch_step in Hrun1, Hrun2.
  destruct (decide (lo <= hi)%Z) as [Hle|Hgt];
    [|injection Hrun1 as <- _; injection Hrun2 as <- _; lia].
  pose proof (mid_bounds lo hi Hle) as Hmid.
  destruct (flowAt _ _ _ _ _) as [[r|e] st'] eqn:Htry; [|done].
  destruct (nle (fr_height r) ch1) eqn:Hfit1.
  - rewrite (Hmono _ Hfit1) in Hrun2.
    eapply (IH (Z.to_nat (hi - ((lo + hi) / 2 + 1) + 1)));
      [lia | reflexivity | | exact Hrun1 | exact Hrun2]; lia.
  - destruct (nle (fr_height r) ch2) eqn:Hfit2.
    + destruct (fitSearch_result_range _ _ _ _ _ _ _ _ _ eq_refl Hrun1) as [-> | ?];
        destruct (fitSearch_result_range _ _ _ _ _ _ _ _ _ eq_refl Hrun2) as [-> | ?];
        lia.
    + eapply (IH (Z.to_nat ((lo + hi) / 2 - 1 - lo + 1)));
        [lia | reflexivity | | exact Hrun1 | exact Hrun2]; lia.
Qed.

(** X20: with [textFit = 'multiline'] a larger available height never gives
    a smaller font size: if every height accepted for [ch1] is accepted for
    [ch2], the size chosen from the same state for [ch2] is at least the
    size chosen for [ch1], whatever heights the sizes measure. *)
Theorem measureFunc_fit_monotone (cw ch1 ch2 : num) (ns ns1 ns2 : NodeState)
        (size1 size2 : num * num) :
  textFit cfg = FitMultiline ->
  (forall h, nle h ch1 = true -> nle h ch2 = true) ->
  measureFunc env cfg cw ch1 ns = (Ok size1, ns1) ->
  measureFunc env cfg cw ch2 ns = (Ok size2, ns2) ->
  exists b1 b2 : Z,
    finalFontSize ns1 = ofZ b1 /\ finalFontSize ns2 = ofZ b2 /\ (b1 <= b2)%Z.
Proof.
  intros Hfit Hmono Hrun1 Hrun2. unfold measureFunc in Hrun1, Hrun2.
  rewrite Hfit in Hrun1, Hrun2.
  destruct (fitSearch env cfg cw ch1 _ _ _ _) as [[b1|e] fs1] eqn:Hs1; [|done].
  destruct (fitSearch env cfg cw ch2 _ _ _ _) as [[b2|e] fs2] eqn:Hs2; [|done].
  destruct (flow _ _ _ _ _ _ fs1) as [[r1|e] fs1']; [|done].
  destruct (flow _ _ _ _ _ _ fs2) as [[r2|e] fs2']; [|done].
  injection Hrun1 as _ <-. injection Hrun2 as _ <-. simpl.
  exists b1, b2. split; [done|]. split; [done|].
  eapply (fitSearch_monotone cw ch1 ch2 _ Hmono);
    [reflexivity | | exact Hs1 | exact Hs2]; lia.
Qed.

End FitMonotone.

(** ** Decorations, one per line *)

Section FirstOfLines.
Context `{Number}.

Lemma firstOfLines_lines (placed : list PlacedSegment) (seen : gset nat) :
  NoDup (map ps_line (firstOfLines seen placed))
  /\ forall l, l ∈ map ps_line (firstOfLines seen placed)
               <-> (l ∉ seen) /\ l ∈ map ps_line placed.
Proof.
  revert seen. induction placed as [|p placed IH]; intros seen; simpl.
  - split; [constructor|]. intros l. split.
    + by intros Hl%elem_of_nil.
    + by intros [_ Hl%elem_of_nil].
  - destruct (decide (ps_line p ∈ seen)) as [Hin|Hnotin].
    + destruct (IH seen) as [Hnd Hel]. split; [done|].
      intros l. rewrite Hel, elem_of_cons. split.
      * intros [Hl Hp]. split; [done | by right].
      * intros [Hl [-> | Hp]]; [done | by split].
    + destruct (IH ({[ps_line p]} ∪ seen)) as [Hnd Hel]. simpl. split.
      * apply NoDup_cons_2; [|done].
        intros Hl. apply Hel in Hl as [Hl _]. apply Hl.
        apply elem_of_union_l. by apply elem_of_singleton.
      * intros l. rewrite !elem_of_cons, Hel. split.
        -- intros [-> | [Hl Hp]].
           ++ split; [done | by left].
           ++ split; [|by right]. intros Hs. apply Hl. by apply elem_of_union_r.
        -- intros [Hl [-> | Hp]]; [by left|].
           destruct (decide (l = ps_line p)) as [->|Hne]; [by left|].
           right. split; [|done].
           by intros [Hs%elem_of_singleton | Hs]%elem_of_union.
Qed.

End FirstOfLines.

Section DecorationFacts.
Context `{Number}.
Variable cfg : Config.
Variable NaN : num.
Variable engine : FontEngine.
Variables left top containerWidth : num.
Variables lineWidths baselines : list num.

Let anchorCall (p : PlacedSegment) : Decoration :=
  decorationOf left
    (decorationAnchor cfg NaN engine top containerWidth lineWidths baselines p).

Lemma decoration_fold (placed : list PlacedSegment)
      (dl : gmap nat DecorationLine) (calls : list Decoration) :
  (forall l d, dl !! l = Some d -> deco_drawn d = true) ->
  snd (fold_left (decorationStep cfg NaN engine left top containerWidth true
                                 lineWidths baselines) placed (dl, calls))
  = calls ++ map anchorCall (firstOfLines (dom dl) placed).
Proof.
  revert dl calls. induction placed as [|p placed IH]; intros dl calls Hdrawn; simpl.
  - by rewrite app_nil_r.
  - destruct (dl !! ps_line p) as [d|] eqn:Hlk.
    + rewrite Hlk, (Hdrawn _ _ Hlk).
      destruct (decide (ps_line p ∈ dom dl)) as [_|Hnotin];
        [by apply IH|].
      exfalso. apply Hnotin. apply elem_of_dom. by eexists.
    + rewrite lookup_insert_eq. simpl.
      destruct (decide (ps_line p ∈ dom dl)) as [Hin|_].
      { apply elem_of_dom in Hin as [d Hd]. congruence. }
      rewrite IH.
      * rewrite insert_insert_eq, dom_insert_L. simpl.
        by rewrite <- app_assoc.
      * intros l d. rewrite insert_insert_eq.
        destruct (decide (ps_line p = l)) as [->|Hne].
        -- rewrite lookup_insert_eq. by intros [= <-].
        -- rewrite lookup_insert_ne by done. apply Hdrawn.
Qed.

Lemma decoration_fold_off (placed : list PlacedSegment)
      (dl : gmap nat DecorationLine) (calls : list Decoration) :
  snd (fold_left (decorationStep cfg NaN engine left top containerWidth false
                                 lineWidths baselines) placed (dl, calls))
  = calls.
Proof.
  revert dl. induction placed as [|p placed IH]; intros dl; simpl; [done|].
  apply IH.
Qed.

(** X21: the render loop builds one decoration per line, not one per
    segment: with [textDecorationLine] set, [buildDecoration] is called once
    for every line that has a placed segment, in the order the lines first
    appear, with the geometry anchored at the first segment of the line;
    without it, it is never called. *)
Theorem renderDecorations_once_per_line (textDecorationLine : bool)
        (placed : list PlacedSegment) :
  snd (renderDecorations cfg NaN engine left top containerWidth textDecorationLine
                         lineWidths baselines placed)
  = (if textDecorationLine
     then map (fun p => decorationOf left
                          (decorationAnchor cfg NaN engine top containerWidth
                                            lineWidths baselines p))
              (firstOfLines ∅ placed)
     else [])
  /\ NoDup (map ps_line (firstOfLines ∅ placed))
  /\ (forall l, l ∈ map ps_line (firstOfLines ∅ placed) <-> l ∈ map ps_line placed).
Proof.
  split; [|split].
  - unfold renderDecorations. destruct textDecorationLine.
    + rewrite decoration_fold; [by rewrite dom_empty_L|].
      intros l d Hl. by rewrite lookup_empty in Hl.
    + apply decoration_fold_off.
  - apply firstOfLines_lines.
  - intros l. destruct (firstOfLines_lines placed ∅) as [_ Hel].
    rewrite Hel. split; [by intros [_ ?]|].
    intros Hl. split; [apply not_elem_of_empty | done].
Qed.

End DecorationFacts.

(** ** Tab detection *)

Lemma leadingTabs_spec (s : string) :
  (forall j, j < leadingTabs s -> String.get j s = Some tabChar)
  /\ String.get (leadingTabs s) s <> Some tabChar.
Proof.
  induction s as [|c s [IHin IHend]]; simpl.
  - split; [intros j Hj; lia | done].
  - destruct (Ascii.eqb_spec c tabChar) as [->|Hne]; simpl.
    + split; [|done]. intros [|j] Hj; simpl; [done|]. apply IHin. lia.
    + split; [intros j Hj; lia|]. congruence.
Qed.

Lemma execTabs_spec (s : string) (i0 : nat) :
  match execTabs s i0 with
  | None => forall j, String.get j s <> Some tabChar
  | Some (i, n) =>
      i0 <= i /\ 1 <= n
      /\ (forall j, j < i - i0 -> String.get j s <> Some tabChar)
      /\ (forall j, i - i0 <= j < i - i0 + n -> String.get j s = Some tabChar)
      /\ String.get (i - i0 + n) s <> Some tabChar
  end.
Proof.
  revert i0. induction s as [|c s IH]; intros i0; simpl.
  - by intros [|j].
  - destruct (Ascii.eqb_spec c tabChar) as [->|Hne].
    + destruct (leadingTabs_spec s) as [Hin Hend].
      rewrite Nat.sub_diag. split; [lia|]. split; [lia|].
      split; [intros j Hj; lia|]. split.
      * intros [|j] Hj; simpl; [done|]. apply Hin. lia.
      * simpl. done.
    + specialize (IH (S i0)). destruct (execTabs s (S i0)) as [[i n]|].
      * destruct IH as (Hi & Hn & Hbefore & Hin & Hend).
        split; [lia|]. split; [done|].
        replace (i - i0) with (S (i - S i0)) by lia. simpl.
        split; [|split; [|done]].
        -- intros [|j] Hj; simpl; [congruence|]. apply Hbefore. lia.
        -- intros [|j] Hj; simpl; [lia|]. apply Hin. lia.
      * intros [|j]; simpl; [congruence | apply IH].
Qed.

(** X22: [detectTabs] finds the first run of tabs: with no tab in the text
    it returns [index: null] and [tabCount: 0]; otherwise [index] is the
    position of the first tab, [tabCount] (at least 1) is the number of tabs
    that follow one another from there, no character before [index] is a
    tab, and the character after the run, if any, is not a tab. *)
Theorem detectTabs_first_run (text : string) :
  match index (detectTabs text) with
  | None =>
      tabCount (detectTabs text) = 0
      /\ forall j, String.get j text <> Some tabChar
  | Some i =>
      1 <= tabCount (detectTabs text)
      /\ (forall j, j < i -> String.get j text <> Some tabChar)
      /\ (forall j, i <= j < i + tabCount (detectTabs text) ->
                    String.get j text = Some tabChar)
      /\ String.get (i + tabCount (detectTabs text)) text <> Some tabChar
  end.
Proof.
  unfold detectTabs. pose proof (execTabs_spec text 0) as Hspec.
  destruct (execTabs text 0) as [[i n]|]; simpl.
  - destruct Hspec as (_ & Hn & Hbefore & Hin & Hend).
    rewrite Nat.sub_0_r in *. by repeat split.
  - by split.
Qed.

(** ** The further properties at concrete inputs *)

Import SampleRuns.

Lemma collectSubstring_logical_order_witness :
  (forall j, j < String.length "bc" -> [5; 1; 2; 7] !! (1 + j) = Some (1 + j))
  /\ collectSubstring "bc" [5; 1; 2; 7] 1 (1 + String.length "bc") 1 = "bc"%string.
Proof.
  assert (forall j, j < String.length "bc" -> [5; 1; 2; 7] !! (1 + j) = Some (1 + j))
    as Hwin.
  { intros [|[|j]] Hj; simpl in *; first [reflexivity | lia]. }
  split; [exact Hwin|].
  apply (collectSubstring_logical_order "bc" [5; 1; 2; 7] 1 1 Hwin).
Defined.

Lemma collectSubstring_reversed_witness :
  (forall j, j < String.length "abc" ->
             [2; 1; 0] !! (0 + j) = Some (0 + (String.length "abc" - 1 - j)))
  /\ collectSubstring "abc" [2; 1; 0] 0 (0 + String.length "abc") 0
     = reverseString "abc".
Proof.
  assert (forall j, j < String.length "abc" ->
                    [2; 1; 0] !! (0 + j) = Some (0 + (String.length "abc" - 1 - j)))
    as Hwin.
  { intros [|[|[|j]]] Hj; simpl in *; first [reflexivity | lia]. }
  split; [exact Hwin|].
  apply (collectSubstring_reversed "abc" [2; 1; 0] 0 0 Hwin).
Defined.

Lemma collectSubstring_foreign_witness :
  (forall i idx, 0 <= i < 2 -> [0; 1; 2] !! i = Some idx ->
                 idx < 2 \/ 2 + String.length "c" <= idx)
  /\ collectSubstring "c" [0; 1; 2] 0 2 2 = EmptyString.
Proof.
  assert (forall i idx, 0 <= i < 2 -> [0; 1; 2] !! i = Some idx ->
                        idx < 2 \/ 2 + String.length "c" <= idx) as Hout.
  { intros [|[|i]] idx Hi Hidx; simpl in *; first [lia | injection Hidx as <-; lia]. }
  split; [exact Hout|].
  apply (collectSubstring_foreign "c" [0; 1; 2] 0 2 2 Hout).
Defined.

Lemma shapeLine_places_witness :
  shapedLtr = (Ok (mkLineResult 2%Z 2%Z 1%Z), snd shapedLtr)
  /\ exists new,
      new <> []
      /\ placedSegments (snd shapedLtr) = placedSegments Sample.emptyState ++ new
      /\ lineWidths (snd shapedLtr) = lineWidths Sample.emptyState
      /\ baselines (snd shapedLtr) = baselines Sample.emptyState
      /\ lineSegmentNumber (snd shapedLtr) = lineSegmentNumber Sample.emptyState
      /\ (forall k p, new !! k = Some p ->
            ps_line p = 1 /\ ps_y p = 2%Z /\ ps_lineIndex p = k
            /\ ps_x p = fold_left nadd (take k (map ps_width new)) 0%Z)
      /\ lr_width (mkLineResult 2%Z 2%Z 1%Z)
         = nsub (fold_left nadd (map ps_width new) 0%Z) 0%Z.
Proof.
  assert (shapedLtr = (Ok (mkLineResult 2%Z 2%Z 1%Z), snd shapedLtr)) as Hrun
    by (apply pair_of_fst; vm_compute; reflexivity).
  split; [exact Hrun|].
  exact (shapeLine_places Sample.ltrEnv threeWords ["ab"]%string 0%Z 1 2%Z 3%Z
                          (Sample.engineOf 1) Sample.emptyState (snd shapedLtr)
                          (mkLineResult 2%Z 2%Z 1%Z) Hrun).
Defined.

Lemma two_levels (l : nat) :
  forall j, j < length [l; l] -> [l; l] !! j = Some l.
Proof. intros [|[|j]] Hj; simpl in *; first [reflexivity | lia]. Qed.

Lemma replicate_levels (n l : nat) :
  forall j, j < length (replicate n l) -> replicate n l !! j = Some l.
Proof.
  intros j Hj. rewrite length_replicate in Hj. by apply lookup_replicate_2.
Qed.

(** The line "constructor" with [graphemeImages = {}]: the placed segment
    is flagged as an image, [{}["constructor"]] being the inherited
    function, and its width is the measured width of the text. *)
Lemma shapeLine_left_to_right_witness :
  Js.join ["constructor"]%string <> EmptyString
  /\ levelArray (getEmbeddingLevels Sample.ltrEnv (Js.join ["constructor"]%string))
     = Some (replicate 11 0)
  /\ length (replicate 11 0) = String.length (Js.join ["constructor"]%string)
  /\ getReorderedIndices Sample.ltrEnv (Js.join ["constructor"]%string)
                         (getEmbeddingLevels Sample.ltrEnv
                                             (Js.join ["constructor"]%string))
     = seq 0 (String.length (Js.join ["constructor"]%string))
  /\ exists r st' w,
      shapedName = (Ok r, st')
      /\ fst (measureTextN Sample.ltrEnv inheritedName "constructor"
                           (fontSize inheritedName) (letterSpacing inheritedName)
                           Sample.emptyState) = Ok w
      /\ placedSegments st'
         = placedSegments Sample.emptyState ++
             [mkPlaced "constructor" 0%Z 2%Z w 1 0 true]
      /\ lr_width r = nsub (nadd 0%Z w) 0%Z.
Proof.
  split; [discriminate|]. split; [reflexivity|]. split; [reflexivity|].
  split; [reflexivity|].
  apply (shapeLine_left_to_right Sample.ltrEnv inheritedName ["constructor"]%string
           0%Z 1 2%Z 3%Z (Sample.engineOf 1) (replicate 11 0) 0 Sample.emptyState);
    [discriminate | reflexivity | reflexivity | apply replicate_levels | reflexivity].
Defined.

Lemma shapeLine_right_to_left_witness :
  Js.join ["ab"]%string <> EmptyString
  /\ levelArray (getEmbeddingLevels rtlEnv (Js.join ["ab"]%string)) = Some [1; 1]
  /\ length [1; 1] = String.length (Js.join ["ab"]%string)
  /\ getReorderedIndices rtlEnv (Js.join ["ab"]%string)
                         (getEmbeddingLevels rtlEnv (Js.join ["ab"]%string))
     = rev (seq 0 (String.length (Js.join ["ab"]%string)))
  /\ exists r st' w,
      shapedRtl = (Ok r, st')
      /\ placedSegments st'
         = placedSegments Sample.emptyState ++
             [mkPlaced (reverseString (Js.join ["ab"]%string)) 0%Z 2%Z w 1 0
                       (isImage threeWords (Js.join ["ab"]%string))]
      /\ lr_width r = nsub (nadd 0%Z w) 0%Z.
Proof.
  split; [discriminate|]. split; [reflexivity|]. split; [reflexivity|].
  split; [reflexivity|].
  apply (shapeLine_right_to_left rtlEnv threeWords ["ab"]%string 0%Z 1 2%Z 3%Z
           (Sample.engineOf 1) [1; 1] 1 Sample.emptyState);
    [discriminate | reflexivity | reflexivity | apply two_levels | reflexivity].
Defined.

Lemma flow_word_count_witness :
  flowed = (Ok (mkFlowResult 3%Z 4%Z), snd flowed)
  /\ sum_list (lineSegmentNumber (snd flowed))
     <= unforcedBefore threeWords (length (words threeWords))
  /\ ((Z.of_nat (length (lineWidths (snd flowed))) < lineLimit threeWords)%Z ->
      sum_list (lineSegmentNumber (snd flowed))
      = unforcedBefore threeWords (length (words threeWords))).
Proof.
  assert (flowed = (Ok (mkFlowResult 3%Z 4%Z), snd flowed)) as Hrun
    by (apply pair_of_fst; vm_compute; reflexivity).
  split; [exact Hrun|].
  exact (flow_word_count Sample.ltrEnv threeWords 3%Z 1%Z 0%Z (Sample.engineOf 1)
                         Sample.emptyState (snd flowed) (mkFlowResult 3%Z 4%Z) Hrun).
Defined.

Lemma measureFunc_width_witness :
  measured 50 = (Ok (5%Z, 40%Z), snd (measured 50))
  /\ 5%Z = nceil (fold_left nmax (lineWidths (flowState (snd (measured 50)))) nzero).
Proof.
  assert (measured 50 = (Ok (5%Z, 40%Z), snd (measured 50))) as Hrun
    by (apply pair_of_fst; vm_compute; reflexivity).
  split; [exact Hrun|].
  exact (measureFunc_width Sample.ltrEnv (Sample.fitted ["ab"; "cd"; "e"]%string)
                           100%Z 50%Z Sample.emptyNode (snd (measured 50))
                           5%Z 40%Z Hrun).
Defined.

Lemma ltrEnv_well_formed : WellFormedBidi Sample.ltrEnv.
Proof.
  intros t Ht. unfold ReorderedInRange. simpl. split.
  - destruct t; [done | discriminate].
  - apply Forall_forall. intros i Hi%elem_of_seq. lia.
Qed.

Lemma no_breaks_unforced (ws : list string) (limit : Z) (j : nat) :
  forcedBreakAt (Sample.plain ws [] limit) j = false.
Proof. unfold forcedBreakAt. simpl. by destruct j. Qed.

Lemma three_words_nonempty :
  Forall (fun w => w <> EmptyString) (words threeWords).
Proof. repeat constructor; discriminate. Qed.

Lemma measureFunc_returns_witness :
  WellFormedBidi Sample.ltrEnv
  /\ (forall j, forcedBreakAt threeWords j = false)
  /\ Forall (fun w => w <> EmptyString) (words threeWords)
  /\ exists size ns',
      measureFunc Sample.ltrEnv threeWords 3%Z 50%Z Sample.emptyNode = (Ok size, ns').
Proof.
  split; [exact ltrEnv_well_formed|].
  split; [exact (no_breaks_unforced _ 10)|].
  split; [exact three_words_nonempty|].
  exact (measureFunc_returns Sample.ltrEnv threeWords 3%Z 50%Z Sample.emptyNode
           ltrEnv_well_formed (no_breaks_unforced _ 10) three_words_nonempty).
Defined.

Lemma flow_throws_on_empty_line_witness :
  (Z.of_nat (length (words Sample.twoBreaks)) < lineLimit Sample.twoBreaks)%Z
  /\ (exists i, S i < length (words Sample.twoBreaks)
                /\ forcedBreakAt Sample.twoBreaks i = true
                /\ forcedBreakAt Sample.twoBreaks (S i) = true)
  /\ fst (flow Sample.ltrEnv Sample.twoBreaks 3%Z 1%Z 0%Z (Sample.engineOf 1)
               Sample.emptyState)
     = Throw TypeError.
Proof.
  assert (Z.of_nat (length (words Sample.twoBreaks)) < lineLimit Sample.twoBreaks)%Z
    as Hlim by (simpl; lia).
  assert (exists i, S i < length (words Sample.twoBreaks)
                    /\ forcedBreakAt Sample.twoBreaks i = true
                    /\ forcedBreakAt Sample.twoBreaks (S i) = true) as Hforced.
  { exists 1. split; [simpl; lia | split; reflexivity]. }
  split; [exact Hlim|]. split; [exact Hforced|].
  exact (flow_throws_on_empty_line Sample.ltrEnv Sample.twoBreaks 3%Z 1%Z 0%Z
           (Sample.engineOf 1) Sample.emptyState Hlim (or_intror Hforced)).
Defined.

Lemma accepted_heights (h : Z) : nle h 50%Z = true -> nle h 60%Z = true.
Proof. simpl. intros Hle%Z.leb_le. apply Z.leb_le. lia. Qed.

Lemma measureFunc_fit_monotone_witness :
  textFit (Sample.fitted ["ab"; "cd"; "e"]%string) = FitMultiline
  /\ (forall h, nle h 50%Z = true -> nle h 60%Z = true)
  /\ measured 50 = (Ok (5%Z, 40%Z), snd (measured 50))
  /\ measured 60 = (Ok (5%Z, 40%Z), snd (measured 60))
  /\ exists b1 b2 : Z,
      finalFontSize (snd (measured 50)) = ofZ b1
      /\ finalFontSize (snd (measured 60)) = ofZ b2 /\ (b1 <= b2)%Z.
Proof.
  assert (measured 50 = (Ok (5%Z, 40%Z), snd (measured 50))) as Hrun1
    by (apply pair_of_fst; vm_compute; reflexivity).
  assert (measured 60 = (Ok (5%Z, 40%Z), snd (measured 60))) as Hrun2
    by (apply pair_of_fst; vm_compute; reflexivity).
  split; [reflexivity|]. split; [exact accepted_heights|].
  split; [exact Hrun1|]. split; [exact Hrun2|].
  exact (measureFunc_fit_monotone Sample.ltrEnv (Sample.fitted ["ab"; "cd"; "e"]%string)
           100%Z 50%Z 60%Z Sample.emptyNode (snd (measured 50)) (snd (measured 60))
           (5%Z, 40%Z) (5%Z, 40%Z) eq_refl accepted_heights Hrun1 Hrun2).
Defined.

(** The single word "constructor" with [graphemeImages = {}] and soft wrap
    off: one line, one segment, flagged as an image. *)
Lemma flow_single_line_witness :
  allowSoftWrap inheritedName = false
  /\ (forall j, forcedBreakAt inheritedName j = false)
  /\ words inheritedName <> []
  /\ (0 < lineLimit inheritedName)%Z
  /\ Js.join (words inheritedName) <> EmptyString
  /\ exists r st' w,
      flow Sample.ltrEnv inheritedName 3%Z 1%Z 0%Z (Sample.engineOf 1)
           Sample.emptyState
      = (Ok r, st')
      /\ lineSegmentNumber st' = [length (words inheritedName)]
      /\ lineWidths st' = [nsub (nadd nzero w) nzero]
      /\ placedSegments st' = [mkPlaced "constructor" nzero nzero w 0 0 true]
      /\ fr_width r = nmax nzero (nsub (nadd nzero w) nzero).
Proof.
  assert (forall j, forcedBreakAt inheritedName j = false) as Hforced.
  { intros j. unfold forcedBreakAt. simpl. by destruct j. }
  split; [reflexivity|]. split; [exact Hforced|]. split; [discriminate|].
  split; [simpl; lia|]. split; [discriminate|].
  apply (flow_single_line Sample.ltrEnv inheritedName 3%Z 1%Z 0%Z (Sample.engineOf 1)
           (replicate 11 0) 0 Sample.emptyState);
    [reflexivity | exact Hforced | discriminate | simpl; lia | discriminate
    | reflexivity | reflexivity | apply replicate_levels | reflexivity].
Defined.
